(** * drekar-launch: a shallow embedding of the supervisor core

    The development follows [drekar_launch.py].  Python objects live in a
    store ([state]); methods are computations in a state-and-exception
    monad [M]; the [run] activity of a child supervisor is a transition
    system whose states are the [await] points of the coroutine; outputs to
    the operating system are recorded, in program order, in a trace of
    [effect]s.  Durations and clock readings are integers (milliseconds). *)

From Stdlib Require Import ZArith String Ascii List Bool Lia.
Import ListNotations.
Open Scope Z_scope.

(** ** Data model *)

(** [class ProcessState(Enum)] *)
Inductive ProcessState :=
| STOPPED | START_PENDING | STOP_PENDING | RUNNING
| CONTINUE_PENDING | PAUSE_PENDING | PAUSED.

Definition ProcessState_value (st : ProcessState) : Z :=
  match st with
  | STOPPED => 1 | START_PENDING => 2 | STOP_PENDING => 3 | RUNNING => 4
  | CONTINUE_PENDING => 5 | PAUSE_PENDING => 6 | PAUSED => 7
  end.

Definition ProcessState_eqb (a b : ProcessState) : bool :=
  ProcessState_value a =? ProcessState_value b.

(** Python dictionaries with string keys: insertion ordered, keys unique. *)
Definition dict (V : Type) := list (string * V).

Fixpoint dict_get {V} (k : string) (d : dict V) : option V :=
  match d with
  | [] => None
  | (k', v) :: d' => if String.eqb k k' then Some v else dict_get k d'
  end.

Definition dict_in {V} (k : string) (d : dict V) : bool :=
  match dict_get k d with Some _ => true | None => false end.

(** [d[k] = v]: an existing key keeps its position, a new key goes last. *)
Fixpoint dict_set {V} (k : string) (v : V) (d : dict V) : dict V :=
  match d with
  | [] => [(k, v)]
  | (k', v') :: d' =>
      if String.eqb k k' then (k, v) :: d' else (k', v') :: dict_set k v d'
  end.

(** [del d[k]]: keys are unique, so at most one entry goes. *)
Definition dict_del {V} (k : string) (d : dict V) : dict V :=
  filter (fun kv => negb (String.eqb k (fst kv))) d.

Definition dict_values {V} (d : dict V) : list V := map snd d.

(** [d.update(other)] *)
Definition dict_update {V} (d other : dict V) : dict V :=
  fold_left (fun acc kv => dict_set (fst kv) (snd kv) acc) other d.

(** [class DrekarTask(NamedTuple)]; durations in milliseconds. *)
Record DrekarTask := {
  name : string;
  program : string;
  cwd : string;
  args : list string;
  restart : bool;
  restart_backoff : Z;
  tags : list string;
  environment : dict string;
  start_delay : Z;
  quit_on_terminate : bool
}.

(** [sys.platform] *)
Inductive platform := win32 | linux | other_posix.

(** Exceptions that the modelled code raises or lets through. *)
Inductive exn :=
| AssertionError (msg : string)
| ArgumentError (msg : string)
| KeyError (key : string)
| IndexError
| ProcessLookupError
| FileNotFoundError
| Exception (msg : string).

Inductive outcome (A : Type) :=
| Ok (a : A)
| Raise (e : exn).
Arguments Ok {A} a.
Arguments Raise {A} e.

(** What the launcher does, in program order: its calls to the operating
    system and what it prints, and three marks of its own progress
    ([spawn], [closed_assigned], [close_called]) that statements about the
    order of events refer to. *)
Inductive effect :=
| StateChanged (process_name : string) (st : ProcessState)
    (* the report printed by [process_state_changed] *)
| PostMessageW (hWnd msg : Z)
| GenerateConsoleCtrlEvent (ctrl_event pid : Z)
| killpg (pgid sig : Z)
| process_kill (pid : Z)
| spawn (program : string) (args : list string)
    (* [run] calling [create_subprocess_exec] *)
| closed_assigned
    (* the assignment [self._closed = True] of [stop_all] *)
| close_called (process_name : string)
    (* [stop_all] and [wait_all_stopped] invoking [p.close()] *)
| print_sigkill_notice
| time_sleep (ms : Z).

(** ** The operating system as the launcher sees it *)

(** The answers of the Win32 and POSIX calls used for soft termination.
    [job_process_ids job] is the process-id list QueryInformationJobObject
    reports, [None] when the query fails; [EnumWindows_calls] are the
    windows EnumWindows hands to its callback, each with the process that
    owns it; [message_only_windows] are the windows FindWindowExW walks
    under HWND_MESSAGE. *)
Record os_world := {
  sys_platform : platform;
  job_process_ids : Z -> option (list Z);
  EnumWindows_calls : list (Z * Z);
  EnumWindows_result : bool;
  GetParent : Z -> Z;
  message_only_windows : list (Z * Z);
  getpgid : Z -> option Z
}.

Definition WM_CLOSE : Z := 16.
Definition SIGINT : Z := 2.

(** An argument that the Win32 helpers accept either as one process id or
    as a list of them ([isinstance(pids, list)]). *)
Inductive pid_arg :=
| one_pid (pid : Z)
| pid_list (pids : list Z).

Definition as_pid_list (a : pid_arg) : list Z :=
  match a with
  | one_pid p => [p]
  | pid_list l => l
  end.

Definition Z_in (x : Z) (l : list Z) : bool := existsb (Z.eqb x) l.

(** [subprocess_impl_win32._win32_find_message_hwnds]: the walk stops at
    the first null handle. *)
Fixpoint find_message_hwnds_walk (pids : list Z) (ws : list (Z * Z)) : list Z :=
  match ws with
  | [] => []
  | (hWnd, process_id) :: ws' =>
      if hWnd =? 0 then []
      else if Z_in process_id pids
           then hWnd :: find_message_hwnds_walk pids ws'
           else find_message_hwnds_walk pids ws'
  end.

Definition _win32_find_message_hwnds (w : os_world) (pids : pid_arg) : list Z :=
  find_message_hwnds_walk (as_pid_list pids) (message_only_windows w).

(** [subprocess_impl_win32._win32_find_main_hwnds]: the callback compares
    each window's owner with [pids[0]]; an empty list raises. *)
Definition _win32_find_main_hwnds (w : os_world) (pids : pid_arg)
  : outcome (list Z) :=
  match as_pid_list pids with
  | [] => Raise IndexError
  | lParam :: _ =>
      let hwnds :=
        map fst (filter (fun wp => lParam =? snd wp) (EnumWindows_calls w)) in
      if negb (EnumWindows_result w) then Ok hwnds
      else Ok (filter (fun hWnd => GetParent w hWnd =? 0) hwnds)
  end.

(** [subprocess_impl_win32._win32_send_wm_close_hwnd_message] *)
Definition _win32_send_wm_close_hwnd_message (w : os_world) (pid : pid_arg)
  : outcome unit * list effect :=
  match _win32_find_main_hwnds w pid with
  | Raise e => (Raise e, [])
  | Ok hwnds =>
      let hwnds :=
        match hwnds with
        | [] => _win32_find_message_hwnds w pid
        | _ => hwnds
        end in
      (Ok tt, map (fun hWnd => PostMessageW hWnd WM_CLOSE) hwnds)
  end.

(** [subprocess_impl_win32._win32_send_ctrl_c_event] *)
Definition _win32_send_ctrl_c_event (pid : pid_arg) : list effect :=
  map (GenerateConsoleCtrlEvent 0) (as_pid_list pid).

(** [subprocess_impl_win32.win32_send_pid_wm_close] *)
Definition win32_send_pid_wm_close (w : os_world) (pid : pid_arg)
  : outcome unit * list effect :=
  match _win32_send_wm_close_hwnd_message w pid with
  | (Raise e, effs) => (Raise e, effs)
  | (Ok _, effs) => (Ok tt, effs ++ _win32_send_ctrl_c_event pid)
  end.

(** [subprocess_impl_win32.win32_send_job_wm_close] *)
Definition win32_send_job_wm_close (w : os_world) (job : Z)
  : outcome unit * list effect :=
  match job_process_ids w job with
  | None => (Ok tt, [])
  | Some pids => win32_send_pid_wm_close w (pid_list pids)
  end.

(** [class DrekarSubprocessImpl]: the process id of the asyncio subprocess
    and the job handle (0 when there is none). *)
Record DrekarSubprocessImpl := {
  pid : Z;
  _job_handle : Z
}.

(** [DrekarSubprocessImpl.send_term] *)
Definition send_term (w : os_world) (p : DrekarSubprocessImpl)
  (attempt_count : Z) : outcome unit * list effect :=
  match sys_platform w with
  | win32 =>
      if attempt_count >? 3
      then (Ok tt, _win32_send_ctrl_c_event (one_pid (pid p)))
      else win32_send_job_wm_close w (_job_handle p)
  | _ =>
      match getpgid w (pid p) with
      | None => (Raise ProcessLookupError, [])
      | Some pgid => (Ok tt, [killpg pgid SIGINT])
      end
  end.

(** [DrekarSubprocessImpl.kill] *)
Definition subprocess_kill (p : DrekarSubprocessImpl) : list effect :=
  [process_kill (pid p)].

(** ** The store *)

(** Where the [run] coroutine of a child supervisor is suspended. *)
Inductive run_pc :=
| Created        (* task created by [_do_start], body not yet entered *)
| InStartDelay   (* awaiting [wait_for(exit_event.wait(), start_delay)] *)
| InSpawn        (* awaiting [create_subprocess_exec] *)
| InDrain (stdout_read_task stderr_read_task : bool)
                 (* awaiting [asyncio.wait(wait_tasks)]; a flag is false
                    when the read task is [None] *)
| InWait         (* awaiting [self._process.wait()] *)
| InBackoff      (* awaiting [wait_for(exit_event.wait(), restart_backoff)] *)
| Finished.

(** [class DrekarProcess], with the suspension point of its activity. *)
Record DrekarProcess := {
  task_launch : DrekarTask;
  _keep_going : bool;
  _process : option DrekarSubprocessImpl;
  _term_attempts : Z;
  exit_status : Z;
  run_at : run_pc
}.

Definition set_keep_going (b : bool) (p : DrekarProcess) : DrekarProcess :=
  {| task_launch := task_launch p; _keep_going := b; _process := _process p;
     _term_attempts := _term_attempts p; exit_status := exit_status p;
     run_at := run_at p |}.

Definition set_process (o : option DrekarSubprocessImpl) (p : DrekarProcess)
  : DrekarProcess :=
  {| task_launch := task_launch p; _keep_going := _keep_going p; _process := o;
     _term_attempts := _term_attempts p; exit_status := exit_status p;
     run_at := run_at p |}.

Definition set_term_attempts (n : Z) (p : DrekarProcess) : DrekarProcess :=
  {| task_launch := task_launch p; _keep_going := _keep_going p;
     _process := _process p; _term_attempts := n;
     exit_status := exit_status p; run_at := run_at p |}.

Definition set_exit_status (n : Z) (p : DrekarProcess) : DrekarProcess :=
  {| task_launch := task_launch p; _keep_going := _keep_going p;
     _process := _process p; _term_attempts := _term_attempts p;
     exit_status := n; run_at := run_at p |}.

Definition set_run_at (pc : run_pc) (p : DrekarProcess) : DrekarProcess :=
  {| task_launch := task_launch p; _keep_going := _keep_going p;
     _process := _process p; _term_attempts := _term_attempts p;
     exit_status := exit_status p; run_at := pc |}.

(** [DrekarProcess.__init__] *)
Definition DrekarProcess_init (s : DrekarTask) : DrekarProcess :=
  {| task_launch := s; _keep_going := true; _process := None;
     _term_attempts := 0; exit_status := -1; run_at := Created |}.

(** [DrekarProcess.stopped] *)
Definition stopped (p : DrekarProcess) : bool :=
  match _process p with None => true | Some _ => false end.

(** The group ([class DrekarCore]) with everything it shares with its
    children: [_subprocesses] maps a name to the identity of a
    [DrekarProcess] object, [objects] holds the objects by identity
    (identities below [allocated] are in use), [exit_event] is the asyncio
    event, [now] the clock. *)
Record state := {
  task_launches : dict DrekarTask;
  _closed : bool;
  _subprocesses : dict nat;
  exit_event : bool;
  objects : nat -> DrekarProcess;
  allocated : nat;
  os : os_world;
  now : Z;
  trace : list effect
}.

Definition with_closed (b : bool) (s : state) : state :=
  {| task_launches := task_launches s; _closed := b;
     _subprocesses := _subprocesses s; exit_event := exit_event s;
     objects := objects s; allocated := allocated s; os := os s;
     now := now s; trace := trace s |}.

Definition with_subprocesses (d : dict nat) (s : state) : state :=
  {| task_launches := task_launches s; _closed := _closed s;
     _subprocesses := d; exit_event := exit_event s;
     objects := objects s; allocated := allocated s; os := os s;
     now := now s; trace := trace s |}.

Definition with_exit_event (b : bool) (s : state) : state :=
  {| task_launches := task_launches s; _closed := _closed s;
     _subprocesses := _subprocesses s; exit_event := b;
     objects := objects s; allocated := allocated s; os := os s;
     now := now s; trace := trace s |}.

Definition with_objects (f : nat -> DrekarProcess) (n : nat) (s : state)
  : state :=
  {| task_launches := task_launches s; _closed := _closed s;
     _subprocesses := _subprocesses s; exit_event := exit_event s;
     objects := f; allocated := n; os := os s;
     now := now s; trace := trace s |}.

Definition with_now (t : Z) (s : state) : state :=
  {| task_launches := task_launches s; _closed := _closed s;
     _subprocesses := _subprocesses s; exit_event := exit_event s;
     objects := objects s; allocated := allocated s; os := os s;
     now := t; trace := trace s |}.

Definition with_trace (tr : list effect) (s : state) : state :=
  {| task_launches := task_launches s; _closed := _closed s;
     _subprocesses := _subprocesses s; exit_event := exit_event s;
     objects := objects s; allocated := allocated s; os := os s;
     now := now s; trace := tr |}.

Definition update_object (id : nat) (f : DrekarProcess -> DrekarProcess)
  (s : state) : state :=
  with_objects
    (fun j => if Nat.eqb j id then f (objects s id) else objects s j)
    (allocated s) s.

(** ** The monad of methods: state, and exceptions that keep the state *)

Definition M (A : Type) : Type := state -> outcome A * state.

Definition ret {A} (a : A) : M A := fun s => (Ok a, s).

Definition bind {A B} (m : M A) (k : A -> M B) : M B :=
  fun s =>
    match m s with
    | (Ok a, s') => k a s'
    | (Raise e, s') => (Raise e, s')
    end.

Definition raise {A} (e : exn) : M A := fun s => (Raise e, s).

(** [try: m  except: handler] *)
Definition try_except {A} (m : M A) (handler : exn -> M A) : M A :=
  fun s =>
    match m s with
    | (Ok a, s') => (Ok a, s')
    | (Raise e, s') => handler e s'
    end.

Definition gets {A} (f : state -> A) : M A := fun s => (Ok (f s), s).

Definition modify (f : state -> state) : M unit := fun s => (Ok tt, f s).

Notation "x <- c1 ;; c2" := (bind c1 (fun x => c2))
  (at level 61, c1 at next level, right associativity).
Notation "c1 ;; c2" := (bind c1 (fun _ => c2))
  (at level 61, right associativity).

Definition when (b : bool) (m : M unit) : M unit := if b then m else ret tt.

(** [for x in l: body(x)] *)
Fixpoint for_each {A} (l : list A) (body : A -> M unit) : M unit :=
  match l with
  | [] => ret tt
  | x :: l' => body x ;; for_each l' body
  end.

Definition emit (e : effect) : M unit :=
  modify (fun s => with_trace (trace s ++ [e]) s).

Definition emit_all (es : list effect) : M unit :=
  modify (fun s => with_trace (trace s ++ es) s).

Definition object (id : nat) : M DrekarProcess :=
  gets (fun s => objects s id).

Definition modify_object (id : nat) (f : DrekarProcess -> DrekarProcess)
  : M unit :=
  modify (update_object id f).

(** The final state of a computation. *)
Definition exec {A} (m : M A) (s : state) : state := snd (m s).

(** ** Child supervisor: [close] and [kill] *)

(** [self._process.send_term(attempt)] with its effects on the trace. *)
Definition do_send_term (sub : DrekarSubprocessImpl) (attempt : Z) : M unit :=
  w <- gets os ;;
  emit_all (snd (send_term w sub attempt)) ;;
  match fst (send_term w sub attempt) with
  | Ok _ => ret tt
  | Raise e => raise e
  end.

(** [DrekarProcess.close] *)
Definition close (id : nat) : M unit :=
  modify_object id (set_keep_going false) ;;
  p <- object id ;;
  match _process p with
  | Some sub =>
      do_send_term sub (_term_attempts p) ;;
      modify_object id (fun q => set_term_attempts (_term_attempts q + 1) q)
  | None => ret tt
  end.

(** [DrekarProcess.kill] *)
Definition kill (id : nat) : M unit :=
  p <- object id ;;
  match _process p with
  | None => ret tt
  | Some sub => emit_all (subprocess_kill sub)
  end.

(** ** Group supervisor *)

(** [DrekarCore.__init__]; no object is allocated yet, and [objects] is
    filled with a placeholder. *)
Definition DrekarCore_init (tasks : list DrekarTask) (w : os_world) : state :=
  {| task_launches :=
       fold_left (fun d s => dict_set (name s) s d) tasks [];
     _closed := false;
     _subprocesses := [];
     exit_event := false;
     objects := fun _ => DrekarProcess_init
       {| name := ""; program := ""; cwd := ""; args := []; restart := false;
          restart_backoff := 0; tags := []; environment := [];
          start_delay := 0; quit_on_terminate := false |};
     allocated := 0;
     os := w;
     now := 0;
     trace := [] |}.

(** [DrekarCore._do_start]: a new object, registered under the task's name;
    its activity is created and waits to be scheduled. *)
Definition _do_start (s : DrekarTask) : M unit :=
  id <- gets allocated ;;
  modify (fun st =>
    with_objects
      (fun j => if Nat.eqb j id then DrekarProcess_init s else objects st j)
      (S id) st) ;;
  modify (fun st => with_subprocesses (dict_set (name s) id (_subprocesses st)) st).

(** [DrekarCore.start_all] *)
Definition start_all : M unit :=
  tl <- gets task_launches ;;
  for_each tl (fun ns =>
    subs <- gets _subprocesses ;;
    when (negb (dict_in (fst ns) subs)) (_do_start (snd ns))).

(** [DrekarCore.start] *)
Definition start (nm : string) : M unit :=
  closed <- gets _closed ;;
  if closed then raise (AssertionError "Already closed")
  else
    tl <- gets task_launches ;;
    match dict_get nm tl with
    | None => raise (ArgumentError ("Invalid service requested: " ++ nm))
    | Some s =>
        subs <- gets _subprocesses ;;
        when (negb (dict_in nm subs)) (_do_start s)
    end.

(** [DrekarCore.process_state_changed] *)
Definition process_state_changed (process_name : string) (st : ProcessState)
  : M unit :=
  emit (StateChanged process_name st) ;;
  closed <- gets _closed ;;
  when closed
    (when (ProcessState_eqb st STOPPED)
       (subs <- gets _subprocesses ;;
        when (dict_in process_name subs)
          (modify (with_subprocesses (dict_del process_name subs))))).

(** [try: p.close()  except Exception: pass], with the method that the
    call [p.close()] reaches as a parameter. *)
Definition close_guarded_with (close : nat -> M unit) (id : nat) : M unit :=
  p <- object id ;;
  emit (close_called (name (task_launch p))) ;;
  try_except (close id) (fun _ => ret tt).

(** The children are [DrekarProcess] objects: [p.close()] is
    [DrekarProcess.close]. *)
Definition close_guarded : nat -> M unit := close_guarded_with close.

(** The body of [DrekarCore.stop_all], with the method that the call
    [p.close()] reaches as a parameter. *)
Definition stop_all_with (close : nat -> M unit) : M unit :=
  closed <- gets _closed ;;
  if closed then ret tt
  else
    modify (with_closed true) ;;
    emit closed_assigned ;;
    subs <- gets _subprocesses ;;
    for_each (dict_values subs) (close_guarded_with close).

(** [DrekarCore.stop_all] *)
Definition stop_all : M unit := stop_all_with close.

(** [DrekarCore.get_exit_status]: the loop over [_subprocesses.values()]. *)
Definition get_exit_status (s : state) : Z :=
  fold_left
    (fun status id =>
       if negb (exit_status (objects s id) =? 0)
       then exit_status (objects s id) else status)
    (dict_values (_subprocesses s)) 0.

(** ** Child supervisor: the [run] activity *)

(** What the event loop hands to the activity when it resumes it. *)
Inductive resume :=
| Go                      (* first scheduling; a delay or backoff wait is over,
                             by timeout or because the exit event was set *)
| SpawnOk (sub : DrekarSubprocessImpl)
| ReadDone (stdout_line stderr_line : option string)
                          (* the read tasks in [done], with the line each
                             returned; the empty line is end of file *)
| WaitDone (returncode : Z)
| Raises (e : exn).       (* the awaited operation raises *)

Definition line_is_empty (l : string) : bool :=
  match l with EmptyString => true | _ => false end.

(** [while self._keep_going:] up to [await create_subprocess_exec(...)] *)
Definition loop_head (id : nat) : M unit :=
  p <- object id ;;
  if _keep_going p then
    process_state_changed (name (task_launch p)) START_PENDING ;;
    emit (spawn (program (task_launch p)) (args (task_launch p))) ;;
    modify_object id (set_run_at InSpawn)
  else modify_object id (set_run_at Finished).

(** From [self._process = None] after the [try] statement to the end of the
    loop body. *)
Definition after_life (id : nat) : M unit :=
  modify_object id (set_process None) ;;
  p <- object id ;;
  if quit_on_terminate (task_launch p) then
    modify (with_exit_event true) ;;
    modify_object id (set_run_at Finished)
  else if negb (restart (task_launch p)) then
    modify_object id (set_run_at Finished)
  else if _keep_going p then
    modify_object id (set_run_at InBackoff)
  else loop_head id.

(** The [except:] clause of the loop body, and what follows it. *)
Definition on_exception (id : nat) : M unit :=
  modify_object id (set_process None) ;;
  p <- object id ;;
  process_state_changed (name (task_launch p)) STOPPED ;;
  after_life id.

(** One read task after [asyncio.wait]: it stays, or becomes [None] at end
    of file. *)
Definition read_task_after (task : bool) (done : option string) : bool :=
  match task, done with
  | true, Some line => negb (line_is_empty line)
  | _, _ => task
  end.

(** The activity runs from one [await] to the next. *)
Definition run_step (id : nat) (r : resume) : M unit :=
  p <- object id ;;
  let s := task_launch p in
  match run_at p, r with
  | Created, Go =>
      if start_delay s >? 0
      then modify_object id (set_run_at InStartDelay)
      else loop_head id
  | Created, Raises _ =>
      modify_object id (set_run_at Finished)
  | InStartDelay, Go =>
      if negb (_keep_going p)
      then modify_object id (set_run_at Finished)
      else loop_head id
  | InSpawn, SpawnOk sub =>
      modify_object id (set_process (Some sub)) ;;
      process_state_changed (name s) RUNNING ;;
      modify_object id (set_run_at (InDrain true true))
  | InDrain out err, ReadDone out_line err_line =>
      let err' := read_task_after err err_line in
      let out' := read_task_after out out_line in
      if negb out' && negb err'
      then modify_object id (set_run_at InWait)
      else modify_object id (set_run_at (InDrain out' err'))
  | InWait, WaitDone returncode =>
      modify_object id (set_exit_status returncode) ;;
      process_state_changed (name s) STOPPED ;;
      after_life id
  | InSpawn, Raises _ | InDrain _ _, Raises _ | InWait, Raises _ =>
      on_exception id
  | InBackoff, Go => loop_head id
  | _, _ => ret tt
  end.

(** ** Group supervisor: the bounded shutdown *)

(** What happens while [wait_all_stopped] sleeps: the child activities the
    event loop resumes, and by how much the sleep overshoots. *)
Record tick := {
  resumed : list (nat * resume);
  latency : nat
}.

(** [await asyncio.sleep(ms / 1000)] *)
Definition asyncio_sleep (ms : Z) (t : tick) : M unit :=
  for_each (resumed t) (fun ir => run_step (fst ir) (snd ir)) ;;
  modify (fun s => with_now (now s + ms + Z.of_nat (latency t)) s).

(** [time.sleep(ms / 1000)] *)
Definition blocking_sleep (ms : Z) : M unit :=
  emit (time_sleep ms) ;;
  modify (fun s => with_now (now s + ms) s).

(** The number of registered children that are not stopped. *)
Definition count_running (s : state) : nat :=
  List.length
    (filter (fun id => negb (stopped (objects s id)))
       (dict_values (_subprocesses s))).

(** The loop that calls [close] again on every child not stopped. *)
Definition close_running : M unit :=
  subs <- gets _subprocesses ;;
  for_each (dict_values subs) (fun id =>
    p <- object id ;;
    when (negb (stopped p)) (close_guarded id)).

(** The polling loop; [t_diff] is read at the top of every round, and the
    round number selects what the world does during the sleep. *)
Fixpoint polling (fuel : nat) (ticks : nat -> tick) (round : nat)
  (t1 t_last_sent_close : Z) (s : state) : option state :=
  match fuel with
  | O => None
  | S fuel' =>
      let t_diff := now s - t1 in
      if t_diff >? 15000 then Some s
      else if Nat.eqb (count_running s) 0 then Some s
      else
        let s1 := exec (asyncio_sleep 100 (ticks round)) s in
        if t_diff >? t_last_sent_close + 1000
        then polling fuel' ticks (S round) t1 t_diff (exec close_running s1)
        else polling fuel' ticks (S round) t1 t_last_sent_close s1
  end.

(** After the loop: kill what is still running, then the notice and the
    two seconds.  [kill] leaves [_process] alone, so the count the loop
    accumulates is the count taken before it. *)
Definition kill_phase : M unit :=
  running_count <- gets count_running ;;
  subs <- gets _subprocesses ;;
  for_each (dict_values subs) (fun id =>
    p <- object id ;;
    when (negb (stopped p)) (kill id)) ;;
  when (negb (Nat.eqb running_count 0))
    (emit print_sigkill_notice ;; blocking_sleep 2000).

(** [DrekarCore.wait_all_stopped]; [None] when the fuel does not suffice. *)
Definition wait_all_stopped (fuel : nat) (ticks : nat -> tick) (s : state)
  : option state :=
  match polling fuel ticks 0 (now s) 0 s with
  | None => None
  | Some s1 => Some (exec kill_phase s1)
  end.

(** ** Launch-file loader: the environment of a task *)

(** Strings are Python [str] values over the code points below 256. *)

(** [str.isspace] on one character. *)
Definition isspace (c : ascii) : bool :=
  let n := nat_of_ascii c in
  (Nat.leb 9 n && Nat.leb n 13) || (Nat.leb 28 n && Nat.leb n 32)
  || Nat.eqb n 133 || Nat.eqb n 160.

Fixpoint lstrip (s : string) : string :=
  match s with
  | EmptyString => EmptyString
  | String c s' => if isspace c then lstrip s' else s
  end.

Fixpoint rstrip (s : string) : string :=
  match s with
  | EmptyString => EmptyString
  | String c s' =>
      match rstrip s' with
      | EmptyString => if isspace c then EmptyString else String c EmptyString
      | r => String c r
      end
  end.

(** [str.strip()] *)
Definition strip (s : string) : string := rstrip (lstrip s).

(** The text before the first [sep], and the text after it when there is
    one. *)
Fixpoint cut (sep : ascii) (s : string) : string * option string :=
  match s with
  | EmptyString => (EmptyString, None)
  | String c s' =>
      if Ascii.eqb c sep then (EmptyString, Some s')
      else let (a, b) := cut sep s' in (String c a, b)
  end.

(** [s.split(sep, 1)] *)
Definition split_once (sep : ascii) (s : string) : list string :=
  match cut sep s with
  | (a, None) => [a]
  | (a, Some b) => [a; b]
  end.

(** [str.split()] without arguments: the words between runs of whitespace. *)
Fixpoint split_whitespace (word s : string) : list string :=
  match s with
  | EmptyString => if line_is_empty word then [] else [word]
  | String c s' =>
      if isspace c
      then (if line_is_empty word then split_whitespace EmptyString s'
            else word :: split_whitespace EmptyString s')
      else split_whitespace (word ++ String c EmptyString) s'
  end.

Definition newline : ascii := ascii_of_nat 10.

(** The lines that successive [f.readline()] calls return before the empty
    string of end of file; each keeps its line feed.  [text] is the file
    as text mode delivers it, line ends already translated to line feeds. *)
Fixpoint readlines (text : string) : list string :=
  match text with
  | EmptyString => []
  | String c text' =>
      if Ascii.eqb c newline then String c EmptyString :: readlines text'
      else match readlines text' with
           | [] => [String c EmptyString]
           | l :: ls => String c l :: ls
           end
  end.

Definition hash : ascii := ascii_of_nat 35.
Definition equals_sign : ascii := ascii_of_nat 61.

(** [env_line[0] == "#"] on a non-empty line. *)
Definition starts_with_hash (s : string) : bool :=
  match s with
  | String c _ => Ascii.eqb c hash
  | EmptyString => false
  end.

(** The body of the [while env_line:] loop for one line of the env-file. *)
Definition env_file_line (env : dict string) (env_line : string) : dict string :=
  let env_line := strip env_line in
  if negb (line_is_empty env_line) then
    let env_line :=
      if starts_with_hash env_line
      then nth 0 (split_once hash env_line) EmptyString
      else env_line in
    match split_once equals_sign env_line with
    | [k; v] => dict_set k v env
    | _ => env
    end
  else env.

(** The environment read from an env-file: [env = dict()] and the loop. *)
Definition env_from_file (text : string) : dict string :=
  fold_left env_file_line (readlines text) [].

(** What the loader asks its host: the launcher's environment, the text of
    a file ([None] when it cannot be opened), [shutil.which] and
    [Path(program).name]. *)
Record host := {
  os_environ : dict string;
  file_text : string -> option string;
  shutil_which : string -> string -> option string;
  Path_name : string -> string
}.

(** The value under [args]: a string, another scalar (given by its [str]),
    or a list (given by the [str] of its elements). *)
Inductive yaml_args :=
| args_str (s : string)
| args_scalar (rendered : string)
| args_list (rendered : list string).

(** A task mapping of the launch document; [None] is an absent key.
    Durations are in milliseconds. *)
Record yaml_task := {
  y_name : option string;
  y_program : option string;
  y_cwd : option string;
  y_args : option yaml_args;
  y_restart : option bool;
  y_restart_backoff : option Z;
  y_tags : option (list string);
  y_environment : option (dict string);
  y_start_delay : option Z;
  y_quit_on_terminate : option bool;
  y_env_file : option string
}.

Definition get_default {A} (o : option A) (d : A) : A :=
  match o with Some a => a | None => d end.

(** [parse_task_launch_from_yaml] *)
Definition parse_task_launch_from_yaml (h : host) (yaml_dict : yaml_task)
  (cwd0 : string) : outcome DrekarTask :=
  match y_name yaml_dict with
  | None => Raise (KeyError "name")
  | Some name0 =>
  match y_program yaml_dict with
  | None => Raise (KeyError "program")
  | Some program0 =>
      let cwd1 := get_default (y_cwd yaml_dict) cwd0 in
      let args0 :=
        match y_args yaml_dict with
        | None => []
        | Some (args_str s) => split_whitespace EmptyString s
        | Some (args_scalar r) => [r]
        | Some (args_list l) => l
        end in
      let restart0 := get_default (y_restart yaml_dict) false in
      let restart_backoff0 := get_default (y_restart_backoff yaml_dict) 5000 in
      let tags0 := get_default (y_tags yaml_dict) [] in
      let env := dict_update (os_environ h)
                   (get_default (y_environment yaml_dict) []) in
      let start_delay0 := get_default (y_start_delay yaml_dict) 0 in
      let quit_on_terminate0 :=
        get_default (y_quit_on_terminate yaml_dict) false in
      let env_or_error :=
        match y_env_file yaml_dict with
        | None => Ok env
        | Some env_file =>
            match file_text h env_file with
            | None => Raise FileNotFoundError
            | Some text => Ok (env_from_file text)
            end
        end in
      match env_or_error with
      | Raise e => Raise e
      | Ok env =>
          let finish program1 :=
            Ok {| name := name0; program := program1; cwd := cwd1;
                  args := args0; restart := restart0;
                  restart_backoff := restart_backoff0; tags := tags0;
                  environment := env; start_delay := start_delay0;
                  quit_on_terminate := quit_on_terminate0 |} in
          if String.eqb (Path_name h program0) program0 then
            match dict_get "PATH" env with
            | None => Raise (KeyError "PATH")
            | Some path =>
                match shutil_which h program0 path with
                | None => Raise (Exception "Could not find program: None")
                | Some program1 => finish program1
                end
            end
          else finish program0
      end
  end
  end.

(** ** Launch-file loader: the document and the template variables *)

(** The launch document: an optional name and the list under [tasks]. *)
Record yaml_document := {
  doc_name : option string;
  doc_tasks : option (list yaml_task)
}.

(** The loop of [parse_task_launches_from_yaml_dict]. *)
Fixpoint parse_tasks (h : host) (yaml_tasks : list yaml_task) (cwd0 : string)
  (task_launches : list DrekarTask) : outcome (list DrekarTask) :=
  match yaml_tasks with
  | [] => Ok task_launches
  | t :: rest =>
      match parse_task_launch_from_yaml h t cwd0 with
      | Raise e => Raise e
      | Ok task => parse_tasks h rest cwd0 (task_launches ++ [task])
      end
  end.

(** [parse_task_launches_from_yaml_dict] *)
Definition parse_task_launches_from_yaml_dict (h : host)
  (yaml_dict : yaml_document) (cwd0 : string)
  : outcome (option string * list DrekarTask) :=
  match doc_tasks yaml_dict with
  | None => Raise (KeyError "tasks")
  | Some yaml_tasks =>
      match parse_tasks h yaml_tasks cwd0 [] with
      | Raise e => Raise e
      | Ok task_launches => Ok (doc_name yaml_dict, task_launches)
      end
  end.

(** [s[n:]] *)
Fixpoint drop_chars (n : nat) (s : string) : string :=
  match n, s with
  | O, _ => s
  | S n', String _ s' => drop_chars n' s'
  | S _, EmptyString => EmptyString
  end.

(** The loop of [parse_task_launches_from_jinja2_config] that collects the
    template variables from the arguments the command line left over. *)
Fixpoint template_vars (extra_process_args : list string) (vars : dict string)
  : outcome (dict string) :=
  match extra_process_args with
  | [] => Ok vars
  | a :: rest =>
      if String.prefix "--var-" a then
        match split_once equals_sign a with
        | [before; after] =>
            template_vars rest (dict_set (drop_chars 6 before) after vars)
        | _ => Raise IndexError
        end
      else template_vars rest vars
  end.

(** ** The control-group file of the launcher *)

(** [s.split(sep)] *)
Fixpoint split_all (sep : ascii) (s : string) : list string :=
  match s with
  | EmptyString => [EmptyString]
  | String c s' =>
      if Ascii.eqb c sep then EmptyString :: split_all sep s'
      else match split_all sep s' with
           | [] => [String c EmptyString]
           | field :: fields => String c field :: fields
           end
  end.

Fixpoint lstrip_char (c : ascii) (s : string) : string :=
  match s with
  | EmptyString => EmptyString
  | String c' s' => if Ascii.eqb c' c then lstrip_char c s' else s
  end.

Fixpoint rstrip_char (c : ascii) (s : string) : string :=
  match s with
  | EmptyString => EmptyString
  | String c' s' =>
      match rstrip_char c s' with
      | EmptyString =>
          if Ascii.eqb c' c then EmptyString else String c' EmptyString
      | r => String c' r
      end
  end.

(** [s.strip(c)] for a single character. *)
Definition strip_char (c : ascii) (s : string) : string :=
  rstrip_char c (lstrip_char c s).

Definition slash : ascii := ascii_of_nat 47.
Definition colon : ascii := ascii_of_nat 58.

(** The loop of [_linux_cgroupv2_launch_scope.read_proc_cgroup] over the
    lines of [/proc/<pid>/cgroup].  The result is the path that the code
    joins to [/sys/fs/cgroup]; [None] is the Python [None]. *)
Fixpoint read_proc_cgroup_lines (lines : list string) : option string :=
  match lines with
  | [] => None
  | line :: rest =>
      if String.prefix "0::/" line then
        let path1 := nth 2 (split_all colon line) EmptyString in
        if String.eqb (strip path1) "/" then None
        else Some (strip_char slash (strip path1))
      else read_proc_cgroup_lines rest
  end.

(** [read_proc_cgroup]; the file that cannot be opened is [None]. *)
Definition read_proc_cgroup (proc_cgroup_file : option string)
  : option string :=
  match proc_cgroup_file with
  | None => None
  | Some text => read_proc_cgroup_lines (readlines text)
  end.

(** ** The older launcher, [simple_launch.py]: soft termination *)

Module simple_launch.

(** [subprocess_impl_win32._win32_send_pid_wm_close_hwnd_message] *)
Fixpoint message_walk (pid : Z) (ws : list (Z * Z)) : list effect :=
  match ws with
  | [] => []
  | (hWnd, process_id) :: ws' =>
      if hWnd =? 0 then []
      else if pid =? process_id
           then PostMessageW hWnd WM_CLOSE :: message_walk pid ws'
           else message_walk pid ws'
  end.

Definition _win32_send_pid_wm_close_hwnd_message (w : os_world) (pid : Z)
  : list effect :=
  message_walk pid (message_only_windows w).

(** [subprocess_impl_win32._win32_send_pid_wm_close_hwnd_main]: the callback
    posts the message itself. *)
Definition _win32_send_pid_wm_close_hwnd_main (w : os_world) (pid : Z)
  : list effect :=
  map (fun wp => PostMessageW (fst wp) WM_CLOSE)
    (filter (fun wp => pid =? snd wp) (EnumWindows_calls w)).

(** [subprocess_impl_win32._win32_send_ctrl_c_event] *)
Definition _win32_send_ctrl_c_event (pid : Z) : list effect :=
  [GenerateConsoleCtrlEvent 1 pid].

(** [subprocess_impl_win32.win32_send_pid_wm_close] *)
Definition win32_send_pid_wm_close (w : os_world) (pid : Z) : list effect :=
  _win32_send_pid_wm_close_hwnd_message w pid
  ++ _win32_send_pid_wm_close_hwnd_main w pid
  ++ _win32_send_ctrl_c_event pid.

(** [subprocess_impl_win32.win32_send_job_wm_close] *)
Definition win32_send_job_wm_close (w : os_world) (job : Z) : list effect :=
  match job_process_ids w job with
  | None => []
  | Some pids => flat_map (win32_send_pid_wm_close w) pids
  end.

(** [SimpleSubprocessImpl.send_term] *)
Definition send_term (w : os_world) (p : DrekarSubprocessImpl)
  (attempt_count : Z) : outcome unit * list effect :=
  match sys_platform w with
  | win32 =>
      if attempt_count >? 3
      then (Ok tt, _win32_send_ctrl_c_event (pid p))
      else (Ok tt, win32_send_job_wm_close w (_job_handle p))
  | _ =>
      match getpgid w (pid p) with
      | None => (Raise ProcessLookupError, [])
      | Some pgid => (Ok tt, [killpg pgid SIGINT])
      end
  end.

End simple_launch.

(** ** Notions used in the statements *)

(** The last recorded exit status of every registered child, in the
    iteration order of the children map. *)
Definition registered_statuses (s : state) : list Z :=
  map (fun id => exit_status (objects s id)) (dict_values (_subprocesses s)).

Definition nonzero (e : Z) : bool := negb (e =? 0).

(** [DrekarProcess.close] with a check of the group's closed flag put at
    its head: [assert self.parent._closed]. *)
Definition close_checked (id : nat) : M unit :=
  closed <- gets _closed ;;
  if closed then close id else raise (AssertionError "not closed").

(** The state after [process_state_changed], written out. *)
Definition state_after_report (nm : string) (st : ProcessState) (s : state)
  : state :=
  with_subprocesses
    (if _closed s && ProcessState_eqb st STOPPED
     then dict_del nm (_subprocesses s) else _subprocesses s)
    (with_trace (trace s ++ [StateChanged nm st]) s).

(** The state reports among some effects. *)
Definition reports_of (es : list effect) : list ProcessState :=
  flat_map (fun e => match e with StateChanged _ st => [st] | _ => [] end) es.

(** What one step of an activity adds to the trace. *)
Definition step_effects (id : nat) (r : resume) (s : state) : list effect :=
  skipn (List.length (trace s)) (trace (exec (run_step id r) s)).

Definition step_reports (id : nat) (r : resume) (s : state)
  : list ProcessState :=
  reports_of (step_effects id r s).

(** The reports one activity has emitted over a stretch of execution: its
    own steps add their reports; whatever else happens in between (other
    activities, the group's methods) leaves its suspension point alone. *)
Inductive history (id : nat) : state -> list ProcessState -> state -> Prop :=
| history_start s : history id s [] s
| history_step s evs s1 r :
    history id s evs s1 ->
    history id s (evs ++ step_reports id r s1) (exec (run_step id r) s1)
| history_other s evs s1 s2 :
    history id s evs s1 ->
    run_at (objects s2 id) = run_at (objects s1 id) ->
    history id s evs s2.

(** The lives in a sequence of reports: a new life begins at every
    START_PENDING. *)
Fixpoint lives_from (life : list ProcessState) (evs : list ProcessState)
  : list (list ProcessState) :=
  match evs with
  | [] => match life with [] => [] | _ => [life] end
  | e :: evs' =>
      match e, life with
      | START_PENDING, _ :: _ => life :: lives_from [e] evs'
      | _, _ => lives_from (life ++ [e]) evs'
      end
  end.

Definition lives (evs : list ProcessState) : list (list ProcessState) :=
  lives_from [] evs.

Definition is_prefix_of (whole part : list ProcessState) : Prop :=
  exists rest, part ++ rest = whole.

(** Where a child is in its current life, as far as its reports tell. *)
Inductive phase := Idle | Pending | Running.

Definition phase_of (pc : run_pc) : phase :=
  match pc with
  | InSpawn => Pending
  | InDrain _ _ | InWait => Running
  | _ => Idle
  end.

Definition phase_step (q : phase) (e : ProcessState) : option phase :=
  match q, e with
  | Idle, START_PENDING => Some Pending
  | Pending, RUNNING => Some Running
  | Pending, STOPPED => Some Idle
  | Running, STOPPED => Some Idle
  | _, _ => None
  end.

Fixpoint phase_run (q : phase) (evs : list ProcessState) : option phase :=
  match evs with
  | [] => Some q
  | e :: evs' =>
      match phase_step q e with
      | Some q' => phase_run q' evs'
      | None => None
      end
  end.

(** The registered children that are not stopped, in the iteration order
    of the children map. *)
Definition running_children (s : state) : list nat :=
  filter (fun id => negb (stopped (objects s id)))
    (dict_values (_subprocesses s)).

(** The process ids of the registered children that are not stopped. *)
Definition running_pids (s : state) : list Z :=
  flat_map
    (fun id => match _process (objects s id) with
               | Some sub => [pid sub]
               | None => []
               end)
    (dict_values (_subprocesses s)).

(** A line of an env-file defines [k] as [v]: stripped, it does not begin
    with a hash sign and reads [k=v], split at its first equals sign. *)
Definition defines (line k v : string) : Prop :=
  starts_with_hash (strip line) = false
  /\ cut equals_sign (strip line) = (k, Some v).

(** The lives a child can be in the middle of, or have just completed. *)
Inductive life_so_far :=
| no_life | life_pending | life_running | life_complete | life_failed_spawn.

Definition reports_so_far (l : life_so_far) : list ProcessState :=
  match l with
  | no_life => []
  | life_pending => [START_PENDING]
  | life_running => [START_PENDING; RUNNING]
  | life_complete => [START_PENDING; RUNNING; STOPPED]
  | life_failed_spawn => [START_PENDING; STOPPED]
  end.

Definition phase_so_far (l : life_so_far) : phase :=
  match l with
  | life_pending => Pending
  | life_running => Running
  | _ => Idle
  end.

Definition ordered_life (life : list ProcessState) : Prop :=
  is_prefix_of [START_PENDING; RUNNING; STOPPED] life
  \/ life = [START_PENDING; STOPPED].

(** [c] occurs in [s]. *)
Fixpoint occurs (c : ascii) (s : string) : bool :=
  match s with
  | EmptyString => false
  | String c' s' => Ascii.eqb c' c || occurs c s'
  end.

(** What a line of an env-file binds, if anything. *)
Definition line_binding (line : string) : option (string * string) :=
  if starts_with_hash (strip line) then None
  else match cut equals_sign (strip line) with
       | (k, Some v) => Some (k, v)
       | (_, None) => None
       end.

Definition with_os_environ (e : dict string) (h : host) : host :=
  {| os_environ := e; file_text := file_text h;
     shutil_which := shutil_which h; Path_name := Path_name h |}.

Definition with_y_environment (e : option (dict string)) (y : yaml_task)
  : yaml_task :=
  {| y_name := y_name y; y_program := y_program y; y_cwd := y_cwd y;
     y_args := y_args y; y_restart := y_restart y;
     y_restart_backoff := y_restart_backoff y; y_tags := y_tags y;
     y_environment := e; y_start_delay := y_start_delay y;
     y_quit_on_terminate := y_quit_on_terminate y;
     y_env_file := y_env_file y |}.

(** ** Sample launches *)

Definition posix_world : os_world :=
  {| sys_platform := linux; job_process_ids := fun _ => None;
     EnumWindows_calls := []; EnumWindows_result := true;
     GetParent := fun _ => 0; message_only_windows := [];
     getpgid := fun p => Some p |}.

(** One process, 100, in job 1; it owns the top-level window 7. *)
Definition windows_world : os_world :=
  {| sys_platform := win32;
     job_process_ids := fun job => if job =? 1 then Some [100] else None;
     EnumWindows_calls := [(7, 100)]; EnumWindows_result := true;
     GetParent := fun _ => 0; message_only_windows := [];
     getpgid := fun _ => None |}.

Definition sample_task (nm : string) (delay : Z) (rs quit : bool)
  : DrekarTask :=
  {| name := nm; program := "/bin/prog"; cwd := "."; args := [];
     restart := rs; restart_backoff := 1000; tags := []; environment := [];
     start_delay := delay; quit_on_terminate := quit |}.

Definition sample_process (p : Z) : DrekarSubprocessImpl :=
  {| pid := p; _job_handle := 1 |}.

(** Nothing else runs while the group sleeps, and no sleep overshoots. *)
Definition quiet (round : nat) : tick := {| resumed := []; latency := 0 |}.

(** One task, started. *)
Definition one_started (delay : Z) : state :=
  exec (start_all ;; run_step 0 Go)
    (DrekarCore_init [sample_task "a" delay false false] posix_world).

(** One task whose process, 100, is running. *)
Definition one_running : state :=
  exec (run_step 0 (SpawnOk (sample_process 100))) (one_started 0).

(** One task, registered, its activity not yet entered. *)
Definition failed_spawn_start : state :=
  exec start_all
    (DrekarCore_init [sample_task "a" 0 false false] posix_world).

(** A group whose only child ignores every soft stop, just closed. *)
Definition stuck : state := exec stop_all one_running.

(** The same group once both pipes of the child have reached end of file:
    the activity awaits the exit of the process. *)
Definition exiting : state :=
  exec (run_step 0 (ReadDone (Some EmptyString) (Some EmptyString))) stuck.

(** A task with an env-file, loaded on a host whose own environment and
    the task's environment mapping define other variables. *)
Definition sample_env_text : string :=
  "PATH=/opt/bin
# KEY=commented

KEY=a=b
".

Definition sample_host : host :=
  {| os_environ := [("HOME", "/root"); ("PATH", "/usr/bin")]%string;
     file_text := fun p => if String.eqb p "app.env"
                           then Some sample_env_text else None;
     shutil_which := fun prog path => Some (path ++ "/" ++ prog)%string;
     Path_name := fun p => p |}.

Definition sample_yaml : yaml_task :=
  {| y_name := Some "srv"%string; y_program := Some "server"%string;
     y_cwd := None; y_args := Some (args_str "--port 80");
     y_restart := None; y_restart_backoff := None; y_tags := None;
     y_environment := Some [("X", "1")]%string;
     y_start_delay := None; y_quit_on_terminate := None;
     y_env_file := Some "app.env"%string |}.

Definition sample_loaded : DrekarTask :=
  {| name := "srv"; program := "/opt/bin/server"; cwd := ".";
     args := ["--port"; "80"]%string; restart := false;
     restart_backoff := 5000; tags := [];
     environment := [("PATH", "/opt/bin"); ("KEY", "a=b")]%string;
     start_delay := 0; quit_on_terminate := false |}.

(** The run of one child from its start to the exit of its process. *)
Definition whole_life (returncode : Z) : M unit :=
  start_all ;;
  run_step 0 Go ;;
  run_step 0 (SpawnOk (sample_process 100)) ;;
  run_step 0 (ReadDone (Some EmptyString) (Some EmptyString)) ;;
  run_step 0 (WaitDone returncode).

(** The main flow once the exit event is set: [stop_all], then
    [wait_all_stopped], then the exit status. *)
Definition shutdown (s : state) : option Z :=
  option_map get_exit_status (wait_all_stopped 152 quiet (exec stop_all s)).

(** ** Notions used in the further statements *)

(** One task with restart whose process has closed both pipes: the
    activity awaits the exit of the process. *)
Definition awaiting_exit : state :=
  exec (start_all ;; run_step 0 Go ;;
        run_step 0 (SpawnOk (sample_process 100)) ;;
        run_step 0 (ReadDone (Some EmptyString) (Some EmptyString)))
    (DrekarCore_init [sample_task "a" 0 true false] posix_world).

(** The registry of children is in order: names and objects are registered
    once, every registered object has been allocated and carries the task
    of the name it is registered under, and every task sits in the task
    table under its own name. *)
Definition registry_ok (s : state) : Prop :=
  NoDup (map fst (_subprocesses s))
  /\ NoDup (dict_values (_subprocesses s))
  /\ (forall nm id, In (nm, id) (_subprocesses s) ->
        (id < allocated s)%nat /\ name (task_launch (objects s id)) = nm)
  /\ (forall k t, In (k, t) (task_launches s) -> name t = k).

(** [s'] has the children of [s], less those deregistered, each with the
    task it had. *)
Definition same_children (s s' : state) : Prop :=
  (exists keep, _subprocesses s' = filter keep (_subprocesses s))
  /\ allocated s' = allocated s
  /\ task_launches s' = task_launches s
  /\ forall j, task_launch (objects s' j) = task_launch (objects s j).

(** The process of child 0 exits during the first sleep; nothing else
    happens. *)
Definition exits_at_once (round : nat) : tick :=
  {| resumed := if Nat.eqb round 0 then [(0%nat, WaitDone 0)] else [];
     latency := 0 |}.

(** The activity is between a successful spawn and the end of the life. *)
Definition in_flight (pc : run_pc) : bool :=
  match pc with
  | InDrain _ _ | InWait => true
  | _ => false
  end.

(** An effect that begins a life. *)
Definition starts_life (e : effect) : bool :=
  match e with
  | spawn _ _ => true
  | StateChanged _ START_PENDING => true
  | _ => false
  end.

(** The step ends a life: the process has exited, or something raised
    while a life was under way. *)
Definition ends_life (pc : run_pc) (r : resume) : bool :=
  match pc, r with
  | InWait, WaitDone _ => true
  | InSpawn, Raises _ | InDrain _ _, Raises _ | InWait, Raises _ => true
  | _, _ => false
  end.

(** Some line among [lines] returned by a read task is the end of file. *)
Definition saw_eof (lines : list (option string)) : bool :=
  existsb (fun l => match l with
                    | Some EmptyString => true
                    | _ => false
                    end) lines.

Definition stdout_of (r : resume) : option string :=
  match r with ReadDone out _ => out | _ => None end.

Definition stderr_of (r : resume) : option string :=
  match r with ReadDone _ err => err | _ => None end.

Definition is_read_done (r : resume) : bool :=
  match r with ReadDone _ _ => true | _ => false end.

(** The state after [_do_start], written out. *)
Definition state_after_start (t : DrekarTask) (s : state) : state :=
  with_subprocesses (dict_set (name t) (allocated s) (_subprocesses s))
    (with_objects
       (fun j => if Nat.eqb j (allocated s)
                 then DrekarProcess_init t else objects s j)
       (S (allocated s)) s).

(** Every task sits in the task table under its own name. *)
Definition table_ok (s : state) : Prop :=
  forall k t, In (k, t) (task_launches s) -> name t = k.

(** A child holds a process exactly while its activity is in flight. *)
Definition process_ok (p : DrekarProcess) : Prop :=
  stopped p = negb (in_flight (run_at p)).

(** Where the activity stands after the event loop hands it the lines its
    read tasks returned. *)
Definition after_read (pc : run_pc) (r : resume) : run_pc :=
  match pc, r with
  | InDrain out err, ReadDone out_line err_line =>
      if negb (read_task_after out out_line)
         && negb (read_task_after err err_line)
      then InWait
      else InDrain (read_task_after out out_line)
             (read_task_after err err_line)
  | _, _ => pc
  end.

(** The task of [sample_yaml] without its env-file. *)
Definition sample_yaml_plain : yaml_task :=
  {| y_name := Some "srv"%string; y_program := Some "server"%string;
     y_cwd := None; y_args := Some (args_str "--port 80");
     y_restart := None; y_restart_backoff := None; y_tags := None;
     y_environment := Some [("X", "1"); ("HOME", "/srv")]%string;
     y_start_delay := None; y_quit_on_terminate := None;
     y_env_file := None |}.

(** What [sample_yaml_plain] loads as on [sample_host]. *)
Definition sample_loaded_plain : DrekarTask :=
  {| name := "srv"; program := "/usr/bin/server"; cwd := ".";
     args := ["--port"; "80"]%string; restart := false;
     restart_backoff := 5000; tags := [];
     environment :=
       [("HOME", "/srv"); ("PATH", "/usr/bin"); ("X", "1")]%string;
     start_delay := 0; quit_on_terminate := false |}.

Definition sample_document : yaml_document :=
  {| doc_name := Some "demo"%string;
     doc_tasks := Some [sample_yaml; sample_yaml_plain] |}.

(** [s] begins with the character [c]. *)
Definition begins_with (c : ascii) (s : string) : bool :=
  match s with
  | String c' _ => Ascii.eqb c' c
  | EmptyString => false
  end.

(** [s] ends with the character [c]. *)
Fixpoint ends_with (c : ascii) (s : string) : bool :=
  match s with
  | EmptyString => false
  | String c' EmptyString => Ascii.eqb c' c
  | String _ s' => ends_with c s'
  end.

(** Some white-space character occurs in [s]. *)
Fixpoint has_space (s : string) : bool :=
  match s with
  | EmptyString => false
  | String c s' => isspace c || has_space s'
  end.

(** A word as [str.split()] delivers it. *)
Definition is_word (s : string) : Prop :=
  s <> EmptyString /\ has_space s = false.

(** The processes a soft stop of [p] may address: the child itself and
    the processes its job reports. *)
Definition job_member (w : os_world) (p : DrekarSubprocessImpl) (q : Z)
  : Prop :=
  exists pids, job_process_ids w (_job_handle p) = Some pids /\ In q pids.

(** A signal that a soft stop of [p] may send: an interrupt to the process
    group of the child, the close message to a window of a process of the
    job, or a console event for the child or for a process of the job. *)
Definition soft_signal (w : os_world) (p : DrekarSubprocessImpl)
  (e : effect) : Prop :=
  match e with
  | killpg pgid sig =>
      sys_platform w <> win32 /\ getpgid w (pid p) = Some pgid
      /\ sig = SIGINT
  | PostMessageW hWnd msg =>
      sys_platform w = win32 /\ msg = WM_CLOSE
      /\ exists q, job_member w p q
                   /\ (In (hWnd, q) (EnumWindows_calls w)
                       \/ In (hWnd, q) (message_only_windows w))
  | GenerateConsoleCtrlEvent ctrl_event q =>
      sys_platform w = win32 /\ ctrl_event = 0
      /\ (q = pid p \/ job_member w p q)
  | _ => False
  end.

(** * Properties *)

(** The record updates and the monad operations unfold under [cbn]. *)
Arguments close_guarded_with close id /.
Arguments stop_all_with close /.
Arguments with_closed b s /.
Arguments with_subprocesses d s /.
Arguments with_exit_event b s /.
Arguments with_objects f n s /.
Arguments with_now t s /.
Arguments with_trace tr s /.
Arguments update_object id f s /.
Arguments set_keep_going b p /.
Arguments set_process o p /.
Arguments set_term_attempts n p /.
Arguments set_exit_status n p /.
Arguments set_run_at pc p /.
Arguments ret {A} a s /.
Arguments bind {A B} m k s /.
Arguments raise {A} e s /.
Arguments try_except {A} m handler s /.
Arguments gets {A} f s /.
Arguments modify f s /.
Arguments emit e s /.
Arguments emit_all es s /.
Arguments object id s /.
Arguments modify_object id f s /.
Arguments when b m /.
Arguments exec {A} m s /.
Arguments dict_del : simpl never.

(** ** Dictionaries *)

Lemma dict_get_del_same {V} (k : string) (d : dict V) :
  dict_get k (dict_del k d) = None.
Proof.
  unfold dict_del.
  induction d as [|[k' v] d IH]; simpl; [reflexivity|].
  destruct (String.eqb k k') eqn:E; simpl; [exact IH|].
  rewrite E. exact IH.
Qed.

Lemma dict_in_del_same {V} (k : string) (d : dict V) :
  dict_in k (dict_del k d) = false.
Proof. unfold dict_in. now rewrite dict_get_del_same. Qed.

Lemma dict_get_set_same {V} (k : string) (v : V) (d : dict V) :
  dict_get k (dict_set k v d) = Some v.
Proof.
  induction d as [|[k' v'] d IH]; simpl.
  - now rewrite String.eqb_refl.
  - destruct (String.eqb k k') eqn:E; simpl.
    + now rewrite String.eqb_refl.
    + now rewrite E.
Qed.

Lemma dict_get_set_other {V} (k k0 : string) (v : V) (d : dict V) :
  k0 <> k -> dict_get k0 (dict_set k v d) = dict_get k0 d.
Proof.
  intros Hne. induction d as [|[k' v'] d IH]; simpl.
  - destruct (String.eqb k0 k) eqn:E; [|reflexivity].
    apply String.eqb_eq in E. contradiction.
  - destruct (String.eqb k k') eqn:E; simpl.
    + apply String.eqb_eq in E. subst k'.
      destruct (String.eqb k0 k) eqn:E'; [|reflexivity].
      apply String.eqb_eq in E'. contradiction.
    + now rewrite IH.
Qed.

(** ** The monad *)

Lemma exec_bind {A B} (m : M A) (k : A -> M B) (s : state) :
  exec (bind m k) s =
  match m s with
  | (Ok a, s') => exec (k a) s'
  | (Raise _, s') => s'
  end.
Proof. cbn. now destruct (m s) as [[a|e] s']. Qed.

(** A property of the state that every round of a loop keeps holds after
    the loop, whether it ends normally or by an exception. *)
Lemma for_each_keeps {A} (P : state -> Prop) (body : A -> M unit) :
  (forall x s, P s -> P (exec (body x) s)) ->
  forall l s, P s -> P (exec (for_each l body) s).
Proof.
  intros Hbody l. induction l as [|x l IH]; intros s Hs; [exact Hs|].
  specialize (Hbody x s Hs). specialize (IH (snd (body x s))).
  cbn in *. destruct (body x s) as [[[]|e] s']; cbn in *; auto.
Qed.

(** ** Exit-status aggregation *)

Lemma last_cons {A} (a d : A) (l : list A) : last (a :: l) d = last l a.
Proof.
  revert a d. induction l as [|b l IH]; intros a d; [reflexivity|].
  change (last (a :: b :: l) d) with (last (b :: l) d).
  now rewrite !IH.
Qed.

Lemma status_loop (st : nat -> Z) (ids : list nat) (acc : Z) :
  fold_left (fun status id => if negb (st id =? 0) then st id else status)
    ids acc
  = last (filter nonzero (map st ids)) acc.
Proof.
  revert acc. induction ids as [|id ids IH]; intros acc; [reflexivity|].
  simpl. rewrite IH. unfold nonzero at 2.
  destruct (negb (st id =? 0)); [now rewrite last_cons | reflexivity].
Qed.

Lemma get_exit_status_last (s : state) :
  get_exit_status s = last (filter nonzero (registered_statuses s)) 0.
Proof.
  unfold get_exit_status, registered_statuses.
  exact (status_loop (fun id => exit_status (objects s id)) _ 0).
Qed.

Lemma last_In {A} (l : list A) (d : A) : l <> [] -> In (last l d) l.
Proof.
  induction l as [|a l IH]; [congruence|]. intros _.
  destruct l as [|b l]; [now left|].
  right. apply IH. discriminate.
Qed.

Lemma filter_nonzero_nil (l : list Z) :
  filter nonzero l = [] <-> Forall (fun e => e = 0) l.
Proof.
  induction l as [|a l IH]; simpl.
  - split; [constructor | reflexivity].
  - unfold nonzero at 1. destruct (Z.eqb_spec a 0) as [E|E]; simpl.
    + rewrite IH. split; [now constructor | now inversion 1].
    + split; [discriminate | inversion 1; contradiction].
Qed.

(** C1. The aggregate exit status is the last non-zero status met when the
    children map is iterated in order, and 0 when there is none; hence it
    is 0 exactly when every registered child last recorded status 0. *)
Theorem get_exit_status_aggregate (s : state) :
  get_exit_status s = last (filter nonzero (registered_statuses s)) 0
  /\ (get_exit_status s = 0 <->
      Forall (fun e => e = 0) (registered_statuses s))
  /\ (forall before e after,
        registered_statuses s = before ++ e :: after ->
        e <> 0 -> Forall (fun x => x = 0) after ->
        get_exit_status s = e).
Proof.
  split; [apply get_exit_status_last|]. split.
  - rewrite get_exit_status_last, <- filter_nonzero_nil.
    destruct (filter nonzero (registered_statuses s)) as [|a l] eqn:E.
    + simpl. tauto.
    + split; [|discriminate]. intros H0. exfalso.
      assert (Hin : In (last (a :: l) 0) (filter nonzero (registered_statuses s))).
      { rewrite E. apply last_In. discriminate. }
      apply filter_In in Hin. destruct Hin as [_ Hnz].
      rewrite H0 in Hnz. discriminate.
  - intros before e after Heq Hne Hafter.
    rewrite get_exit_status_last, Heq, filter_app. simpl.
    apply filter_nonzero_nil in Hafter. rewrite Hafter.
    unfold nonzero at 2. destruct (Z.eqb_spec e 0) as [E0|_]; [contradiction|].
    simpl. rewrite last_last. reflexivity.
Qed.

(** ** What a step of a child's activity can touch *)

Lemma dict_del_absent {V} (k : string) (d : dict V) :
  dict_in k d = false -> dict_del k d = d.
Proof.
  unfold dict_in, dict_del.
  induction d as [|[k' v] d IH]; simpl; [reflexivity|].
  destruct (String.eqb k k') eqn:E; simpl; [discriminate|].
  intros H. now rewrite (IH H).
Qed.

Lemma ProcessState_eqb_eq (a b : ProcessState) :
  ProcessState_eqb a b = true <-> a = b.
Proof. destruct a, b; cbv; split; congruence. Qed.

(** [process_state_changed] always returns normally, in the state written
    out above. *)
Lemma process_state_changed_eq (nm : string) (st : ProcessState) (s : state) :
  process_state_changed nm st s = (Ok tt, state_after_report nm st s).
Proof.
  destruct s as [tl closed subs ev objs n w t tr].
  unfold process_state_changed, state_after_report; cbn.
  destruct closed; cbn; [|reflexivity].
  destruct (ProcessState_eqb st STOPPED); cbn; [|reflexivity].
  destruct (dict_in nm subs) eqn:E; cbn; [reflexivity|].
  now rewrite (dict_del_absent _ _ E).
Qed.

Arguments process_state_changed : simpl never.
Arguments state_after_report nm st s /.

Lemma skipn_length_app {A} (l x : list A) : skipn (List.length l) (l ++ x) = x.
Proof. induction l; simpl; auto. Qed.

(** Symbolic evaluation of a method on a state given by its fields. *)
Ltac step_norm :=
  cbn;
  repeat (first
    [ rewrite process_state_changed_eq | rewrite Nat.eqb_refl
    | rewrite <- app_assoc | rewrite skipn_length_app | rewrite skipn_all
    | match goal with
      | H : ?f ?i = Build_DrekarProcess _ _ _ _ _ _ |- _ => rewrite H
      end ]; cbn).

Ltac innermost x :=
  lazymatch x with
  | context [match _ with _ => _ end] => fail
  | context [if _ then _ else _] => fail
  | _ => idtac
  end.

Ltac eval_step :=
  step_norm;
  repeat (match goal with
          | |- context [if ?b then _ else _] => innermost b; destruct b eqn:?
          | |- context [match ?x with _ => _ end] =>
              innermost x; destruct x eqn:?
          end; step_norm).

Ltac same_object :=
  repeat match goal with
  | H : (_ =? _)%nat = true |- _ => apply Nat.eqb_eq in H; subst
  | H : (_ =? _)%nat = false |- _ => clear H
  end.

(** A loop whose rounds all return normally returns normally. *)
Lemma for_each_ok {A} (body : A -> M unit) :
  (forall x s, fst (body x s) = Ok tt) ->
  forall l s, fst (for_each l body s) = Ok tt.
Proof.
  intros Hbody l. induction l as [|x l IH]; intros s; [reflexivity|].
  cbn. specialize (Hbody x s).
  destruct (body x s) as [[[]|e] s']; cbn in *; [apply IH | discriminate].
Qed.

Lemma close_guarded_ok (id : nat) (s : state) :
  fst (close_guarded id s) = Ok tt.
Proof.
  destruct s as [tl closed subs ev objs n w t tr].
  unfold close_guarded, close, do_send_term. eval_step; reflexivity.
Qed.

(** [close] behind its guard touches neither the flag nor the clock nor the
    children map, and only extends the trace. *)
Lemma close_guarded_frame (id : nat) (s : state) :
  _closed (exec (close_guarded id) s) = _closed s
  /\ now (exec (close_guarded id) s) = now s
  /\ _subprocesses (exec (close_guarded id) s) = _subprocesses s
  /\ allocated (exec (close_guarded id) s) = allocated s
  /\ os (exec (close_guarded id) s) = os s
  /\ exists more, trace (exec (close_guarded id) s) = trace s ++ more.
Proof.
  destruct s as [tl closed subs ev objs n w t tr].
  unfold close_guarded, close, do_send_term.
  eval_step; repeat split; eexists; reflexivity.
Qed.


Lemma get_exit_status_ext (s1 s2 : state) :
  _subprocesses s1 = _subprocesses s2 ->
  (forall j, In j (dict_values (_subprocesses s1)) ->
             exit_status (objects s1 j) = exit_status (objects s2 j)) ->
  get_exit_status s1 = get_exit_status s2.
Proof.
  intros Hsubs Hobj. rewrite !get_exit_status_last. f_equal. f_equal.
  unfold registered_statuses. rewrite <- Hsubs. now apply map_ext_in.
Qed.

Lemma dict_del_values {V} (k : string) (v : V) (d : dict V) :
  In v (dict_values (dict_del k d)) ->
  exists k', k' <> k /\ In (k', v) d.
Proof.
  unfold dict_values, dict_del. intros Hin.
  apply in_map_iff in Hin. destruct Hin as [[k' v'] [Hv Hin]].
  simpl in Hv. subst v'. apply filter_In in Hin. destruct Hin as [Hin Hk].
  exists k'. split; [|exact Hin].
  simpl in Hk. intros ->. now rewrite String.eqb_refl in Hk.
Qed.

(** ** Deregistration during shutdown *)

Lemma run_step_other_objects (id j : nat) (r : resume) (s : state) :
  j <> id -> objects (exec (run_step id r) s) j = objects s j.
Proof.
  intros Hne. destruct s as [tl closed subs ev objs n w t tr].
  unfold run_step, on_exception, after_life, loop_head.
  eval_step; same_object; congruence.
Qed.

Lemma wait_done_deregisters (id : nat) (rc : Z) (s : state) :
  _closed s = true -> run_at (objects s id) = InWait ->
  _subprocesses (exec (run_step id (WaitDone rc)) s)
  = dict_del (name (task_launch (objects s id))) (_subprocesses s).
Proof.
  destruct s as [tl closed subs ev objs n w t tr]. cbn. intros -> Hpc.
  unfold run_step, after_life, loop_head. cbn. rewrite Hpc.
  eval_step; reflexivity.
Qed.

(** C2. When the group is closed, a STOPPED report deregisters the child's
    name; the child's object is then outside the children map, and
    whatever exit status it holds does not reach the aggregate.  So when
    the activity of a child learns, during shutdown, that its process has
    exited, the aggregate afterwards is the same for every return code. *)
Theorem stopped_report_when_closed (s : state) (nm : string) (id : nat) :
  _closed s = true ->
  (forall nm', In (nm', id) (_subprocesses s) -> nm' = nm) ->
  let s' := exec (process_state_changed nm STOPPED) s in
  _subprocesses s' = dict_del nm (_subprocesses s)
  /\ dict_in nm (_subprocesses s') = false
  /\ ~ In id (dict_values (_subprocesses s'))
  /\ (forall e,
       get_exit_status (update_object id (set_exit_status e) s')
       = get_exit_status s')
  /\ (name (task_launch (objects s id)) = nm ->
      run_at (objects s id) = InWait ->
      forall returncode returncode',
        get_exit_status (exec (run_step id (WaitDone returncode)) s)
        = get_exit_status (exec (run_step id (WaitDone returncode')) s)).
Proof.
  intros Hclosed Hname s'.
  assert (Hsubs : _subprocesses s' = dict_del nm (_subprocesses s)).
  { subst s'. cbn. rewrite process_state_changed_eq. cbn.
    now rewrite Hclosed. }
  assert (Hout : ~ In id (dict_values (_subprocesses s'))).
  { rewrite Hsubs. intros Hin. apply dict_del_values in Hin.
    destruct Hin as [nm' [Hne Hin]]. apply Hne. now apply Hname. }
  split; [exact Hsubs|]. split; [rewrite Hsubs; apply dict_in_del_same|].
  split; [exact Hout|]. split.
  - intros e. apply get_exit_status_ext; [reflexivity|].
    cbn. intros j Hj. destruct (Nat.eqb_spec j id) as [->|_]; [|reflexivity].
    contradiction.
  - intros Hnm Hpc rc rc'.
    pose proof (wait_done_deregisters id rc s Hclosed Hpc) as H1.
    pose proof (wait_done_deregisters id rc' s Hclosed Hpc) as H2.
    rewrite Hnm in H1, H2.
    apply get_exit_status_ext; [congruence|].
    intros j Hj. rewrite H1, <- Hsubs in Hj.
    assert (Hne : j <> id) by (intros ->; contradiction).
    now rewrite !run_step_other_objects.
Qed.

Lemma stopped_report_when_closed_witness :
  let s := exiting in
  let s' := exec (process_state_changed "a" STOPPED) s in
  _subprocesses s' = dict_del "a" (_subprocesses s)
  /\ dict_in "a" (_subprocesses s') = false
  /\ ~ In 0%nat (dict_values (_subprocesses s'))
  /\ (forall e,
       get_exit_status (update_object 0 (set_exit_status e) s')
       = get_exit_status s')
  /\ (name (task_launch (objects s 0)) = "a"%string ->
      run_at (objects s 0) = InWait ->
      forall returncode returncode',
        get_exit_status (exec (run_step 0 (WaitDone returncode)) s)
        = get_exit_status (exec (run_step 0 (WaitDone returncode')) s)).
Proof.
  apply (stopped_report_when_closed exiting "a" 0).
  - reflexivity.
  - intros nm' [H|[]]. now inversion H.
Defined.

(** ** [stop_all] *)

Lemma close_guarded_call (id : nat) (s : state) :
  (exists more,
     trace (exec (close_guarded id) s)
     = trace s ++ close_called (name (task_launch (objects s id))) :: more)
  /\ forall j, task_launch (objects (exec (close_guarded id) s) j)
              = task_launch (objects s j).
Proof.
  destruct s as [tl closed subs ev objs n w t tr].
  unfold close_guarded, close, do_send_term.
  eval_step; (split; [eexists; reflexivity|]); intros j;
    destruct (Nat.eqb_spec j id) as [->|_]; reflexivity.
Qed.

(** The loop of [stop_all] calls [close] on every child it iterates. *)
Lemma close_loop_calls (ids : list nat) :
  forall s, exists more,
    trace (exec (for_each ids close_guarded) s) = trace s ++ more
    /\ forall id, In id ids ->
         In (close_called (name (task_launch (objects s id)))) more.
Proof.
  induction ids as [|x ids IH]; intros s.
  - exists []. cbn. rewrite app_nil_r. split; [reflexivity | intros ? []].
  - pose proof (close_guarded_ok x s) as Hok.
    destruct (close_guarded_call x s) as [[m1 H1] Htask].
    cbn [for_each]. rewrite exec_bind.
    unfold exec in H1, Htask.
    destruct (close_guarded x s) as [[[]|e] s1]; [|discriminate].
    cbn [snd] in H1, Htask.
    destruct (IH s1) as (m2 & H2 & Hin).
    exists ((close_called (name (task_launch (objects s x))) :: m1) ++ m2).
    split; [rewrite H2, H1; now rewrite <- app_assoc|].
    intros id [->|Hid]; [now left|].
    apply in_or_app. right. rewrite <- Htask. now apply Hin.
Qed.

Lemma close_loop_frame (ids : list nat) (s : state) :
  fst (for_each ids close_guarded s) = Ok tt
  /\ _closed (exec (for_each ids close_guarded) s) = _closed s
  /\ exists more, trace (exec (for_each ids close_guarded) s) = trace s ++ more.
Proof.
  split; [apply for_each_ok; apply close_guarded_ok|].
  split.
  - apply (for_each_keeps (fun s' => _closed s' = _closed s)); [|reflexivity].
    intros x s0 H0. destruct (close_guarded_frame x s0) as [Hc _]. congruence.
  - apply (for_each_keeps (fun s' => exists more, trace s' = trace s ++ more)).
    + intros x s0 [more H0].
      destruct (close_guarded_frame x s0) as (_ & _ & _ & _ & _ & [more' H1]).
      exists (more ++ more'). rewrite H1, H0. now rewrite app_assoc.
    + exists []. now rewrite app_nil_r.
Qed.

Lemma for_each_cons {A} (body : A -> M unit) (x : A) (l : list A)
  (s : state) :
  for_each (x :: l) body s
  = match body x s with
    | (Ok _, s') => for_each l body s'
    | (Raise e, s') => (Raise e, s')
    end.
Proof. reflexivity. Qed.

(** The loop of [stop_all] started in a closed group runs the close
    method in closed states only. *)
Lemma close_loop_closed_only (c c' : nat -> M unit) :
  (forall id s0, _closed s0 = true -> c id s0 = c' id s0) ->
  (forall id s0, _closed s0 = true -> _closed (exec (c id) s0) = true) ->
  forall ids s0,
    _closed s0 = true ->
    for_each ids (close_guarded_with c) s0
    = for_each ids (close_guarded_with c') s0.
Proof.
  intros Hsame Hkeeps ids.
  induction ids as [|id ids IH]; intros s0 H0; [reflexivity|].
  assert (Hhead : close_guarded_with c id s0 = close_guarded_with c' id s0).
  { destruct s0 as [tl closed subs ev objs n w t tr]. cbn in *.
    now rewrite Hsame. }
  assert (Hnext : _closed (exec (close_guarded_with c id) s0) = true).
  { destruct s0 as [tl closed subs ev objs n w t tr]. cbn in *.
    match goal with |- context [c id ?s1] =>
      specialize (Hkeeps id s1 H0); unfold exec in Hkeeps;
      destruct (c id s1) as [[[]|e] s2] end; exact Hkeeps. }
  rewrite !for_each_cons, <- Hhead. unfold exec in Hnext.
  destruct (close_guarded_with c id s0) as [[[]|e] s1]; [|reflexivity].
  now apply IH.
Qed.

Lemma close_keeps_closed (id : nat) (s : state) :
  _closed (exec (close id) s) = _closed s.
Proof.
  destruct s as [tl closed subs ev objs n w t tr].
  unfold close, do_send_term. eval_step; reflexivity.
Qed.

(** C8. [stop_all] returns normally and leaves the group closed.  On an
    open group the closed flag is set before [close] is called on any
    child: everything [stop_all] emits follows the assignment to the flag,
    the call of [close] on every registered child and the soft stops these
    calls forward; and every call of [close] is made from a state in which
    the flag is set, so that what [stop_all] does depends on the [close]
    method only through what that method does in a closed group, and a
    check of the flag at the head of [close] never fails.  On a closed
    group [stop_all] returns at once with the state untouched, so a second
    call changes nothing. *)
Theorem stop_all_closes_first (s : state) :
  fst (stop_all s) = Ok tt
  /\ _closed (exec stop_all s) = true
  /\ (_closed s = false ->
      exists soft_stops,
        trace (exec stop_all s) = trace s ++ closed_assigned :: soft_stops
        /\ forall id, In id (dict_values (_subprocesses s)) ->
             In (close_called (name (task_launch (objects s id)))) soft_stops)
  /\ (_closed s = true -> stop_all s = (Ok tt, s))
  /\ stop_all (exec stop_all s) = (Ok tt, exec stop_all s)
  /\ (forall c c' : nat -> M unit,
        _closed s = false ->
        (forall id s0, _closed s0 = true -> c id s0 = c' id s0) ->
        (forall id s0, _closed s0 = true ->
                       _closed (exec (c id) s0) = true) ->
        stop_all_with c s = stop_all_with c' s)
  /\ stop_all_with close_checked s = stop_all s.
Proof.
  assert (Hclosed : forall s0, _closed s0 = true -> stop_all s0 = (Ok tt, s0)).
  { intros s0 H0. unfold stop_all, stop_all_with; fold close_guarded. cbn.
    now rewrite H0. }
  assert (Hopen : _closed s = false ->
    fst (stop_all s) = Ok tt /\ _closed (exec stop_all s) = true /\
    exists soft_stops,
      trace (exec stop_all s) = trace s ++ closed_assigned :: soft_stops
      /\ forall id, In id (dict_values (_subprocesses s)) ->
           In (close_called (name (task_launch (objects s id)))) soft_stops).
  { intros H0. unfold stop_all, stop_all_with; fold close_guarded. cbn.
    rewrite H0. cbn.
    match goal with |- context [for_each ?ids close_guarded ?s0] =>
      destruct (close_loop_frame ids s0) as (Hok & Hc & _);
      destruct (close_loop_calls ids s0) as (more & Htr & Hcalls) end.
    cbn in *. split; [exact Hok|]. split; [exact Hc|].
    exists more. split; [rewrite Htr; now rewrite <- app_assoc | exact Hcalls]. }
  assert (Hwith : forall c c' : nat -> M unit,
            _closed s = false ->
            (forall id s0, _closed s0 = true -> c id s0 = c' id s0) ->
            (forall id s0, _closed s0 = true ->
                           _closed (exec (c id) s0) = true) ->
            stop_all_with c s = stop_all_with c' s).
  { intros c c' H0 Hsame Hkeeps. unfold stop_all_with. cbn. rewrite H0.
    cbn. apply (close_loop_closed_only c c' Hsame Hkeeps). reflexivity. }
  assert (Hchecked : stop_all_with close_checked s = stop_all s).
  { destruct (_closed s) eqn:E.
    - rewrite (Hclosed s E). unfold stop_all_with. cbn. now rewrite E.
    - unfold stop_all. apply Hwith; [reflexivity | |].
      + intros id s0 H0. unfold close_checked, bind, gets.
        now rewrite H0.
      + intros id s0 H0. unfold close_checked, bind, gets, exec.
        rewrite H0. pose proof (close_keeps_closed id s0) as K.
        unfold exec in K. now rewrite K. }
  assert (Hfirst :
    fst (stop_all s) = Ok tt
    /\ _closed (exec stop_all s) = true
    /\ (_closed s = false ->
        exists soft_stops,
          trace (exec stop_all s) = trace s ++ closed_assigned :: soft_stops
          /\ forall id, In id (dict_values (_subprocesses s)) ->
               In (close_called (name (task_launch (objects s id))))
                 soft_stops)
    /\ (_closed s = true -> stop_all s = (Ok tt, s))
    /\ stop_all (exec stop_all s) = (Ok tt, exec stop_all s)).
  { clear Hwith Hchecked. destruct (_closed s) eqn:E.
    - unfold exec. rewrite (Hclosed s E). simpl fst; simpl snd.
      repeat split; auto; try discriminate.
    - destruct (Hopen eq_refl) as (Hok & Hc & Htr).
      repeat split; auto; try discriminate. }
  destruct Hfirst as (H1 & H2 & H3 & H4 & H5).
  exact (conj H1 (conj H2 (conj H3 (conj H4 (conj H5
           (conj Hwith Hchecked)))))).
Qed.

(** ** Starting after the group is closed *)

Lemma start_fails_when_closed (s : state) (nm : string) :
  _closed s = true ->
  start nm s = (Raise (AssertionError "Already closed"), s).
Proof. intros H. unfold start. cbn. now rewrite H. Qed.

(** C6. After [stop_all], [start] is refused, but [start_all] still
    registers a child supervisor and creates its activity: the guard that
    [start] has is missing there. *)
Theorem start_all_after_stop_all :
  let closed_group :=
    exec stop_all
      (DrekarCore_init [sample_task "a" 0 false false] posix_world) in
  let s := exec start_all closed_group in
  _closed closed_group = true
  /\ _subprocesses closed_group = []
  /\ fst (start "a" closed_group) = Raise (AssertionError "Already closed")
  /\ fst (start_all closed_group) = Ok tt
  /\ _closed s = true
  /\ dict_get "a" (_subprocesses s) = Some 0%nat
  /\ allocated s = 1%nat
  /\ run_at (objects s 0) = Created.
Proof. cbv. repeat split; reflexivity. Qed.

(** ** Soft termination on Windows *)

(** C5 (as amended).  On win32, an attempt above 3 generates one console
    control event for the child's process and nothing else.  An attempt up
    to 3 queries the job: nothing is signalled when the query fails or the
    job is empty; otherwise the window-close message is posted to the
    windows the search selects (the top-level windows it finds, else the
    message-only windows of the job's processes), and after that a console
    control event is generated for every process of the job. *)
Theorem win32_send_term_signals (w : os_world) (p : DrekarSubprocessImpl)
  (attempt : Z) :
  sys_platform w = win32 ->
  (attempt > 3 ->
   send_term w p attempt = (Ok tt, [GenerateConsoleCtrlEvent 0 (pid p)]))
  /\ (attempt <= 3 -> job_process_ids w (_job_handle p) = None ->
      send_term w p attempt = (Ok tt, []))
  /\ (attempt <= 3 -> job_process_ids w (_job_handle p) = Some [] ->
      send_term w p attempt = (Raise IndexError, []))
  /\ (forall pids main,
        attempt <= 3 ->
        job_process_ids w (_job_handle p) = Some pids ->
        _win32_find_main_hwnds w (pid_list pids) = Ok main ->
        send_term w p attempt
        = (Ok tt,
           map (fun hWnd => PostMessageW hWnd WM_CLOSE)
             (match main with
              | [] => _win32_find_message_hwnds w (pid_list pids)
              | _ => main
              end)
           ++ map (GenerateConsoleCtrlEvent 0) pids)).
Proof.
  intros Hw. unfold send_term. rewrite Hw. repeat split.
  - intros Hgt. apply Z.gtb_gt in Hgt. now rewrite Hgt.
  - intros Hle Hjob. destruct (Z.gtb_spec attempt 3); [lia|].
    unfold win32_send_job_wm_close. now rewrite Hjob.
  - intros Hle Hjob. destruct (Z.gtb_spec attempt 3); [lia|].
    unfold win32_send_job_wm_close. now rewrite Hjob.
  - intros pids main Hle Hjob Hmain. destruct (Z.gtb_spec attempt 3); [lia|].
    unfold win32_send_job_wm_close, win32_send_pid_wm_close,
      _win32_send_wm_close_hwnd_message, _win32_send_ctrl_c_event.
    rewrite Hjob, Hmain. reflexivity.
Qed.

Lemma win32_send_term_signals_witness :
  send_term windows_world (sample_process 100) 0
  = (Ok tt, [PostMessageW 7 WM_CLOSE; GenerateConsoleCtrlEvent 0 100]).
Proof.
  destruct (win32_send_term_signals windows_world (sample_process 100) 0
              eq_refl) as (_ & _ & _ & H).
  apply (H [100] [7]); [lia | reflexivity | reflexivity].
Defined.

(** C5, as stated, fails: the first attempt already generates a console
    control event besides the window-close message. *)
Lemma console_event_on_first_attempt :
  sys_platform windows_world = win32
  /\ 0 <= 3
  /\ In (GenerateConsoleCtrlEvent 0 100)
       (snd (send_term windows_world (sample_process 100) 0)).
Proof. split; [reflexivity|]. split; [lia|]. cbv. auto. Qed.

(** ** Escalation of soft stops *)

Lemma run_step_attempts (id id' : nat) (r : resume) (s : state) :
  _term_attempts (objects (exec (run_step id' r) s) id)
  = _term_attempts (objects s id).
Proof.
  destruct s as [tl closed subs ev objs n w t tr].
  unfold run_step, on_exception, after_life, loop_head.
  eval_step; same_object; try reflexivity;
    repeat match goal with H : _ = Build_DrekarProcess _ _ _ _ _ _ |- _ =>
      rewrite H end; reflexivity.
Qed.

Lemma kill_attempts (id id' : nat) (s : state) :
  _term_attempts (objects (exec (kill id') s) id)
  = _term_attempts (objects s id).
Proof.
  destruct s as [tl closed subs ev objs n w t tr].
  unfold kill. eval_step; reflexivity.
Qed.

Lemma close_guarded_attempts (id id' : nat) (s : state) :
  _term_attempts (objects s id)
  <= _term_attempts (objects (exec (close_guarded id') s) id).
Proof.
  destruct s as [tl closed subs ev objs n w t tr].
  unfold close_guarded, close, do_send_term.
  eval_step; same_object; lia.
Qed.

(** The attempt counter of a child never goes down while the group sleeps,
    re-sends soft stops or kills. *)
Lemma asyncio_sleep_attempts (id : nat) (ms : Z) (tk : tick) (s : state) :
  _term_attempts (objects s id)
  <= _term_attempts (objects (exec (asyncio_sleep ms tk) s) id).
Proof.
  unfold asyncio_sleep. rewrite exec_bind.
  pose proof (for_each_keeps
    (fun s' => _term_attempts (objects s id) <= _term_attempts (objects s' id))
    (fun ir => run_step (fst ir) (snd ir))) as K.
  specialize (K (fun x s0 H0 =>
    eq_ind_r (fun z => _ <= z) H0 (run_step_attempts id (fst x) (snd x) s0))).
  specialize (K (resumed tk) s (Z.le_refl _)). cbn in K.
  destruct (for_each (resumed tk) _ s) as [[[]|e] s']; cbn in *; exact K.
Qed.

Lemma close_running_attempts (id : nat) (s : state) :
  _term_attempts (objects s id)
  <= _term_attempts (objects (exec close_running s) id).
Proof.
  unfold close_running. rewrite exec_bind. cbn [gets].
  apply (for_each_keeps
    (fun s' => _term_attempts (objects s id) <= _term_attempts (objects s' id)));
    [|lia].
  intros x s0 H0. rewrite exec_bind. cbn [object gets].
  destruct (negb (stopped (objects s0 x))); [|exact H0].
  etransitivity; [exact H0 | apply close_guarded_attempts].
Qed.

Lemma kill_phase_attempts (id : nat) (s : state) :
  _term_attempts (objects (exec kill_phase s) id)
  = _term_attempts (objects s id).
Proof.
  unfold kill_phase. rewrite exec_bind. cbn [gets]. rewrite exec_bind.
  cbn [gets]. rewrite exec_bind.
  pose proof (for_each_keeps
    (fun s' => _term_attempts (objects s' id) = _term_attempts (objects s id))
    (fun id0 => p <- object id0 ;; when (negb (stopped p)) (kill id0))) as K.
  assert (Hbody : forall x s0,
    _term_attempts (objects s0 id) = _term_attempts (objects s id) ->
    _term_attempts
      (objects (exec (p <- object x ;; when (negb (stopped p)) (kill x)) s0) id)
    = _term_attempts (objects s id)).
  { intros x s0 H0. rewrite exec_bind. cbn [object gets].
    destruct (negb (stopped (objects s0 x))); [|exact H0].
    cbn [when]. now rewrite kill_attempts. }
  specialize (K Hbody (dict_values (_subprocesses s)) s eq_refl).
  cbn in K.
  destruct (for_each (dict_values (_subprocesses s)) _ s) as [[[]|e] s'];
    cbn in *; [|exact K].
  destruct (negb (Nat.eqb (count_running s) 0)); cbn; exact K.
Qed.

Lemma polling_attempts (id : nat) (ticks : nat -> tick) (t1 : Z) :
  forall fuel round t_last s s1,
    polling fuel ticks round t1 t_last s = Some s1 ->
    _term_attempts (objects s id) <= _term_attempts (objects s1 id).
Proof.
  induction fuel as [|fuel IH]; intros round t_last s s1; [discriminate|].
  cbn [polling].
  destruct (now s - t1 >? 15000); [intros [= <-]; lia|].
  destruct (Nat.eqb (count_running s) 0); [intros [= <-]; lia|].
  pose proof (asyncio_sleep_attempts id 100 (ticks round) s) as Hsleep.
  destruct (now s - t1 >? t_last + 1000); intros H; apply IH in H.
  - pose proof (close_running_attempts id
                  (exec (asyncio_sleep 100 (ticks round)) s)). lia.
  - lia.
Qed.

(** C7 (as amended).  [close] always clears the keep-going flag.  Without a
    process it sends nothing and leaves the counter alone.  With a process
    it forwards a soft stop carrying the current counter and, when the
    forward returns normally, adds one to the counter.  Nothing in the
    shutdown ever lowers the counter: not the activities, not [kill], not
    [stop_all], not [wait_all_stopped]. *)
Theorem close_escalates (s : state) (id : nat) :
  let p := objects s id in
  let s' := exec (close id) s in
  _keep_going (objects s' id) = false
  /\ (_process p = None ->
      trace s' = trace s
      /\ _term_attempts (objects s' id) = _term_attempts p)
  /\ (forall sub, _process p = Some sub ->
      trace s' = trace s ++ snd (send_term (os s) sub (_term_attempts p))
      /\ (fst (send_term (os s) sub (_term_attempts p)) = Ok tt ->
          _term_attempts (objects s' id) = _term_attempts p + 1))
  /\ _term_attempts p <= _term_attempts (objects s' id)
  /\ (forall id' r,
        _term_attempts (objects (exec (run_step id' r) s) id)
        = _term_attempts p)
  /\ (forall id',
        _term_attempts (objects (exec (kill id') s) id) = _term_attempts p)
  /\ _term_attempts p <= _term_attempts (objects (exec stop_all s) id)
  /\ (forall fuel ticks s2,
        wait_all_stopped fuel ticks s = Some s2 ->
        _term_attempts p <= _term_attempts (objects s2 id)).
Proof.
  cbv zeta. repeat apply conj.
  - destruct s as [tl closed subs ev objs n w t tr].
    unfold close, do_send_term. eval_step; reflexivity.
  - destruct s as [tl closed subs ev objs n w t tr]. cbn. intros Hp.
    unfold close. cbn. rewrite Nat.eqb_refl. cbn. rewrite Hp. cbn.
    rewrite Nat.eqb_refl. now split.
  - destruct s as [tl closed subs ev objs n w t tr]. cbn. intros sub Hp.
    unfold close, do_send_term. cbn. rewrite Nat.eqb_refl. cbn. rewrite Hp.
    cbn. destruct (send_term w sub (_term_attempts (objs id))) as [[[]|e] es];
      cbn; rewrite ?Nat.eqb_refl; cbn; split; try reflexivity; discriminate.
  - destruct s as [tl closed subs ev objs n w t tr].
    unfold close, do_send_term. eval_step; lia.
  - intros id' r. apply run_step_attempts.
  - intros id'. apply kill_attempts.
  - unfold stop_all, stop_all_with; fold close_guarded. rewrite exec_bind. cbn [gets].
    destruct (_closed s); [cbn; lia|].
    apply (for_each_keeps
      (fun s' => _term_attempts (objects s id) <= _term_attempts (objects s' id))).
    + intros x s0 H0. etransitivity; [exact H0|apply close_guarded_attempts].
    + cbn. lia.
  - intros fuel ticks s2. unfold wait_all_stopped.
    destruct (polling fuel ticks 0 (now s) 0 s) as [s1|] eqn:E; [|discriminate].
    intros [= <-].
    pose proof (polling_attempts id ticks (now s) fuel 0%nat 0 s s1 E) as P.
    pose proof (kill_phase_attempts id s1) as K. cbn [exec] in *. lia.
Qed.

(** C7, as stated, fails: a child that holds no process (here one still in
    its start delay) is closed without any soft stop being forwarded and
    without the counter moving. *)
Lemma close_without_process :
  let s := one_started 500 in
  _process (objects s 0) = None
  /\ trace (exec (close 0) s) = trace s
  /\ _term_attempts (objects (exec (close 0) s) 0)
     = _term_attempts (objects s 0).
Proof. cbv. repeat split; reflexivity. Qed.

(** ** Order of the state reports of one child *)

(** A step of the activity moves the phase exactly as its reports say. *)
Lemma step_phase (id : nat) (r : resume) (s : state) :
  phase_run (phase_of (run_at (objects s id))) (step_reports id r s)
  = Some (phase_of (run_at (objects (exec (run_step id r) s) id))).
Proof.
  destruct s as [tl closed subs ev objs n w t tr].
  unfold step_reports, step_effects, run_step, on_exception, after_life,
    loop_head. cbn.
  destruct (objs id) as [task kg proc att est pc] eqn:Eo.
  destruct pc, r; eval_step; reflexivity.
Qed.

Lemma phase_run_app (q : phase) (a b : list ProcessState) :
  phase_run q (a ++ b)
  = match phase_run q a with
    | Some q' => phase_run q' b
    | None => None
    end.
Proof.
  revert q. induction a as [|e a IH]; intros q; [reflexivity|].
  simpl. destruct (phase_step q e); [apply IH | reflexivity].
Qed.

Lemma history_phase (id : nat) (s s' : state) (evs : list ProcessState) :
  history id s evs s' ->
  phase_run (phase_of (run_at (objects s id))) evs
  = Some (phase_of (run_at (objects s' id))).
Proof.
  induction 1 as [s | s evs s1 r H IH | s evs s1 s2 H IH Hpc].
  - reflexivity.
  - rewrite phase_run_app, IH. apply step_phase.
  - now rewrite Hpc.
Qed.

Lemma reports_so_far_ordered (l : life_so_far) :
  ordered_life (reports_so_far l).
Proof.
  destruct l; [left; eexists | left; eexists | left; eexists | left; exists []
              | right]; reflexivity.
Qed.

Lemma lives_from_ordered (evs : list ProcessState) :
  forall l q, phase_run (phase_so_far l) evs = Some q ->
    Forall ordered_life (lives_from (reports_so_far l) evs).
Proof.
  induction evs as [|e evs IH]; intros l q H.
  - simpl. pose proof (reports_so_far_ordered l).
    destruct l; simpl; auto.
  - destruct l, e; simpl in H; try discriminate; simpl.
    + exact (IH life_pending q H).
    + exact (IH life_failed_spawn q H).
    + exact (IH life_running q H).
    + exact (IH life_complete q H).
    + constructor; [exact (reports_so_far_ordered life_complete)|].
      exact (IH life_pending q H).
    + constructor; [exact (reports_so_far_ordered life_failed_spawn)|].
      exact (IH life_pending q H).
Qed.

(** C4 (as amended).  Of a child that starts from its creation, every life
    reports a prefix of START_PENDING, RUNNING, STOPPED, or else
    START_PENDING, STOPPED; and in the step that answers the spawn, RUNNING
    is reported when the spawn succeeds and STOPPED comes first when it
    raises. *)
Theorem lives_are_ordered (id : nat) (s s' : state)
  (evs : list ProcessState) :
  run_at (objects s id) = Created ->
  history id s evs s' ->
  Forall ordered_life (lives evs)
  /\ (forall s1 sub, run_at (objects s1 id) = InSpawn ->
        step_reports id (SpawnOk sub) s1 = [RUNNING])
  /\ (forall s1 e, run_at (objects s1 id) = InSpawn ->
        hd_error (step_reports id (Raises e) s1) = Some STOPPED).
Proof.
  intros Hpc Hh. repeat apply conj.
  - apply history_phase in Hh. rewrite Hpc in Hh.
    exact (lives_from_ordered evs no_life _ Hh).
  - intros s1 sub H1. destruct s1 as [tl closed subs ev objs n w t tr].
    unfold step_reports, step_effects, run_step. cbn in *. rewrite H1.
    eval_step; reflexivity.
  - intros s1 e H1. destruct s1 as [tl closed subs ev objs n w t tr].
    unfold step_reports, step_effects, run_step, on_exception, after_life,
      loop_head. cbn in *. rewrite H1.
    eval_step; reflexivity.
Qed.

Lemma failed_spawn_history :
  history 0 failed_spawn_start [START_PENDING; STOPPED]
    (exec (run_step 0 (Raises FileNotFoundError))
       (exec (run_step 0 Go) failed_spawn_start)).
Proof.
  exact (history_step 0 _ _ _ (Raises FileNotFoundError)
           (history_step 0 _ _ _ Go (history_start 0 failed_spawn_start))).
Qed.

Lemma lives_are_ordered_witness :
  Forall ordered_life (lives [START_PENDING; STOPPED]).
Proof.
  exact (proj1 (lives_are_ordered 0 failed_spawn_start _ _ eq_refl
                  failed_spawn_history)).
Defined.

(** C4, as stated, fails: in the life whose spawn raises, STOPPED follows
    START_PENDING directly. *)
Lemma spawn_failure_skips_running :
  ~ (forall id s s' evs,
       run_at (objects s id) = Created ->
       history id s evs s' ->
       Forall (is_prefix_of [START_PENDING; RUNNING; STOPPED]) (lives evs)).
Proof.
  intros H.
  specialize (H 0%nat failed_spawn_start _ _ eq_refl failed_spawn_history).
  cbv in H. inversion H as [|life rest [rest' Hlife] _]; subst.
  discriminate.
Qed.

(** ** A child closed during its start delay *)

Lemma last_nonzero_minus_one (l : list Z) :
  In (-1) l -> Forall (fun e => e = 0 \/ e = -1) l ->
  last (filter nonzero l) 0 = -1.
Proof.
  intros Hin Hall.
  assert (Hne : filter nonzero l <> []).
  { intros E. assert (H : In (-1) (filter nonzero l))
      by (apply filter_In; split; [exact Hin | reflexivity]).
    now rewrite E in H. }
  pose proof (last_In (filter nonzero l) 0 Hne) as Hlast.
  apply filter_In in Hlast. destruct Hlast as [Hl Hnz].
  rewrite Forall_forall in Hall. destruct (Hall _ Hl) as [E|E]; [|exact E].
  rewrite E in Hnz. discriminate.
Qed.

(** C10 (as amended).  A child whose keep-going flag has been cleared (by
    [close], from [stop_all]) when its start-delay wait ends returns from
    its activity at once: no report, no spawn, its exit status untouched and
    its registration kept.  Holding the initial status -1, it makes the
    aggregate non-zero, and -1 when every registered child holds 0 or -1. *)
Theorem closed_in_start_delay (s : state) (id : nat) :
  run_at (objects s id) = InStartDelay ->
  _keep_going (objects s id) = false ->
  exit_status (objects s id) = -1 ->
  In id (dict_values (_subprocesses s)) ->
  let s' := exec (run_step id Go) s in
  run_at (objects s' id) = Finished
  /\ trace s' = trace s
  /\ exit_status (objects s' id) = -1
  /\ _subprocesses s' = _subprocesses s
  /\ get_exit_status s' <> 0
  /\ (Forall (fun e => e = 0 \/ e = -1) (registered_statuses s) ->
      get_exit_status s' = -1).
Proof.
  intros Hpc Hkg Hst Hreg.
  assert (Hs' : exec (run_step id Go) s
                = update_object id (set_run_at Finished) s).
  { destruct s as [tl closed subs ev objs n w t tr]. cbn in *.
    unfold run_step.
    destruct (objs id) as [task kg proc att est pc] eqn:Eo. cbn in *.
    subst kg pc. step_norm. reflexivity. }
  cbv zeta. rewrite Hs'.
  assert (Hstat : registered_statuses (update_object id (set_run_at Finished) s)
                  = registered_statuses s).
  { unfold registered_statuses. cbn. apply map_ext. intros j.
    destruct (Nat.eqb_spec j id) as [->|_]; reflexivity. }
  assert (Hin : In (-1) (registered_statuses s)).
  { unfold registered_statuses. rewrite <- Hst.
    apply (in_map (fun j => exit_status (objects s j))). exact Hreg. }
  repeat apply conj.
  - cbn. now rewrite Nat.eqb_refl.
  - reflexivity.
  - cbn. now rewrite Nat.eqb_refl.
  - reflexivity.
  - intros H0.
    apply (proj1 (proj1 (proj2 (get_exit_status_aggregate _)))) in H0.
    rewrite Hstat in H0. rewrite Forall_forall in H0.
    specialize (H0 _ Hin). discriminate.
  - intros Hall. rewrite get_exit_status_last, Hstat.
    now apply last_nonzero_minus_one.
Qed.

Lemma closed_in_start_delay_witness :
  let s := exec stop_all (one_started 500) in
  let s' := exec (run_step 0 Go) s in
  run_at (objects s' 0) = Finished
  /\ trace s' = trace s
  /\ exit_status (objects s' 0) = -1
  /\ _subprocesses s' = _subprocesses s
  /\ get_exit_status s' <> 0
  /\ (Forall (fun e => e = 0 \/ e = -1) (registered_statuses s) ->
      get_exit_status s' = -1).
Proof.
  apply (closed_in_start_delay (exec stop_all (one_started 500)) 0);
    [reflexivity | reflexivity | reflexivity | left; reflexivity].
Defined.

(** C10, as stated, fails: the activity tests the keep-going flag, not the
    exit event.  A child resumed from its start delay after the event was
    set but before [close] reached it reports START_PENDING and spawns. *)
Lemma trigger_without_close_spawns :
  let waiting := one_started 500 in
  let s := with_exit_event true waiting in
  let s' := exec (run_step 0 Go) s in
  run_at (objects waiting 0) = InStartDelay
  /\ trace waiting = []
  /\ exit_event s = true
  /\ trace s' = [StateChanged "a" START_PENDING; spawn "/bin/prog" []]
  /\ run_at (objects s' 0) = InSpawn.
Proof. cbv. repeat split; reflexivity. Qed.

(** ** The bounded shutdown *)

Lemma run_step_now (id : nat) (r : resume) (s : state) :
  now (exec (run_step id r) s) = now s.
Proof.
  destruct s as [tl closed subs ev objs n w t tr].
  unfold run_step, on_exception, after_life, loop_head.
  eval_step; reflexivity.
Qed.

Lemma asyncio_sleep_now (ms : Z) (tk : tick) (s : state) :
  now (exec (asyncio_sleep ms tk) s) = now s + ms + Z.of_nat (latency tk).
Proof.
  unfold asyncio_sleep. rewrite exec_bind.
  pose proof (for_each_keeps (fun s' => now s' = now s)
    (fun ir => run_step (fst ir) (snd ir))) as K.
  specialize (K (fun x s0 H0 =>
    eq_trans (run_step_now (fst x) (snd x) s0) H0)).
  specialize (K (resumed tk) s eq_refl). cbn in K.
  destruct (for_each (resumed tk) _ s) as [[[]|e] s'] eqn:E; cbn in *.
  - now rewrite K.
  - pose proof (for_each_ok (fun ir => run_step (fst ir) (snd ir))) as Hok.
    assert (Hbody : forall x s0, fst (run_step (fst x) (snd x) s0) = Ok tt).
    { intros x s0. destruct s0 as [tl closed subs ev objs n w t tr].
      unfold run_step, on_exception, after_life, loop_head.
      eval_step; reflexivity. }
    specialize (Hok Hbody (resumed tk) s). rewrite E in Hok. discriminate.
Qed.

Lemma close_running_now (s : state) : now (exec close_running s) = now s.
Proof.
  unfold close_running. rewrite exec_bind. cbn [gets].
  apply (for_each_keeps (fun s' => now s' = now s)); [|reflexivity].
  intros x s0 H0. rewrite exec_bind. cbn [object gets].
  destruct (negb (stopped (objects s0 x))); [|exact H0].
  cbn [when]. destruct (close_guarded_frame x s0) as (_ & Hn & _). congruence.
Qed.

(** The loop of [kill_phase] kills the running children in order. *)
Lemma kill_loop (ids : list nat) (s : state) :
  for_each ids (fun id => p <- object id ;; when (negb (stopped p)) (kill id)) s
  = (Ok tt,
     with_trace
       (trace s ++
        map process_kill
          (flat_map (fun id => match _process (objects s id) with
                               | Some sub => [pid sub]
                               | None => []
                               end) ids)) s).
Proof.
  revert s. induction ids as [|id ids IH]; intros s.
  - destruct s. cbn. now rewrite app_nil_r.
  - assert (Hhead :
      (p <- object id ;; when (negb (stopped p)) (kill id)) s
      = (Ok tt,
         with_trace
           (trace s ++
            map process_kill
              (match _process (objects s id) with
               | Some sub => [pid sub]
               | None => []
               end)) s)).
    { destruct s as [tl closed subs ev objs n w t tr].
      unfold kill, stopped. cbn.
      destruct (_process (objs id)) eqn:E; cbn; rewrite ?E; cbn;
        now rewrite ?app_nil_r. }
    cbn [for_each]. unfold bind at 1. rewrite Hhead, IH.
    destruct s as [tl closed subs ev objs n w t tr]. cbn.
    now rewrite map_app, app_assoc.
Qed.

Lemma count_running_pids (s : state) :
  count_running s = List.length (running_pids s).
Proof.
  unfold count_running, running_pids, stopped.
  induction (dict_values (_subprocesses s)) as [|id ids IH]; [reflexivity|].
  simpl. destruct (_process (objects s id)); simpl; now rewrite IH.
Qed.

Lemma kill_phase_effects (s : state) :
  trace (exec kill_phase s)
  = trace s ++ map process_kill (running_pids s)
    ++ (if Nat.eqb (count_running s) 0 then []
        else [print_sigkill_notice; time_sleep 2000])
  /\ now (exec kill_phase s)
     = now s + (if Nat.eqb (count_running s) 0 then 0 else 2000).
Proof.
  unfold kill_phase. cbn. rewrite kill_loop. cbn.
  fold (running_pids s).
  destruct (Nat.eqb (count_running s) 0); cbn.
  - rewrite app_nil_r. split; [reflexivity | lia].
  - rewrite <- !app_assoc. split; reflexivity.
Qed.

(** One round of the polling loop that is not the last. *)
Lemma polling_round (ticks : nat -> tick) (fuel round : nat)
  (t1 t_last : Z) (s : state) :
  now s - t1 <= 15000 -> count_running s <> 0%nat ->
  polling (S fuel) ticks round t1 t_last s
  = let awake := exec (asyncio_sleep 100 (ticks round)) s in
    if now s - t1 >? t_last + 1000
    then polling fuel ticks (S round) t1 (now s - t1) (exec close_running awake)
    else polling fuel ticks (S round) t1 t_last awake.
Proof.
  intros Ht Hc. cbn [polling].
  destruct (Z.gtb_spec (now s - t1) 15000); [lia|].
  destruct (Nat.eqb_spec (count_running s) 0); [contradiction|reflexivity].
Qed.

(** The loop ends: every round that is not the last advances the clock by
    at least 100 ms, and the loop is left once more than 15 s have gone. *)
Lemma polling_ends (ticks : nat -> tick) (L : nat) (t1 : Z) :
  (forall round, (latency (ticks round) <= L)%nat) ->
  forall n round t_last s,
    15000 - (now s - t1) < 100 * Z.of_nat n ->
    exists s1,
      polling (S n) ticks round t1 t_last s = Some s1
      /\ (now s1 - t1 > 15000 \/ count_running s1 = 0%nat)
      /\ now s1 - t1 <= Z.max (now s - t1) (15100 + Z.of_nat L).
Proof.
  intros HL. induction n as [|n IH]; intros round t_last s Hfuel.
  - exists s. cbn [polling].
    destruct (Z.gtb_spec (now s - t1) 15000); [|lia].
    split; [reflexivity|]. split; [left|]; lia.
  - cbn [polling].
    destruct (Z.gtb_spec (now s - t1) 15000) as [Hgt|Hle].
    { exists s. split; [reflexivity|]. split; [left|]; lia. }
    destruct (Nat.eqb_spec (count_running s) 0) as [H0|_].
    { exists s. split; [reflexivity|]. split; [right; exact H0|lia]. }
    pose proof (asyncio_sleep_now 100 (ticks round) s) as Hnow.
    pose proof (HL round) as Hlat.
    set (awake := exec (asyncio_sleep 100 (ticks round)) s) in *.
    destruct (now s - t1 >? t_last + 1000).
    + pose proof (close_running_now awake) as Hc.
      destruct (IH (S round) (now s - t1) (exec close_running awake))
        as (s1 & Hs1 & Hexit & Hbound); [lia|].
      exists s1. split; [exact Hs1|]. split; [exact Hexit|]. lia.
    + destruct (IH (S round) t_last awake)
        as (s1 & Hs1 & Hexit & Hbound); [lia|].
      exists s1. split; [exact Hs1|]. split; [exact Hexit|]. lia.
Qed.

(** ** The re-send of the soft stop *)

Lemma close_guarded_stopped (id j : nat) (s : state) :
  stopped (objects (exec (close_guarded id) s) j) = stopped (objects s j)
  /\ _keep_going (objects (exec (close_guarded id) s) j)
     = (if Nat.eqb j id then false else _keep_going (objects s j))
  /\ task_launch (objects (exec (close_guarded id) s) j)
     = task_launch (objects s j).
Proof.
  destruct s as [tl closed subs ev objs n w t tr].
  unfold close_guarded, close, do_send_term, stopped.
  eval_step; same_object; repeat apply conj; try discriminate;
    try reflexivity; congruence.
Qed.

(** The loop of [wait_all_stopped] that re-sends the soft stop is the loop
    of [close] calls over the children not stopped when it begins. *)
Lemma resend_loop (ids : list nat) :
  forall s,
    for_each ids (fun id =>
      p <- object id ;; when (negb (stopped p)) (close_guarded id)) s
    = for_each (filter (fun id => negb (stopped (objects s id))) ids)
        close_guarded s.
Proof.
  induction ids as [|x ids IH]; intros s; [reflexivity|].
  cbn [filter]. rewrite for_each_cons.
  assert (Hhead :
    (p <- object x ;; when (negb (stopped p)) (close_guarded x)) s
    = if negb (stopped (objects s x)) then close_guarded x s else (Ok tt, s)).
  { unfold bind, object, gets, when, ret.
    now destruct (negb (stopped (objects s x))). }
  rewrite Hhead. destruct (negb (stopped (objects s x))) eqn:Ex.
  - rewrite for_each_cons.
    pose proof (close_guarded_ok x s) as Hok.
    pose proof (fun j => proj1 (close_guarded_stopped x j s)) as Hst.
    unfold exec in Hst.
    destruct (close_guarded x s) as [[[]|e] s1]; [|discriminate].
    cbn [snd] in Hst. rewrite IH. f_equal.
    apply filter_ext. intros j. now rewrite Hst.
  - apply IH.
Qed.

Lemma close_loop_clears (ids : list nat) (j : nat) :
  forall s,
    In j ids ->
    _keep_going (objects (exec (for_each ids close_guarded) s) j) = false.
Proof.
  induction ids as [|x ids IH]; intros s Hin; [destruct Hin|].
  assert (E : exec (for_each (x :: ids) close_guarded) s
              = exec (for_each ids close_guarded)
                  (exec (close_guarded x) s)).
  { unfold exec. rewrite for_each_cons.
    pose proof (close_guarded_ok x s) as Hok.
    destruct (close_guarded x s) as [[[]|e] s1]; [reflexivity|discriminate]. }
  rewrite E.
  destruct (in_dec Nat.eq_dec j ids) as [Hj|Hj]; [now apply IH|].
  destruct Hin as [->|Hin]; [|contradiction].
  apply (for_each_keeps (fun s' => _keep_going (objects s' j) = false)).
  - intros y s0 H0.
    destruct (close_guarded_stopped y j s0) as (_ & Hk & _). rewrite Hk.
    now destruct (Nat.eqb j y).
  - destruct (close_guarded_stopped j j s) as (_ & Hk & _). rewrite Hk.
    now rewrite Nat.eqb_refl.
Qed.

(** C3 (as amended).  [wait_all_stopped] terminates, within 152 rounds.
    A round that is not the last sleeps 100 ms and then, if the elapsed
    time it read exceeds by more than one second the one read at the last
    re-send (0 at first), calls [close] again on every child not stopped.
    The loop is left at the first round that reads more than 15 s or finds
    no registered child not stopped; this happens no later than 15.1 s
    plus the overshoot of one sleep.  Then every child still not stopped is
    killed and, if there was one, the notice is printed and 2 s are slept:
    17.1 s plus the overshoot in all.  The re-send is the guarded call of
    [close] on each registered child that is not stopped, in the order of
    the children map and on no other child: it reports each of these calls
    and leaves the keep-going flag of each of these children cleared. *)
Theorem wait_all_stopped_bounded (ticks : nat -> tick) (L : nat) (s : state) :
  (forall round, (latency (ticks round) <= L)%nat) ->
  (exists s1 s',
     polling 152 ticks 0 (now s) 0 s = Some s1
     /\ wait_all_stopped 152 ticks s = Some s'
     /\ (now s1 - now s > 15000 \/ count_running s1 = 0%nat)
     /\ now s1 - now s <= 15100 + Z.of_nat L
     /\ trace s'
        = trace s1 ++ map process_kill (running_pids s1)
          ++ (if Nat.eqb (count_running s1) 0 then []
              else [print_sigkill_notice; time_sleep 2000])
     /\ now s' = now s1 + (if Nat.eqb (count_running s1) 0 then 0 else 2000)
     /\ now s' - now s <= 17100 + Z.of_nat L)
  /\ (forall fuel round t1 t_last s0,
        now s0 - t1 <= 15000 -> count_running s0 <> 0%nat ->
        polling (S fuel) ticks round t1 t_last s0
        = let awake := exec (asyncio_sleep 100 (ticks round)) s0 in
          if now s0 - t1 >? t_last + 1000
          then polling fuel ticks (S round) t1 (now s0 - t1)
                 (exec close_running awake)
          else polling fuel ticks (S round) t1 t_last awake)
  /\ (forall awake,
        close_running awake
        = for_each (running_children awake) close_guarded awake
        /\ (exists calls,
              trace (exec close_running awake) = trace awake ++ calls
              /\ forall id, In id (running_children awake) ->
                   In (close_called (name (task_launch (objects awake id))))
                     calls)
        /\ (forall id, In id (running_children awake) ->
              _keep_going (objects (exec close_running awake) id) = false)).
Proof.
  intros HL.
  refine (conj _ (conj (fun fuel round t1 t_last s0 =>
                          polling_round ticks fuel round t1 t_last s0) _)).
  - destruct (polling_ends ticks L (now s) HL 151 0%nat 0 s)
      as (s1 & Hs1 & Hexit & Hbound); [lia|].
    exists s1, (exec kill_phase s1).
    destruct (kill_phase_effects s1) as [Htr Hnow].
    split; [exact Hs1|]. split; [unfold wait_all_stopped; now rewrite Hs1|].
    split; [exact Hexit|]. split; [lia|]. split; [exact Htr|].
    split; [exact Hnow|]. rewrite Hnow.
    destruct (Nat.eqb (count_running s1) 0); lia.
  - intros awake.
    assert (E : close_running awake
                = for_each (running_children awake) close_guarded awake).
    { unfold close_running, running_children.
      unfold bind at 1, gets at 1. apply resend_loop. }
    split; [exact E|]. unfold exec. rewrite E. split.
    + destruct (close_loop_calls (running_children awake) awake)
        as (calls & Htr & Hin).
      exists calls. split; [exact Htr | exact Hin].
    + intros id Hid. now apply close_loop_clears.
Qed.

Lemma wait_all_stopped_bounded_witness :
  exists s1 s',
    polling 152 quiet 0 (now stuck) 0 stuck = Some s1
    /\ wait_all_stopped 152 quiet stuck = Some s'
    /\ (now s1 - now stuck > 15000 \/ count_running s1 = 0%nat)
    /\ now s1 - now stuck <= 15100 + Z.of_nat 0
    /\ trace s'
       = trace s1 ++ map process_kill (running_pids s1)
         ++ (if Nat.eqb (count_running s1) 0 then []
             else [print_sigkill_notice; time_sleep 2000])
    /\ now s' = now s1 + (if Nat.eqb (count_running s1) 0 then 0 else 2000)
    /\ now s' - now stuck <= 17100 + Z.of_nat 0.
Proof.
  apply (wait_all_stopped_bounded quiet 0 stuck). intros round. simpl. lia.
Defined.

(** C3, as stated, fails on the bound: with a child that never stops and
    sleeps that do not overshoot at all, [wait_all_stopped] returns 17.1 s
    after it was entered, not within 17 s; and in the 15.1 s of its loop
    it calls [close] again 13 times, every 1.1 s, not every second. *)
Lemma unstoppable_child_takes_17100 :
  option_map (fun s' => now s' - now stuck) (wait_all_stopped 152 quiet stuck)
  = Some 17100
  /\ ~ (17100 <= 17000)
  /\ option_map
       (fun s' =>
          List.length
            (filter (fun e => match e with close_called _ => true | _ => false end)
               (skipn (List.length (trace stuck)) (trace s'))))
       (wait_all_stopped 152 quiet stuck)
     = Some 13%nat.
Proof. split; [vm_compute; reflexivity | split; [lia | vm_compute; reflexivity]]. Qed.

Lemma close_guarded_process (id j : nat) (s : state) :
  _process (objects (exec (close_guarded id) s) j) = _process (objects s j).
Proof.
  destruct s as [tl closed subs ev objs n w t tr].
  unfold close_guarded, close, do_send_term.
  eval_step; same_object; congruence.
Qed.

Lemma count_running_ext (s1 s2 : state) :
  _subprocesses s1 = _subprocesses s2 ->
  (forall j, _process (objects s1 j) = _process (objects s2 j)) ->
  count_running s1 = count_running s2.
Proof.
  intros Hsubs Hproc. unfold count_running, stopped. rewrite Hsubs.
  f_equal. apply filter_ext. intros j. now rewrite Hproc.
Qed.

Lemma close_running_count (s : state) :
  count_running (exec close_running s) = count_running s.
Proof.
  apply count_running_ext.
  - unfold close_running. rewrite exec_bind. cbn [gets].
    apply (for_each_keeps (fun s' => _subprocesses s' = _subprocesses s));
      [|reflexivity].
    intros x s0 H0. rewrite exec_bind. cbn [object gets].
    destruct (negb (stopped (objects s0 x))); [|exact H0].
    cbn [when]. destruct (close_guarded_frame x s0) as (_ & _ & Hs & _).
    congruence.
  - intros j. unfold close_running. rewrite exec_bind. cbn [gets].
    apply (for_each_keeps
             (fun s' => _process (objects s' j) = _process (objects s j)));
      [|reflexivity].
    intros x s0 H0. rewrite exec_bind. cbn [object gets].
    destruct (negb (stopped (objects s0 x))); [|exact H0].
    cbn [when]. now rewrite close_guarded_process.
Qed.

Lemma polling_without_progress (ticks : nat -> tick) (t1 : Z) :
  (forall round, resumed (ticks round) = []) ->
  forall fuel round t_last s s1,
    count_running s <> 0%nat ->
    polling fuel ticks round t1 t_last s = Some s1 ->
    now s1 - t1 > 15000 /\ count_running s1 <> 0%nat.
Proof.
  intros Hquiet. induction fuel as [|fuel IH]; intros round t_last s s1 Hc;
    [discriminate|].
  cbn [polling].
  destruct (Z.gtb_spec (now s - t1) 15000); [intros [= <-]; split; [lia|auto]|].
  destruct (Nat.eqb_spec (count_running s) 0); [contradiction|].
  assert (Hawake : count_running (exec (asyncio_sleep 100 (ticks round)) s)
                   = count_running s).
  { unfold asyncio_sleep. rewrite (Hquiet round). destruct s. reflexivity. }
  destruct (now s - t1 >? t_last + 1000); intros Hp; apply IH in Hp; auto.
  - rewrite close_running_count. congruence.
  - congruence.
Qed.

(** The bound of 17 s is missed on every clock, not only on an exact one:
    when no child makes progress while the group sleeps, a call that finds
    a child not stopped lasts more than 17 s. *)
Lemma no_progress_takes_more_than_17s (ticks : nat -> tick) (s s' : state)
  (fuel : nat) :
  (forall round, resumed (ticks round) = []) ->
  count_running s <> 0%nat ->
  wait_all_stopped fuel ticks s = Some s' ->
  now s' - now s > 17000.
Proof.
  intros Hquiet Hc. unfold wait_all_stopped.
  destruct (polling fuel ticks 0 (now s) 0 s) as [s1|] eqn:E; [|discriminate].
  intros [= <-].
  destruct (polling_without_progress ticks (now s) Hquiet _ _ _ _ _ Hc E)
    as [Ht Hc1].
  destruct (kill_phase_effects s1) as [_ Hnow]. cbn [exec] in *.
  rewrite Hnow. destruct (Nat.eqb_spec (count_running s1) 0); [contradiction|].
  lia.
Qed.

(** ** The environment read from an env-file *)

(** [cut] splits at the first separator. *)
Lemma cut_first (sep : ascii) (s k v : string) :
  cut sep s = (k, Some v) <->
  s = (k ++ String sep v)%string /\ occurs sep k = false.
Proof.
  split.
  - revert k. induction s as [|c s IH]; intros k; simpl; [discriminate|].
    destruct (Ascii.eqb_spec c sep) as [->|Hne].
    + intros [= <- <-]. now split.
    + destruct (cut sep s) as [a b]. intros [= <- ->].
      destruct (IH a eq_refl) as [-> Hocc]. split; [reflexivity|].
      simpl. rewrite Hocc. now destruct (Ascii.eqb_spec c sep).
  - intros [-> Hocc]. induction k as [|c k IH]; simpl.
    + now rewrite Ascii.eqb_refl.
    + simpl in Hocc. apply orb_false_iff in Hocc. destruct Hocc as [Hc Hk].
      rewrite Hc, (IH Hk). reflexivity.
Qed.

Lemma defines_binding (line k v : string) :
  defines line k v <-> line_binding line = Some (k, v).
Proof.
  unfold defines, line_binding.
  destruct (starts_with_hash (strip line)).
  - split; [intros [H _]; discriminate | discriminate].
  - destruct (cut equals_sign (strip line)) as [a [b|]].
    + split; [intros [_ [= -> ->]]; reflexivity | intros [= -> ->]; now split].
    + split; [intros [_ H]; discriminate | discriminate].
Qed.

(** The loop body either sets the variable its line binds or does nothing. *)
Lemma env_file_line_binding (env : dict string) (line : string) :
  env_file_line env line
  = match line_binding line with
    | Some (k, v) => dict_set k v env
    | None => env
    end.
Proof.
  unfold env_file_line, line_binding.
  destruct (strip line) as [|c s] eqn:E; [reflexivity|].
  cbn [line_is_empty negb starts_with_hash].
  destruct (Ascii.eqb c hash) eqn:Eh.
  - unfold split_once at 2. cbn [cut]. rewrite Eh. reflexivity.
  - unfold split_once. destruct (cut equals_sign (String c s)) as [a [b|]];
      reflexivity.
Qed.

Lemma env_loop_lookup (k : string) (lines : list string) :
  forall env,
    dict_get k (fold_left env_file_line lines env)
    = match
        find (fun line => match line_binding line with
                          | Some (k', _) => String.eqb k k'
                          | None => false
                          end) (rev lines)
      with
      | Some line => option_map snd (line_binding line)
      | None => dict_get k env
      end.
Proof.
  induction lines as [|line lines IH] using rev_ind; intros env.
  - reflexivity.
  - rewrite fold_left_app, rev_app_distr. cbn [fold_left rev app find].
    rewrite env_file_line_binding.
    destruct (line_binding line) as [[k' v]|] eqn:Eb.
    + destruct (String.eqb_spec k k') as [->|Hne].
      * rewrite Eb. cbn. apply dict_get_set_same.
      * rewrite dict_get_set_other by exact Hne. apply IH.
    + apply IH.
Qed.

Lemma find_skip {A} (P : A -> bool) (l1 l2 : list A) :
  (forall x, In x l1 -> P x = false) -> find P (l1 ++ l2) = find P l2.
Proof.
  induction l1 as [|a l1 IH]; intros H; [reflexivity|].
  simpl. rewrite (H a (or_introl eq_refl)). apply IH.
  intros x Hx. apply H. now right.
Qed.

(** Every variable of the file's environment comes from a line, and the
    last line that defines a variable decides its value. *)
Lemma env_from_file_lines (text : string) :
  (forall k v, dict_get k (env_from_file text) = Some v ->
     exists line, In line (readlines text) /\ defines line k v)
  /\ (forall before line after k v,
        readlines text = before ++ line :: after ->
        defines line k v ->
        (forall l v', In l after -> ~ defines l k v') ->
        dict_get k (env_from_file text) = Some v).
Proof.
  unfold env_from_file. split.
  - intros k v. rewrite env_loop_lookup.
    destruct (find _ (rev (readlines text))) as [line|] eqn:E; [|discriminate].
    apply find_some in E. destruct E as [Hin HP]. intros Hv.
    exists line. split; [now apply in_rev|].
    apply defines_binding.
    destruct (line_binding line) as [[k' v']|]; [|discriminate].
    apply String.eqb_eq in HP. subst k'. cbn in Hv. congruence.
  - intros before line after k v Hlines Hdef Hafter.
    rewrite env_loop_lookup, Hlines, rev_app_distr. cbn [rev].
    rewrite <- app_assoc. rewrite find_skip.
    + cbn [app find]. apply defines_binding in Hdef. rewrite Hdef.
      rewrite String.eqb_refl. now rewrite Hdef.
    + intros l Hl. apply in_rev in Hl.
      destruct (line_binding l) as [[k' v']|] eqn:Eb; [|reflexivity].
      destruct (String.eqb_spec k k') as [->|]; [|reflexivity].
      exfalso. apply (Hafter l v' Hl). now apply defines_binding.
Qed.

Arguments with_os_environ e h /.
Arguments with_y_environment e y /.

(** C9.  With an env-file, the task's environment is the one read from the
    file: every variable in it is defined by a line of the file, which,
    stripped, reads KEY=VALUE split at its first equals sign; the last such
    line for a key decides; blank lines and lines that begin with a hash
    sign define nothing; and the launcher's environment and the task's
    environment mapping have no influence on the result at all. *)
Theorem env_file_alone (h : host) (y : yaml_task) (cwd0 path text : string)
  (task : DrekarTask) :
  y_env_file y = Some path ->
  file_text h path = Some text ->
  parse_task_launch_from_yaml h y cwd0 = Ok task ->
  environment task = env_from_file text
  /\ (forall k v, dict_get k (environment task) = Some v ->
        exists line,
          In line (readlines text)
          /\ starts_with_hash (strip line) = false
          /\ strip line = (k ++ String equals_sign v)%string
          /\ occurs equals_sign k = false)
  /\ (forall before line after k v,
        readlines text = before ++ line :: after ->
        defines line k v ->
        (forall l v', In l after -> ~ defines l k v') ->
        dict_get k (environment task) = Some v)
  /\ (forall line k v,
        strip line = EmptyString \/ starts_with_hash (strip line) = true ->
        ~ defines line k v)
  /\ (forall launcher_env task_env,
        parse_task_launch_from_yaml (with_os_environ launcher_env h)
          (with_y_environment task_env y) cwd0
        = Ok task).
Proof.
  intros Hfile Htext Hparse.
  assert (Henv : environment task = env_from_file text).
  { unfold parse_task_launch_from_yaml in Hparse.
    rewrite Hfile, Htext in Hparse.
    repeat match type of Hparse with
           | match ?x with _ => _ end = _ => destruct x; try discriminate
           | (if ?x then _ else _) = _ => destruct x; try discriminate
           end;
    injection Hparse as <-; reflexivity. }
  destruct (env_from_file_lines text) as [Hsound Hlast].
  repeat apply conj.
  - exact Henv.
  - intros k v Hk. rewrite Henv in Hk.
    destruct (Hsound k v Hk) as (line & Hin & Hhash & Hcut).
    apply cut_first in Hcut. destruct Hcut as [Hs Hocc].
    exists line. auto.
  - intros before line after k v H1 H2 H3. rewrite Henv. eauto.
  - intros line k v [Hblank|Hhash] [Hnh Hcut].
    + rewrite Hblank in Hcut. discriminate.
    + congruence.
  - intros launcher_env task_env. rewrite <- Hparse.
    unfold parse_task_launch_from_yaml. cbn. rewrite Hfile, Htext.
    reflexivity.
Qed.

Lemma env_file_alone_witness :
  environment sample_loaded
  = [("PATH", "/opt/bin"); ("KEY", "a=b")]%string.
Proof.
  rewrite (proj1 (env_file_alone sample_host sample_yaml "." "app.env"
                    sample_env_text sample_loaded eq_refl eq_refl eq_refl)).
  reflexivity.
Defined.

(** ** Scenarios *)

Example env_from_file_sample :
  env_from_file sample_env_text
  = [("PATH", "/opt/bin"); ("KEY", "a=b")]%string.
Proof. reflexivity. Qed.

Example parse_sample :
  parse_task_launch_from_yaml sample_host sample_yaml "." = Ok sample_loaded.
Proof. reflexivity. Qed.

(** A hash sign inside a line does not start a comment. *)
Example hash_inside_a_line :
  env_from_file "PATH=/bin # tail" = [("PATH", "/bin # tail")]%string.
Proof. reflexivity. Qed.

Example lives_sample :
  lives [START_PENDING; RUNNING; STOPPED; START_PENDING; STOPPED;
         START_PENDING]
  = [[START_PENDING; RUNNING; STOPPED]; [START_PENDING; STOPPED];
     [START_PENDING]].
Proof. reflexivity. Qed.

(** One child that exits with 42 and has quit-on-terminate: the exit event
    is set, and the launcher returns 42. *)
Example quit_with_error :
  let s := exec (whole_life 42)
             (DrekarCore_init [sample_task "a" 0 false true] posix_world) in
  exit_event s = true
  /\ reports_of (trace s) = [START_PENDING; RUNNING; STOPPED]
  /\ shutdown s = Some 42.
Proof. vm_compute. repeat split; reflexivity. Qed.

(** One child that exits with 0: the launcher returns 0. *)
Example clean_quit :
  shutdown (exec (whole_life 0)
              (DrekarCore_init [sample_task "a" 0 false true] posix_world))
  = Some 0.
Proof. vm_compute. reflexivity. Qed.

(** A restarting child stopped in its backoff: the launcher returns 0, and
    the shutdown takes no time. *)
Example stopped_in_backoff :
  let s := exec (whole_life 0)
             (DrekarCore_init [sample_task "a" 0 true false] posix_world) in
  run_at (objects s 0) = InBackoff
  /\ shutdown s = Some 0
  /\ option_map now (wait_all_stopped 152 quiet (exec stop_all s))
     = Some (now s).
Proof. vm_compute. repeat split; reflexivity. Qed.

(** The unstoppable child: thirteen re-sent soft stops after the first, at
    1.1 s intervals on an exact clock, then the kill. *)
Example unstoppable_child_trace :
  option_map
    (fun s' => List.length
                 (filter (fun e => match e with killpg _ _ => true | _ => false end)
                    (trace s')))
    (wait_all_stopped 152 quiet stuck)
  = Some 14%nat
  /\ option_map (fun s' => last (trace s') closed_assigned)
       (wait_all_stopped 152 quiet stuck)
     = Some (time_sleep 2000).
Proof. vm_compute. split; reflexivity. Qed.

(** * Further properties *)

(** ** The task table and the registry *)

Lemma dict_set_In {V} (k : string) (v : V) (d : dict V) (k' : string) (v' : V) :
  In (k', v') (dict_set k v d) -> (k' = k /\ v' = v) \/ In (k', v') d.
Proof.
  induction d as [|[k0 v0] d IH]; simpl.
  - intros [[= <- <-]|[]]. now left.
  - destruct (String.eqb k k0) eqn:E; simpl.
    + intros [[= <- <-]|H]; [now left | right; now right].
    + intros [H|H]; [right; now left|].
      destruct (IH H) as [H1|H1]; [now left | right; now right].
Qed.

Lemma dict_get_In {V} (k : string) (v : V) (d : dict V) :
  dict_get k d = Some v -> In (k, v) d.
Proof.
  induction d as [|[k0 v0] d IH]; simpl; [discriminate|].
  destruct (String.eqb_spec k k0) as [->|_].
  - intros [= ->]. now left.
  - intros H. right. now apply IH.
Qed.

Lemma dict_in_keys {V} (k : string) (d : dict V) :
  dict_in k d = true <-> In k (map fst d).
Proof.
  unfold dict_in. induction d as [|[k0 v0] d IH]; simpl.
  - split; [discriminate | intros []].
  - destruct (String.eqb_spec k k0) as [->|Hne].
    + split; auto.
    + rewrite IH. split; [now right | intros [H|H]; [congruence | exact H]].
Qed.

Lemma dict_set_keys_new {V} (k : string) (v : V) (d : dict V) :
  dict_in k d = false -> dict_set k v d = d ++ [(k, v)].
Proof.
  unfold dict_in. induction d as [|[k0 v0] d IH]; simpl; [reflexivity|].
  destruct (String.eqb k k0); [discriminate|].
  intros H. now rewrite (IH H).
Qed.

(** The loop of [__init__] that fills the task table. *)
Lemma task_table_lookup (nm : string) (tasks : list DrekarTask) :
  forall d,
    dict_get nm (fold_left (fun d s => dict_set (name s) s d) tasks d)
    = match find (fun t => String.eqb nm (name t)) (rev tasks) with
      | Some t => Some t
      | None => dict_get nm d
      end.
Proof.
  induction tasks as [|t tasks IH] using rev_ind; intros d; [reflexivity|].
  rewrite fold_left_app, rev_app_distr. cbn [fold_left rev app find].
  destruct (String.eqb_spec nm (name t)) as [->|Hne].
  - apply dict_get_set_same.
  - rewrite dict_get_set_other by exact Hne. apply IH.
Qed.

Lemma task_table_names (tasks : list DrekarTask) :
  forall d,
    (forall k t, In (k, t) d -> name t = k) ->
    forall k t,
      In (k, t) (fold_left (fun d s => dict_set (name s) s d) tasks d) ->
      name t = k.
Proof.
  induction tasks as [|t0 tasks IH]; intros d Hd k t; [apply Hd|].
  cbn [fold_left]. apply IH. intros k' t' H.
  apply dict_set_In in H. destruct H as [[-> ->]|H]; [reflexivity|].
  now apply Hd.
Qed.

(** X1.  The group is built with the task table filled and nothing else:
    looking a name up gives the last task of the list that bears it (a
    later task replaces an earlier one of the same name), every task is
    filed under its own name, no child is registered, no object allocated,
    the group is open. *)
Theorem DrekarCore_init_table (tasks : list DrekarTask) (w : os_world) :
  let s := DrekarCore_init tasks w in
  (forall nm,
     dict_get nm (task_launches s)
     = find (fun t => String.eqb nm (name t)) (rev tasks))
  /\ (forall k t, In (k, t) (task_launches s) -> name t = k)
  /\ _subprocesses s = []
  /\ allocated s = 0%nat
  /\ _closed s = false
  /\ registry_ok s.
Proof.
  cbv zeta.
  assert (Hnames : forall k t,
            In (k, t) (task_launches (DrekarCore_init tasks w)) -> name t = k).
  { cbn. apply task_table_names. intros k t []. }
  repeat apply conj; try reflexivity; try exact Hnames.
  - intros nm. cbn. rewrite task_table_lookup.
    now destruct (find _ (rev tasks)).
  - constructor.
  - constructor.
  - intros nm id [].
Qed.

Arguments state_after_start t s /.

Lemma do_start_eq (t : DrekarTask) (s : state) :
  _do_start t s = (Ok tt, state_after_start t s).
Proof. destruct s. reflexivity. Qed.

Lemma NoDup_snoc {A} (l : list A) (a : A) :
  NoDup l -> ~ In a l -> NoDup (l ++ [a]).
Proof.
  induction l as [|b l IH]; intros Hl Ha; cbn.
  - constructor; [intros [] | constructor].
  - inversion Hl as [|? ? Hb Hl']; subst. constructor.
    + intros Hin. apply in_app_or in Hin. destruct Hin as [Hin|[->|[]]].
      * contradiction.
      * apply Ha. now left.
    + apply IH; [exact Hl'|]. intros Hin. apply Ha. now right.
Qed.

Lemma registry_ok_start (t : DrekarTask) (s : state) :
  registry_ok s -> dict_in (name t) (_subprocesses s) = false ->
  registry_ok (state_after_start t s).
Proof.
  intros (Hk & Hv & Hreg & Htab) Hnew.
  destruct s as [tl closed subs ev objs n w tm tr]. cbn in *.
  rewrite (dict_set_keys_new _ _ _ Hnew).
  repeat apply conj; cbn.
  - rewrite map_app. cbn. apply NoDup_snoc; [exact Hk|].
    intros Hin. apply dict_in_keys in Hin. congruence.
  - unfold dict_values in *. rewrite map_app. cbn.
    apply NoDup_snoc; [exact Hv|]. intros Hin.
    apply in_map_iff in Hin. destruct Hin as [[nm id] [E Hin]].
    cbn in E. subst id. destruct (Hreg _ _ Hin) as [Hlt _]. lia.
  - intros nm id Hin. apply in_app_or in Hin.
    destruct Hin as [Hin|[[= <- <-]|[]]].
    + destruct (Hreg _ _ Hin) as [Hlt Hnm]. split; [lia|].
      destruct (Nat.eqb_spec id n); [lia | exact Hnm].
    + split; [lia|]. now rewrite Nat.eqb_refl.
  - exact Htab.
Qed.

Lemma start_eq (s : state) (nm : string) :
  _closed s = false ->
  start nm s
  = match dict_get nm (task_launches s) with
    | None =>
        (Raise (ArgumentError ("Invalid service requested: " ++ nm)), s)
    | Some t =>
        if dict_in nm (_subprocesses s) then (Ok tt, s)
        else (Ok tt, state_after_start t s)
    end.
Proof.
  destruct s as [tl closed subs ev objs n w tm tr]. cbn. intros ->.
  unfold start. cbn -[String.append].
  destruct (dict_get nm tl) as [t|]; [|reflexivity].
  cbn. destruct (dict_in nm subs); reflexivity.
Qed.

Lemma dict_in_set_same {V} (k : string) (v : V) (d : dict V) :
  dict_in k (dict_set k v d) = true.
Proof. unfold dict_in. now rewrite dict_get_set_same. Qed.

(** X2.  On an open group [start] fails for a name that is not in the task
    table, with ArgumentError and the group untouched.  For a name in the
    table it returns normally with the name registered; it changes nothing
    when the name was registered already, so starting twice is starting
    once; and it never touches the registration of another name. *)
Theorem start_known_or_not (s : state) (nm : string) :
  _closed s = false ->
  table_ok s ->
  (dict_get nm (task_launches s) = None ->
   start nm s
   = (Raise (ArgumentError ("Invalid service requested: " ++ nm)), s))
  /\ (forall t, dict_get nm (task_launches s) = Some t ->
      fst (start nm s) = Ok tt
      /\ dict_in nm (_subprocesses (exec (start nm) s)) = true
      /\ (dict_in nm (_subprocesses s) = true -> exec (start nm) s = s)
      /\ (dict_in nm (_subprocesses s) = false ->
          dict_get nm (_subprocesses (exec (start nm) s))
          = Some (allocated s)
          /\ objects (exec (start nm) s) (allocated s) = DrekarProcess_init t)
      /\ start nm (exec (start nm) s) = (Ok tt, exec (start nm) s)
      /\ (forall nm', nm' <> nm ->
          dict_get nm' (_subprocesses (exec (start nm) s))
          = dict_get nm' (_subprocesses s))).
Proof.
  intros Hopen Htab. split.
  - intros Hnone. rewrite (start_eq s nm Hopen), Hnone. reflexivity.
  - intros t Ht.
    assert (Hname : name t = nm) by (apply Htab; now apply dict_get_In).
    pose proof (start_eq s nm Hopen) as E. rewrite Ht in E.
    destruct (dict_in nm (_subprocesses s)) eqn:Hin.
    + unfold exec. rewrite E. cbn [fst snd].
      repeat apply conj; auto; try discriminate.
    + unfold exec. rewrite E. cbn [fst snd].
      assert (Hreg : dict_in nm (_subprocesses (state_after_start t s)) = true).
      { cbn. rewrite Hname. apply dict_in_set_same. }
      repeat apply conj; auto; try discriminate.
      * intros _. cbn. rewrite Hname, dict_get_set_same, Nat.eqb_refl. now split.
      * rewrite start_eq by (destruct s; exact Hopen).
        replace (task_launches (state_after_start t s)) with (task_launches s)
          by (destruct s; reflexivity).
        now rewrite Ht, Hreg.
      * intros nm' Hne. cbn. rewrite Hname. now apply dict_get_set_other.
Qed.

Lemma start_known_or_not_witness :
  start "b" failed_spawn_start
  = (Raise (ArgumentError "Invalid service requested: b"), failed_spawn_start).
Proof.
  refine (proj1 (start_known_or_not failed_spawn_start "b" eq_refl _) eq_refl).
  intros k t [[= <- <-]|[]]. reflexivity.
Defined.

Lemma dict_in_get {V} (k : string) (d : dict V) :
  dict_in k d = true <-> exists v, dict_get k d = Some v.
Proof.
  unfold dict_in. destruct (dict_get k d) as [v|].
  - split; [eauto | reflexivity].
  - split; [discriminate | intros [v H]; discriminate].
Qed.

(** One round of the loop of [start_all]. *)
Lemma start_round (ns : string * DrekarTask) (s : state) :
  (subs <- gets _subprocesses ;;
   when (negb (dict_in (fst ns) subs)) (_do_start (snd ns))) s
  = (Ok tt,
     if dict_in (fst ns) (_subprocesses s) then s
     else state_after_start (snd ns) s).
Proof.
  destruct s as [tl closed subs ev objs n w tm tr]. cbn.
  destruct (dict_in (fst ns) subs); reflexivity.
Qed.

Lemma start_loop (l : list (string * DrekarTask)) :
  (forall ns, In ns l -> name (snd ns) = fst ns) ->
  forall s,
    let r := for_each l
               (fun ns => subs <- gets _subprocesses ;;
                          when (negb (dict_in (fst ns) subs))
                            (_do_start (snd ns))) s in
    fst r = Ok tt
    /\ (forall nm id, dict_get nm (_subprocesses s) = Some id ->
                      dict_get nm (_subprocesses (snd r)) = Some id)
    /\ (forall ns, In ns l -> dict_in (fst ns) (_subprocesses (snd r)) = true)
    /\ (forall j, (j < allocated s)%nat -> objects (snd r) j = objects s j)
    /\ (allocated s <= allocated (snd r))%nat
    /\ trace (snd r) = trace s
    /\ _closed (snd r) = _closed s
    /\ task_launches (snd r) = task_launches s
    /\ exit_event (snd r) = exit_event s
    /\ (registry_ok s -> registry_ok (snd r)).
Proof.
  induction l as [|ns l IH]; intros Hl s; cbv zeta.
  - cbn. repeat apply conj; auto; intros ns [].
  - assert (Hl' : forall ns0, In ns0 l -> name (snd ns0) = fst ns0)
      by (intros; apply Hl; now right).
    pose proof (Hl ns (or_introl eq_refl)) as Hns.
    set (s1 := if dict_in (fst ns) (_subprocesses s) then s
               else state_after_start (snd ns) s).
    set (body := fun ns0 : string * DrekarTask =>
                   subs <- gets _subprocesses ;;
                   when (negb (dict_in (fst ns0) subs)) (_do_start (snd ns0)))
      in *.
    assert (Eq : for_each (ns :: l) body s = for_each l body s1).
    { cbn [for_each]. unfold bind at 1. subst body. cbv beta.
      rewrite start_round. reflexivity. }
    rewrite Eq. clear Eq.
    destruct (IH Hl' s1) as (H1 & H2 & H3 & H4 & H5 & H6 & H7 & H8 & H9 & H10).
    assert (Hstep :
      (forall nm id, dict_get nm (_subprocesses s) = Some id ->
                     dict_get nm (_subprocesses s1) = Some id)
      /\ dict_in (fst ns) (_subprocesses s1) = true
      /\ (forall j, (j < allocated s)%nat -> objects s1 j = objects s j)
      /\ (allocated s <= allocated s1)%nat
      /\ trace s1 = trace s /\ _closed s1 = _closed s
      /\ task_launches s1 = task_launches s
      /\ exit_event s1 = exit_event s
      /\ (registry_ok s -> registry_ok s1)).
    { subst s1. destruct (dict_in (fst ns) (_subprocesses s)) eqn:Hin.
      - repeat apply conj; auto.
      - destruct s as [tl closed subs ev objs n w tm tr]. cbn in *.
        repeat apply conj; try reflexivity.
        + intros nm id Hget. rewrite dict_get_set_other; [exact Hget|].
          intros ->. rewrite Hns in Hget. unfold dict_in in Hin.
          now rewrite Hget in Hin.
        + rewrite Hns. apply dict_in_set_same.
        + intros j Hj. destruct (Nat.eqb_spec j n); [lia | reflexivity].
        + lia.
        + intros Hok. apply (registry_ok_start (snd ns) _ Hok).
          cbn. now rewrite Hns. }
    destruct Hstep as (S1 & S2 & S3 & S4 & S5 & S6 & S7 & S8 & S9).
    repeat apply conj.
    + exact H1.
    + intros nm id Hget. apply H2. now apply S1.
    + intros ns0 [E|Hin]; [rewrite <- E | now apply H3].
      apply dict_in_get in S2. destruct S2 as [id Hid].
      apply dict_in_get. exists id. now apply H2.
    + intros j Hj. rewrite H4 by lia. now apply S3.
    + lia.
    + congruence.
    + congruence.
    + congruence.
    + congruence.
    + intros Hok. apply H10. now apply S9.
Qed.

Lemma start_loop_noop (l : list (string * DrekarTask)) (s : state) :
  (forall ns, In ns l -> dict_in (fst ns) (_subprocesses s) = true) ->
  for_each l
    (fun ns => subs <- gets _subprocesses ;;
               when (negb (dict_in (fst ns) subs)) (_do_start (snd ns))) s
  = (Ok tt, s).
Proof.
  induction l as [|ns l IH]; intros Hl; [reflexivity|].
  cbn [for_each]. unfold bind at 1. rewrite start_round.
  rewrite (Hl ns (or_introl eq_refl)). apply IH.
  intros; apply Hl; now right.
Qed.

(** X3.  [start_all] returns normally and leaves every name of the task
    table registered.  A name registered before keeps its object, the
    objects allocated before are untouched, nothing is printed and the
    closed flag is not consulted or changed; a second [start_all] changes
    nothing. *)
Theorem start_all_registers (s : state) :
  table_ok s ->
  let s' := exec start_all s in
  fst (start_all s) = Ok tt
  /\ (forall nm, dict_in nm (task_launches s) = true ->
                 dict_in nm (_subprocesses s') = true)
  /\ (forall nm id, dict_get nm (_subprocesses s) = Some id ->
                    dict_get nm (_subprocesses s') = Some id)
  /\ (forall j, (j < allocated s)%nat -> objects s' j = objects s j)
  /\ trace s' = trace s
  /\ _closed s' = _closed s
  /\ start_all s' = (Ok tt, s').
Proof.
  intros Htab.
  assert (Hl : forall ns, In ns (task_launches s) -> name (snd ns) = fst ns).
  { intros [k t] Hin. now apply Htab. }
  destruct (start_loop (task_launches s) Hl s)
    as (H1 & H2 & H3 & H4 & H5 & H6 & H7 & H8 & H9 & H10).
  assert (E : start_all s
              = for_each (task_launches s)
                  (fun ns => subs <- gets _subprocesses ;;
                             when (negb (dict_in (fst ns) subs))
                               (_do_start (snd ns))) s).
  { unfold start_all. reflexivity. }
  cbv zeta. unfold exec. rewrite E.
  repeat apply conj; auto.
  - intros nm Hnm. apply dict_in_keys in Hnm. apply in_map_iff in Hnm.
    destruct Hnm as [ns [<- Hin]]. now apply H3.
  - unfold start_all at 1. cbn [bind gets]. rewrite H8.
    apply start_loop_noop. exact H3.
Qed.

Lemma start_all_registers_witness :
  dict_in "a" (_subprocesses (exec start_all failed_spawn_start)) = true.
Proof.
  refine (proj1 (proj2 (start_all_registers failed_spawn_start _)) "a"%string
            eq_refl).
  intros k t [[= <- <-]|[]]. reflexivity.
Defined.

(** ** The registry is kept in order *)

Lemma filter_all {A} (l : list A) : filter (fun _ => true) l = l.
Proof. induction l as [|a l IH]; cbn; congruence. Qed.

Lemma filter_filter {A} (f g : A -> bool) (l : list A) :
  filter g (filter f l) = filter (fun x => f x && g x) l.
Proof.
  induction l as [|a l IH]; cbn; [reflexivity|].
  destruct (f a); cbn; [destruct (g a)|]; now rewrite IH.
Qed.

Lemma NoDup_map_filter {A B} (g : A -> B) (f : A -> bool) (l : list A) :
  NoDup (map g l) -> NoDup (map g (filter f l)).
Proof.
  induction l as [|a l IH]; cbn; [auto|].
  intros H. inversion H as [|? ? Hnin Hl]; subst.
  destruct (f a); cbn; [|now apply IH].
  constructor; [|now apply IH].
  intros Hin. apply Hnin. apply in_map_iff in Hin.
  destruct Hin as [x [E Hx]]. apply filter_In in Hx.
  apply in_map_iff. exists x. tauto.
Qed.

Lemma same_children_refl (s : state) : same_children s s.
Proof.
  repeat apply conj; auto. exists (fun _ => true). symmetry. apply filter_all.
Qed.

Lemma same_children_trans (s1 s2 s3 : state) :
  same_children s1 s2 -> same_children s2 s3 -> same_children s1 s3.
Proof.
  intros ([f Hf] & Ha & Ht & Ho) ([g Hg] & Ha' & Ht' & Ho').
  repeat apply conj.
  - exists (fun x => f x && g x). rewrite Hg, Hf. apply filter_filter.
  - congruence.
  - congruence.
  - intros j. now rewrite Ho', Ho.
Qed.

Lemma registry_ok_same_children (s s' : state) :
  registry_ok s -> same_children s s' -> registry_ok s'.
Proof.
  intros (Hk & Hv & Hreg & Htab) ([f Hf] & Ha & Ht & Ho).
  unfold registry_ok, dict_values in *. rewrite Hf, Ha, Ht.
  repeat apply conj.
  - now apply NoDup_map_filter.
  - now apply NoDup_map_filter.
  - intros nm id Hin. apply filter_In in Hin. destruct Hin as [Hin _].
    rewrite Ho. now apply Hreg.
  - exact Htab.
Qed.

(** What is left to show of [same_children] once a step is evaluated. *)
Ltac children_kept :=
  unfold same_children; cbn;
  repeat apply conj; try reflexivity;
  lazymatch goal with
  | |- exists _, _ =>
      first [ exists (fun _ => true); symmetry; apply filter_all
            | eexists; unfold dict_del; reflexivity ]
  | |- forall _, _ =>
      let j := fresh "j" in
      intros j;
      repeat match goal with
             | |- context [Nat.eqb j ?i] => destruct (Nat.eqb_spec j i); subst
             end;
      solve [reflexivity | congruence]
  end.

Lemma run_step_same_children (id : nat) (r : resume) (s : state) :
  same_children s (exec (run_step id r) s).
Proof.
  destruct s as [tl closed subs ev objs n w t tr].
  unfold run_step, on_exception, after_life, loop_head.
  eval_step; children_kept.
Qed.

Lemma close_guarded_same_children (id : nat) (s : state) :
  same_children s (exec (close_guarded id) s).
Proof.
  destruct s as [tl closed subs ev objs n w t tr].
  unfold close_guarded, close, do_send_term.
  eval_step; children_kept.
Qed.

Lemma kill_same_children (id : nat) (s : state) :
  same_children s (exec (kill id) s).
Proof.
  destruct s as [tl closed subs ev objs n w t tr].
  unfold kill. eval_step; children_kept.
Qed.

Lemma process_state_changed_same_children (nm : string) (st : ProcessState)
  (s : state) :
  same_children s (exec (process_state_changed nm st) s).
Proof.
  unfold exec. rewrite process_state_changed_eq.
  destruct s as [tl closed subs ev objs n w t tr]. cbn.
  destruct (closed && ProcessState_eqb st STOPPED); children_kept.
Qed.

Lemma for_each_same_children {A} (body : A -> M unit) :
  (forall x s, same_children s (exec (body x) s)) ->
  forall l s, same_children s (exec (for_each l body) s).
Proof.
  intros Hbody l s.
  apply (for_each_keeps (fun s' => same_children s s')).
  - intros x s0 H0. eapply same_children_trans; [exact H0 | apply Hbody].
  - apply same_children_refl.
Qed.

Lemma stop_all_same_children (s : state) :
  same_children s (exec stop_all s).
Proof.
  unfold stop_all, stop_all_with; fold close_guarded. rewrite exec_bind. cbn [gets].
  destruct (_closed s) eqn:E; [apply same_children_refl|].
  eapply same_children_trans;
    [|apply for_each_same_children; apply close_guarded_same_children].
  destruct s; children_kept.
Qed.

Lemma asyncio_sleep_same_children (ms : Z) (tk : tick) (s : state) :
  same_children s (exec (asyncio_sleep ms tk) s).
Proof.
  unfold asyncio_sleep. rewrite exec_bind.
  pose proof (for_each_same_children
                (fun ir => run_step (fst ir) (snd ir))
                (fun x s0 => run_step_same_children (fst x) (snd x) s0)
                (resumed tk) s) as K.
  unfold exec in K.
  destruct (for_each (resumed tk) _ s) as [[[]|e] s']; cbn [snd] in K;
    [|exact K].
  eapply same_children_trans; [exact K|]. destruct s'; children_kept.
Qed.

Lemma close_running_same_children (s : state) :
  same_children s (exec close_running s).
Proof.
  unfold close_running. rewrite exec_bind. cbn [gets].
  apply for_each_same_children. intros x s0.
  rewrite exec_bind. cbn [object gets].
  destruct (negb (stopped (objects s0 x)));
    [apply close_guarded_same_children | apply same_children_refl].
Qed.

Lemma kill_phase_same_children (s : state) :
  same_children s (exec kill_phase s).
Proof.
  unfold kill_phase. cbn. rewrite kill_loop. cbn.
  destruct (negb (Nat.eqb (count_running s) 0)); destruct s; children_kept.
Qed.

Lemma polling_same_children (ticks : nat -> tick) (t1 : Z) :
  forall fuel round t_last s s1,
    polling fuel ticks round t1 t_last s = Some s1 -> same_children s s1.
Proof.
  induction fuel as [|fuel IH]; intros round t_last s s1; [discriminate|].
  cbn [polling].
  destruct (now s - t1 >? 15000); [intros [= <-]; apply same_children_refl|].
  destruct (Nat.eqb (count_running s) 0);
    [intros [= <-]; apply same_children_refl|].
  pose proof (asyncio_sleep_same_children 100 (ticks round) s) as Hsleep.
  destruct (now s - t1 >? t_last + 1000); intros Hp; apply IH in Hp.
  - eapply same_children_trans; [exact Hsleep|].
    eapply same_children_trans; [apply close_running_same_children | exact Hp].
  - eapply same_children_trans; [exact Hsleep | exact Hp].
Qed.

Lemma NoDup_values_one_name (d : dict nat) (nm nm' : string) (id : nat) :
  NoDup (map fst d) -> NoDup (dict_values d) ->
  In (nm, id) d -> In (nm', id) d -> nm' = nm.
Proof.
  unfold dict_values. induction d as [|[k v] d IH]; cbn; [intros _ _ []|].
  intros Hk Hv. inversion Hk as [|? ? Hk1 Hk2]; inversion Hv as [|? ? Hv1 Hv2];
    subst.
  intros [E1|H1] [E2|H2].
  - congruence.
  - exfalso. inversion E1; subst. apply Hv1. apply in_map_iff.
    now exists (nm', id).
  - exfalso. inversion E2; subst. apply Hv1. apply in_map_iff.
    now exists (nm, id).
  - now apply IH.
Qed.

(** X4.  The registry stays in order.  Every method of the group, every
    step of a child's activity and the whole of [wait_all_stopped] keep it
    so that each name and each object is registered once, each registered
    object is allocated and carries the task of its name.  In particular an
    object is never registered under two names. *)
Theorem registry_kept (s : state) :
  registry_ok s ->
  registry_ok (exec start_all s)
  /\ (forall nm, registry_ok (exec (start nm) s))
  /\ registry_ok (exec stop_all s)
  /\ (forall nm st, registry_ok (exec (process_state_changed nm st) s))
  /\ (forall id r, registry_ok (exec (run_step id r) s))
  /\ (forall fuel ticks s',
        wait_all_stopped fuel ticks s = Some s' -> registry_ok s')
  /\ (forall nm nm' id,
        In (nm, id) (_subprocesses s) -> In (nm', id) (_subprocesses s) ->
        nm' = nm).
Proof.
  intros Hok.
  refine (conj _ (conj _ (conj _ (conj _ (conj _ (conj _ _)))))).
  - assert (Hl : forall ns, In ns (task_launches s) ->
                            name (snd ns) = fst ns).
    { intros [k t] Hin. destruct Hok as (_ & _ & _ & Htab). now apply Htab. }
    destruct (start_loop (task_launches s) Hl s)
      as (_ & _ & _ & _ & _ & _ & _ & _ & _ & H). now apply H.
  - intros nm. destruct (_closed s) eqn:E.
    + unfold exec. rewrite (start_fails_when_closed s nm E). exact Hok.
    + unfold exec. rewrite (start_eq s nm E).
      destruct (dict_get nm (task_launches s)) as [t|] eqn:Et; [|exact Hok].
      destruct (dict_in nm (_subprocesses s)) eqn:Ein; [exact Hok|].
      cbn [snd]. apply registry_ok_start; [exact Hok|].
      destruct Hok as (_ & _ & _ & Htab).
      rewrite (Htab nm t (dict_get_In _ _ _ Et)). exact Ein.
  - eapply registry_ok_same_children; [exact Hok|apply stop_all_same_children].
  - intros nm st. eapply registry_ok_same_children; [exact Hok|].
    apply process_state_changed_same_children.
  - intros id r. eapply registry_ok_same_children; [exact Hok|].
    apply run_step_same_children.
  - intros fuel ticks s'. unfold wait_all_stopped.
    destruct (polling fuel ticks 0 (now s) 0 s) as [s1|] eqn:E; [|discriminate].
    intros [= <-]. eapply registry_ok_same_children; [exact Hok|].
    eapply same_children_trans;
      [exact (polling_same_children _ _ _ _ _ _ _ E)
      | apply kill_phase_same_children].
  - intros nm nm' id H1 H2. destruct Hok as (Hk & Hv & _).
    exact (NoDup_values_one_name _ _ _ _ Hk Hv H1 H2).
Qed.

Lemma registry_kept_witness :
  registry_ok (exec stop_all (DrekarCore_init [sample_task "a" 0 false false]
                                posix_world)).
Proof.
  exact (proj1 (proj2 (proj2
    (registry_kept _
       (proj2 (proj2 (proj2 (proj2 (proj2
          (DrekarCore_init_table [sample_task "a" 0 false false]
             posix_world)))))))))).
Defined.

(** ** What [stop_all] does to the children *)

Lemma for_each_cons_ok {A} (body : A -> M unit) (x : A) (l : list A)
  (s : state) :
  fst (body x s) = Ok tt ->
  exec (for_each (x :: l) body) s = exec (for_each l body) (exec (body x) s).
Proof.
  intros Hok. cbn. destruct (body x s) as [[[]|e] s']; [reflexivity|].
  discriminate.
Qed.

Lemma close_guarded_keep_going (id j : nat) (s : state) :
  _keep_going (objects (exec (close_guarded id) s) j)
  = if Nat.eqb j id then false else _keep_going (objects s j).
Proof.
  destruct s as [tl closed subs ev objs n w t tr].
  unfold close_guarded, close, do_send_term.
  eval_step; same_object; try discriminate; reflexivity.
Qed.

(** [close] behind its guard leaves the rest of every object alone. *)
Lemma close_guarded_object (id j : nat) (s : state) :
  exit_status (objects (exec (close_guarded id) s) j)
  = exit_status (objects s j)
  /\ run_at (objects (exec (close_guarded id) s) j) = run_at (objects s j)
  /\ _process (objects (exec (close_guarded id) s) j) = _process (objects s j).
Proof.
  destruct s as [tl closed subs ev objs n w t tr].
  unfold close_guarded, close, do_send_term.
  eval_step; same_object; repeat apply conj; congruence.
Qed.

Lemma close_loop_keep_going (ids : list nat) (j : nat) :
  forall s,
    _keep_going (objects (exec (for_each ids close_guarded) s) j)
    = if existsb (Nat.eqb j) ids then false else _keep_going (objects s j).
Proof.
  induction ids as [|id ids IH]; intros s; [reflexivity|].
  rewrite for_each_cons_ok by apply close_guarded_ok.
  rewrite IH, close_guarded_keep_going. cbn [existsb].
  destruct (Nat.eqb j id); cbn; [|reflexivity].
  now destruct (existsb (Nat.eqb j) ids).
Qed.

(** X5.  [stop_all] on an open group clears the keep-going flag of every
    registered child, whether or not its soft stop could be sent, and of no
    other object; it deregisters nobody and leaves the exit status, the
    process and the suspension point of every object as they were. *)
Theorem stop_all_clears_keep_going (s : state) :
  _closed s = false ->
  let s' := exec stop_all s in
  (forall nm id, In (nm, id) (_subprocesses s) ->
                 _keep_going (objects s' id) = false)
  /\ (forall j, ~ In j (dict_values (_subprocesses s)) ->
                _keep_going (objects s' j) = _keep_going (objects s j))
  /\ _subprocesses s' = _subprocesses s
  /\ (forall j,
        exit_status (objects s' j) = exit_status (objects s j)
        /\ run_at (objects s' j) = run_at (objects s j)
        /\ _process (objects s' j) = _process (objects s j)).
Proof.
  intros Hopen.
  assert (E : exec stop_all s
              = exec (for_each (dict_values (_subprocesses s)) close_guarded)
                  (with_trace (trace s ++ [closed_assigned])
                     (with_closed true s))).
  { unfold stop_all, stop_all_with; fold close_guarded. cbn. rewrite Hopen. destruct s; reflexivity. }
  cbv zeta. rewrite E. clear E.
  set (s0 := with_trace (trace s ++ [closed_assigned]) (with_closed true s)).
  assert (H0 : _subprocesses s0 = _subprocesses s /\ objects s0 = objects s)
    by (destruct s; now split).
  destruct H0 as [Hs0 Ho0].
  repeat apply conj.
  - intros nm id Hin. rewrite close_loop_keep_going.
    replace (existsb (Nat.eqb id) (dict_values (_subprocesses s))) with true;
      [reflexivity|].
    symmetry. apply existsb_exists. exists id. split; [|apply Nat.eqb_refl].
    unfold dict_values. apply in_map_iff. now exists (nm, id).
  - intros j Hj. rewrite close_loop_keep_going, Ho0.
    destruct (existsb (Nat.eqb j) (dict_values (_subprocesses s))) eqn:Ex;
      [|reflexivity].
    apply existsb_exists in Ex. destruct Ex as [x [Hx Ejx]].
    apply Nat.eqb_eq in Ejx. subst x. contradiction.
  - rewrite <- Hs0.
    apply (for_each_keeps (fun s1 => _subprocesses s1 = _subprocesses s0));
      [|reflexivity].
    intros x s1 H1. destruct (close_guarded_frame x s1) as (_ & _ & Hsub & _).
    congruence.
  - intros j. rewrite <- Ho0.
    apply (for_each_keeps
             (fun s1 =>
                exit_status (objects s1 j) = exit_status (objects s0 j)
                /\ run_at (objects s1 j) = run_at (objects s0 j)
                /\ _process (objects s1 j) = _process (objects s0 j)));
      [|auto].
    intros x s1 (H1 & H2 & H3).
    destruct (close_guarded_object x j s1) as (G1 & G2 & G3).
    repeat apply conj; congruence.
Qed.

Lemma stop_all_clears_keep_going_witness :
  _keep_going (objects (exec stop_all one_running) 0) = false.
Proof.
  exact (proj1 (stop_all_clears_keep_going one_running eq_refl)
           "a"%string 0%nat (or_introl eq_refl)).
Defined.

(** ** A child that has been closed *)

Lemma run_step_keep_going (id id' : nat) (r : resume) (s : state) :
  _keep_going (objects (exec (run_step id' r) s) id)
  = _keep_going (objects s id).
Proof.
  destruct s as [tl closed subs ev objs n w t tr].
  unfold run_step, on_exception, after_life, loop_head.
  eval_step; same_object; try discriminate; congruence.
Qed.

Lemma kill_object (id j : nat) (s : state) :
  objects (exec (kill id) s) j = objects s j.
Proof.
  destruct s as [tl closed subs ev objs n w t tr].
  unfold kill. eval_step; reflexivity.
Qed.

Lemma closed_child_starts_no_life (id : nat) (r : resume) (s : state) :
  _keep_going (objects s id) = false ->
  existsb starts_life (step_effects id r s) = false.
Proof.
  destruct s as [tl closed subs ev objs n w t tr]. cbn. intros Hkg.
  unfold step_effects, run_step, on_exception, after_life, loop_head. cbn.
  rewrite Hkg. eval_step; try discriminate; reflexivity.
Qed.

Lemma closed_child_finishes (id : nat) (r : resume) (s : state) :
  _keep_going (objects s id) = false ->
  ends_life (run_at (objects s id)) r = true ->
  run_at (objects (exec (run_step id r) s) id) = Finished.
Proof.
  destruct s as [tl closed subs ev objs n w t tr]. cbn. intros Hkg.
  unfold run_step, on_exception, after_life, loop_head. cbn.
  rewrite Hkg.
  destruct (run_at (objs id)) eqn:Epc, r; cbn; try discriminate; intros _;
    eval_step; try discriminate; try reflexivity; congruence.
Qed.

Lemma keep_going_false_by_sleep (id : nat) (ms : Z) (tk : tick) (s : state) :
  _keep_going (objects s id) = false ->
  _keep_going (objects (exec (asyncio_sleep ms tk) s) id) = false.
Proof.
  intros Hkg. unfold asyncio_sleep. rewrite exec_bind.
  pose proof (for_each_keeps
    (fun s' => _keep_going (objects s' id) = false)
    (fun ir => run_step (fst ir) (snd ir))) as K.
  specialize (K (fun x s0 H0 =>
    eq_trans (run_step_keep_going id (fst x) (snd x) s0) H0)).
  specialize (K (resumed tk) s Hkg). cbn in K.
  destruct (for_each (resumed tk) _ s) as [[[]|e] s']; cbn in *; exact K.
Qed.

Lemma keep_going_false_by_close_running (id : nat) (s : state) :
  _keep_going (objects s id) = false ->
  _keep_going (objects (exec close_running s) id) = false.
Proof.
  intros Hkg. unfold close_running. rewrite exec_bind. cbn [gets].
  apply (for_each_keeps (fun s' => _keep_going (objects s' id) = false));
    [|exact Hkg].
  intros x s0 H0. rewrite exec_bind. cbn [object gets].
  destruct (negb (stopped (objects s0 x))); [|exact H0].
  cbn [when]. rewrite close_guarded_keep_going.
  now destruct (Nat.eqb id x).
Qed.

Lemma keep_going_by_kill_phase (id : nat) (s : state) :
  _keep_going (objects (exec kill_phase s) id) = _keep_going (objects s id).
Proof.
  unfold kill_phase. cbn. rewrite kill_loop. cbn.
  destruct (negb (Nat.eqb (count_running s) 0)); destruct s; reflexivity.
Qed.

Lemma keep_going_false_by_polling (id : nat) (ticks : nat -> tick) (t1 : Z) :
  forall fuel round t_last s s1,
    _keep_going (objects s id) = false ->
    polling fuel ticks round t1 t_last s = Some s1 ->
    _keep_going (objects s1 id) = false.
Proof.
  induction fuel as [|fuel IH]; intros round t_last s s1 Hkg; [discriminate|].
  cbn [polling].
  destruct (now s - t1 >? 15000); [now intros [= <-]|].
  destruct (Nat.eqb (count_running s) 0); [now intros [= <-]|].
  pose proof (keep_going_false_by_sleep id 100 (ticks round) s Hkg) as Hs.
  destruct (now s - t1 >? t_last + 1000); intros Hp; eapply IH in Hp; eauto.
  now apply keep_going_false_by_close_running.
Qed.

(** X6.  Once the keep-going flag of a child is cleared nothing sets it
    again: not an activity, not [kill], [close], [process_state_changed],
    [stop_all] or [wait_all_stopped].  From then on no step of the child's
    activity reports START_PENDING or spawns, and the step that ends the
    life under way finishes the activity. *)
Theorem closed_child_never_restarts (s : state) (id : nat) :
  _keep_going (objects s id) = false ->
  (forall id' r, _keep_going (objects (exec (run_step id' r) s) id) = false)
  /\ (forall id', _keep_going (objects (exec (kill id') s) id) = false)
  /\ (forall id', _keep_going (objects (exec (close_guarded id') s) id) = false)
  /\ (forall nm st,
        _keep_going (objects (exec (process_state_changed nm st) s) id) = false)
  /\ _keep_going (objects (exec stop_all s) id) = false
  /\ (forall fuel ticks s',
        wait_all_stopped fuel ticks s = Some s' ->
        _keep_going (objects s' id) = false)
  /\ (forall r, existsb starts_life (step_effects id r s) = false)
  /\ (forall r, ends_life (run_at (objects s id)) r = true ->
                run_at (objects (exec (run_step id r) s) id) = Finished).
Proof.
  intros Hkg. repeat apply conj.
  - intros id' r. now rewrite run_step_keep_going.
  - intros id'. now rewrite kill_object.
  - intros id'. rewrite close_guarded_keep_going.
    now destruct (Nat.eqb id id').
  - intros nm st. unfold exec. rewrite process_state_changed_eq.
    destruct s; exact Hkg.
  - unfold stop_all, stop_all_with; fold close_guarded. rewrite exec_bind. cbn [gets].
    destruct (_closed s); [exact Hkg|].
    apply (for_each_keeps (fun s' => _keep_going (objects s' id) = false)).
    + intros x s0 H0. rewrite close_guarded_keep_going.
      now destruct (Nat.eqb id x).
    + destruct s; exact Hkg.
  - intros fuel ticks s'. unfold wait_all_stopped.
    destruct (polling fuel ticks 0 (now s) 0 s) as [s1|] eqn:E; [|discriminate].
    intros [= <-]. pose proof (keep_going_by_kill_phase id s1) as K.
    unfold exec in K. rewrite K.
    exact (keep_going_false_by_polling id ticks _ _ _ _ _ _ Hkg E).
  - intros r. now apply closed_child_starts_no_life.
  - intros r. now apply closed_child_finishes.
Qed.

Lemma closed_child_never_restarts_witness :
  existsb starts_life (step_effects 0 Go (exec stop_all (one_started 500)))
  = false.
Proof.
  exact (proj1 (proj2 (proj2 (proj2 (proj2 (proj2 (proj2
    (closed_child_never_restarts (exec stop_all (one_started 500)) 0
       eq_refl))))))) Go).
Defined.

(** ** The exit status, the process and the exit event *)

Lemma run_step_exit_status (id id' : nat) (r : resume) (s : state) :
  exit_status (objects (exec (run_step id' r) s) id)
  = match run_at (objects s id'), r with
    | InWait, WaitDone returncode =>
        if Nat.eqb id id' then returncode else exit_status (objects s id)
    | _, _ => exit_status (objects s id)
    end.
Proof.
  destruct s as [tl closed subs ev objs n w t tr].
  unfold run_step, on_exception, after_life, loop_head.
  eval_step; same_object; try discriminate; congruence.
Qed.

(** X7.  The exit status of a child is written at one place only: when
    the wait for its process returns, with the return code.  No other step
    of any activity changes it (a spawn that raises or an error while
    draining leaves the status of the life before, -1 at first), nor do
    [close], [kill], [stop_all] and [process_state_changed]. *)
Theorem exit_status_written_once (s : state) (id : nat) :
  (forall returncode,
     run_at (objects s id) = InWait ->
     exit_status (objects (exec (run_step id (WaitDone returncode)) s) id)
     = returncode)
  /\ (forall id' r,
        id' <> id \/ run_at (objects s id) <> InWait
        \/ (forall returncode, r <> WaitDone returncode) ->
        exit_status (objects (exec (run_step id' r) s) id)
        = exit_status (objects s id))
  /\ (forall id', exit_status (objects (exec (close_guarded id') s) id)
                  = exit_status (objects s id))
  /\ (forall id', exit_status (objects (exec (kill id') s) id)
                  = exit_status (objects s id))
  /\ exit_status (objects (exec stop_all s) id) = exit_status (objects s id)
  /\ (forall nm st,
        exit_status (objects (exec (process_state_changed nm st) s) id)
        = exit_status (objects s id))
  /\ (forall t, exit_status (DrekarProcess_init t) = -1).
Proof.
  repeat apply conj.
  - intros rc Hpc. rewrite run_step_exit_status, Hpc, Nat.eqb_refl.
    reflexivity.
  - intros id' r H. rewrite run_step_exit_status.
    destruct (run_at (objects s id')) eqn:Epc; try reflexivity.
    destruct r; try reflexivity.
    destruct (Nat.eqb_spec id id') as [->|_]; [|reflexivity].
    destruct H as [H|[H|H]]; [congruence | congruence |].
    exfalso. now apply (H returncode).
  - intros id'. apply close_guarded_object.
  - intros id'. now rewrite kill_object.
  - unfold stop_all, stop_all_with; fold close_guarded. rewrite exec_bind. cbn [gets].
    destruct (_closed s); [reflexivity|].
    apply (for_each_keeps
             (fun s' => exit_status (objects s' id) = exit_status (objects s id))).
    + intros x s0 H0. destruct (close_guarded_object x id s0) as [G _].
      congruence.
    + destruct s; reflexivity.
  - intros nm st. unfold exec. rewrite process_state_changed_eq.
    destruct s; reflexivity.
  - reflexivity.
Qed.

Lemma run_step_process_ok (id : nat) (r : resume) (s : state) :
  (forall j, process_ok (objects s j)) ->
  forall j, process_ok (objects (exec (run_step id r) s) j).
Proof.
  intros Hall j. pose proof (Hall j) as Hj. pose proof (Hall id) as Hid.
  destruct s as [tl closed subs ev objs n w t tr].
  unfold process_ok, stopped, run_step, on_exception, after_life, loop_head
    in *.
  cbn in Hj, Hid.
  destruct (objs id) as [task kg proc att est pc] eqn:Eo. cbn in Hid.
  destruct pc, r; eval_step; same_object;
    repeat match goal with
           | H : objs ?i = _ |- context [objs ?i] => rewrite H
           | H : objs ?i = _, H' : context [objs ?i] |- _ => rewrite H in H'
           end; cbn in *; try discriminate; try reflexivity; congruence.
Qed.

Lemma close_guarded_process_ok (id : nat) (s : state) :
  (forall j, process_ok (objects s j)) ->
  forall j, process_ok (objects (exec (close_guarded id) s) j).
Proof.
  intros Hall j. unfold process_ok, stopped in *.
  destruct (close_guarded_object id j s) as (_ & Hpc & Hp).
  rewrite Hpc, Hp. apply Hall.
Qed.

Lemma close_running_process_ok (s : state) :
  (forall j, process_ok (objects s j)) ->
  forall j, process_ok (objects (exec close_running s) j).
Proof.
  intros Hall.
  change (exec close_running s)
    with (exec (for_each (dict_values (_subprocesses s))
                  (fun id => p <- object id ;;
                             when (negb (stopped p)) (close_guarded id))) s).
  apply (for_each_keeps (fun s' => forall j, process_ok (objects s' j)));
    [|exact Hall].
  intros x s0 H0. rewrite exec_bind. cbn [object gets].
  destruct (negb (stopped (objects s0 x))); [|exact H0].
  now apply close_guarded_process_ok.
Qed.

Lemma polling_process_ok (ticks : nat -> tick) (t1 : Z) :
  forall fuel round t_last s s1,
    (forall j, process_ok (objects s j)) ->
    polling fuel ticks round t1 t_last s = Some s1 ->
    forall j, process_ok (objects s1 j).
Proof.
  induction fuel as [|fuel IH]; intros round t_last s s1 Hall; [discriminate|].
  cbn [polling].
  destruct (now s - t1 >? 15000); [now intros [= <-]|].
  destruct (Nat.eqb (count_running s) 0); [now intros [= <-]|].
  assert (Hsleep : forall j,
            process_ok (objects (exec (asyncio_sleep 100 (ticks round)) s) j)).
  { unfold asyncio_sleep. rewrite exec_bind.
    pose proof (for_each_keeps
      (fun s' => forall j, process_ok (objects s' j))
      (fun ir => run_step (fst ir) (snd ir))
      (fun x s0 H0 => run_step_process_ok (fst x) (snd x) s0 H0)
      (resumed (ticks round)) s Hall) as K.
    cbn in K.
    destruct (for_each (resumed (ticks round)) _ s) as [[[]|e] s'];
      cbn in *; exact K. }
  destruct (now s - t1 >? t_last + 1000); intros Hp;
    (eapply IH; [|exact Hp]).
  - now apply close_running_process_ok.
  - exact Hsleep.
Qed.

(** X8.  A child holds a process exactly while its activity is in flight,
    that is, between a spawn that succeeded and the end of that life.  This
    holds of every new object and is kept by every method of the group, by
    every step of an activity and by [wait_all_stopped]; so the children
    that [wait_all_stopped] counts as not stopped are the registered
    children in flight, and [close] and [kill] never make a child
    stopped. *)
Theorem process_held_in_flight (s : state) :
  (forall j, process_ok (objects s j)) ->
  (forall id r j, process_ok (objects (exec (run_step id r) s) j))
  /\ (forall id j, process_ok (objects (exec (close_guarded id) s) j))
  /\ (forall id j, process_ok (objects (exec (kill id) s) j))
  /\ (forall j, process_ok (objects (exec start_all s) j))
  /\ (forall j, process_ok (objects (exec stop_all s) j))
  /\ (forall nm st j,
        process_ok (objects (exec (process_state_changed nm st) s) j))
  /\ (forall fuel ticks s',
        wait_all_stopped fuel ticks s = Some s' ->
        forall j, process_ok (objects s' j))
  /\ count_running s
     = List.length
         (filter (fun id => in_flight (run_at (objects s id)))
            (dict_values (_subprocesses s)))
  /\ (forall t, process_ok (DrekarProcess_init t)).
Proof.
  intros Hall. repeat apply conj.
  - intros id r. now apply run_step_process_ok.
  - intros id. now apply close_guarded_process_ok.
  - intros id j. rewrite kill_object. apply Hall.
  - change (exec start_all s)
      with (exec (for_each (task_launches s)
                    (fun ns => subs <- gets _subprocesses ;;
                               when (negb (dict_in (fst ns) subs))
                                 (_do_start (snd ns)))) s).
    apply (for_each_keeps (fun s' => forall j, process_ok (objects s' j)));
      [|exact Hall].
    intros ns s0 H0 j. unfold exec. rewrite start_round. cbn [snd].
    destruct (dict_in (fst ns) (_subprocesses s0)); [apply H0|].
    destruct s0 as [tl closed subs ev objs n w t tr]. cbn in *.
    destruct (Nat.eqb j n); [reflexivity | apply H0].
  - assert (E : exec stop_all s
                = if _closed s then s
                  else exec (for_each (dict_values (_subprocesses s))
                               close_guarded)
                         (with_trace (trace s ++ [closed_assigned])
                            (with_closed true s))).
    { unfold stop_all, stop_all_with; fold close_guarded. cbn. destruct (_closed s); destruct s; reflexivity. }
    rewrite E. destruct (_closed s); [exact Hall|].
    apply (for_each_keeps (fun s' => forall j, process_ok (objects s' j))).
    + intros x s0 H0. now apply close_guarded_process_ok.
    + destruct s; exact Hall.
  - intros nm st j. unfold exec. rewrite process_state_changed_eq.
    destruct s; apply Hall.
  - intros fuel ticks s'. unfold wait_all_stopped.
    destruct (polling fuel ticks 0 (now s) 0 s) as [s1|] eqn:E; [|discriminate].
    intros [= <-] j.
    pose proof (polling_process_ok ticks _ _ _ _ _ _ Hall E) as H1.
    unfold kill_phase. cbn. rewrite kill_loop. cbn.
    destruct (negb (Nat.eqb (count_running s1) 0)); destruct s1; apply H1.
  - unfold count_running. f_equal. apply filter_ext. intros id.
    rewrite (Hall id). apply negb_involutive.
  - intros t. reflexivity.
Qed.

Lemma process_held_in_flight_witness :
  process_ok (objects (exec (run_step 0 Go) failed_spawn_start) 0).
Proof.
  refine (proj1 (process_held_in_flight failed_spawn_start _) 0%nat Go 0%nat).
  intros j. destruct j; reflexivity.
Defined.

Lemma run_step_exit_event (id : nat) (r : resume) (s : state) :
  exit_event (exec (run_step id r) s)
  = exit_event s
    || (quit_on_terminate (task_launch (objects s id))
        && ends_life (run_at (objects s id)) r).
Proof.
  destruct s as [tl closed subs ev objs n w t tr].
  unfold run_step, on_exception, after_life, loop_head.
  eval_step; try discriminate;
    repeat match goal with H : _ = _ |- _ => rewrite H end; cbn;
    rewrite ?andb_false_r, ?andb_true_r, ?orb_false_r, ?orb_true_r;
    try reflexivity; destruct ev; reflexivity.
Qed.

(** X9.  The exit event is set by the group's own code at one place: the
    step that ends a life of a child marked quit-on-terminate, whether the
    process exited or the life ended in an error.  A child without the mark
    never sets it, and nothing clears it: not an activity, not [close],
    [kill], [stop_all], [start_all] or [process_state_changed]. *)
Theorem exit_event_set_by_quit (s : state) :
  (forall id r,
     exit_event (exec (run_step id r) s)
     = exit_event s
       || (quit_on_terminate (task_launch (objects s id))
           && ends_life (run_at (objects s id)) r))
  /\ (forall id r,
        quit_on_terminate (task_launch (objects s id)) = false ->
        exit_event (exec (run_step id r) s) = exit_event s)
  /\ (forall id r,
        quit_on_terminate (task_launch (objects s id)) = true ->
        ends_life (run_at (objects s id)) r = true ->
        exit_event (exec (run_step id r) s) = true
        /\ run_at (objects (exec (run_step id r) s) id) = Finished)
  /\ (forall id, exit_event (exec (close_guarded id) s) = exit_event s)
  /\ (forall id, exit_event (exec (kill id) s) = exit_event s)
  /\ exit_event (exec stop_all s) = exit_event s
  /\ (table_ok s -> exit_event (exec start_all s) = exit_event s)
  /\ (forall nm st,
        exit_event (exec (process_state_changed nm st) s) = exit_event s).
Proof.
  repeat apply conj.
  - intros id r. apply run_step_exit_event.
  - intros id r Hq. rewrite run_step_exit_event, Hq. apply orb_false_r.
  - intros id r Hq He. split.
    + rewrite run_step_exit_event, Hq, He. apply orb_true_r.
    + destruct s as [tl closed subs ev objs n w t tr]. cbn in *.
      unfold run_step, on_exception, after_life, loop_head. cbn.
      destruct (run_at (objs id)) eqn:Epc, r; cbn in He; try discriminate;
        cbn; rewrite ?Hq; eval_step; try discriminate; try reflexivity;
        congruence.
  - intros id. destruct s as [tl closed subs ev objs n w t tr].
    unfold close_guarded, close, do_send_term. eval_step; reflexivity.
  - intros id. destruct s as [tl closed subs ev objs n w t tr].
    unfold kill. eval_step; reflexivity.
  - assert (E : exec stop_all s
                = if _closed s then s
                  else exec (for_each (dict_values (_subprocesses s))
                               close_guarded)
                         (with_trace (trace s ++ [closed_assigned])
                            (with_closed true s))).
    { unfold stop_all, stop_all_with; fold close_guarded. cbn. destruct (_closed s); destruct s; reflexivity. }
    rewrite E. destruct (_closed s); [reflexivity|].
    apply (for_each_keeps (fun s' => exit_event s' = exit_event s)).
    + intros x s0 H0. rewrite <- H0.
      destruct s0 as [tl closed subs ev objs n w t tr].
      unfold close_guarded, close, do_send_term. eval_step; reflexivity.
    + destruct s; reflexivity.
  - intros Htab.
    assert (Hl : forall ns, In ns (task_launches s) ->
                            name (snd ns) = fst ns).
    { intros [k t] Hin. now apply Htab. }
    destruct (start_loop (task_launches s) Hl s)
      as (_ & _ & _ & _ & _ & _ & _ & _ & H & _). exact H.
  - intros nm st. unfold exec. rewrite process_state_changed_eq.
    destruct s; reflexivity.
Qed.

(** X10.  The restart decision.  The step that ends a life drops the
    process and leaves the activity waiting out the backoff exactly when
    the task has restart, has not quit-on-terminate, and the child has not
    been closed; in every other case the activity is finished.  When the
    backoff wait is over, a child still not closed reports START_PENDING
    and spawns again, and a child closed meanwhile finishes. *)
Theorem restart_decision (s : state) (id : nat) (r : resume) :
  ends_life (run_at (objects s id)) r = true ->
  let p := objects s id in
  let p' := objects (exec (run_step id r) s) id in
  _process p' = None
  /\ run_at p'
     = (if negb (quit_on_terminate (task_launch p))
           && restart (task_launch p) && _keep_going p
        then InBackoff else Finished)
  /\ (forall s1,
        run_at (objects s1 id) = InBackoff ->
        run_at (objects (exec (run_step id Go) s1) id)
        = (if _keep_going (objects s1 id) then InSpawn else Finished)
        /\ step_effects id Go s1
           = (if _keep_going (objects s1 id)
              then [StateChanged (name (task_launch (objects s1 id)))
                      START_PENDING;
                    spawn (program (task_launch (objects s1 id)))
                      (args (task_launch (objects s1 id)))]
              else [])).
Proof.
  intros He. cbv zeta. repeat apply conj.
  - destruct s as [tl closed subs ev objs n w t tr]. cbn in *.
    unfold run_step, on_exception, after_life, loop_head. cbn.
    destruct (run_at (objs id)) eqn:Epc, r; cbn in He; try discriminate;
      eval_step; reflexivity.
  - destruct s as [tl closed subs ev objs n w t tr]. cbn in *.
    unfold run_step, on_exception, after_life, loop_head. cbn.
    destruct (run_at (objs id)) eqn:Epc, r; cbn in He; try discriminate;
      eval_step; try discriminate;
      destruct (quit_on_terminate (task_launch (objs id))),
               (restart (task_launch (objs id))),
               (_keep_going (objs id));
      cbn in *; try discriminate; reflexivity.
  - intros s1 Hpc. destruct s1 as [tl closed subs ev objs n w t tr].
    cbn in *. unfold step_effects, run_step, loop_head. cbn. rewrite Hpc.
    eval_step; split; reflexivity.
Qed.

Lemma restart_decision_witness :
  ends_life (run_at (objects awaiting_exit 0)) (WaitDone 0) = true
  /\ run_at (objects (exec (run_step 0 (WaitDone 0)) awaiting_exit) 0)
     = InBackoff.
Proof.
  assert (H : ends_life (run_at (objects awaiting_exit 0)) (WaitDone 0)
              = true) by (vm_compute; reflexivity).
  split; [exact H|].
  destruct (restart_decision awaiting_exit 0 (WaitDone 0) H) as (_ & W & _).
  rewrite W. vm_compute. reflexivity.
Defined.

(** ** Draining the pipes *)

Lemma run_step_returns (id : nat) (r : resume) (s : state) :
  fst (run_step id r s) = Ok tt.
Proof.
  destruct s as [tl closed subs ev objs n w t tr].
  unfold run_step, on_exception, after_life, loop_head.
  eval_step; reflexivity.
Qed.

Lemma run_step_read (id : nat) (r : resume) (s : state) :
  is_read_done r = true ->
  run_at (objects (exec (run_step id r) s) id)
  = after_read (run_at (objects s id)) r
  /\ with_objects (objects s) (allocated s) (exec (run_step id r) s) = s
  /\ (forall j, set_run_at (run_at (objects s j))
                  (objects (exec (run_step id r) s) j) = objects s j).
Proof.
  intros Hr. destruct r; try discriminate.
  destruct s as [tl closed subs ev objs n w t tr]. cbn.
  unfold run_step, after_read. repeat apply conj.
  - eval_step; try discriminate; congruence.
  - eval_step; reflexivity.
  - intros j. eval_step; same_object;
      repeat match goal with
             | H : objs _ = _ |- _ => rewrite H
             | |- context [objs ?i] => destruct (objs i) eqn:?; cbn in *
             end; try discriminate; try reflexivity; congruence.
Qed.

Lemma after_read_waiting (rs : list resume) :
  fold_left after_read rs InWait = InWait.
Proof. induction rs as [|[] rs IH]; cbn; auto. Qed.

Lemma drained (rs : list resume) (out err : bool) :
  forallb is_read_done rs = true ->
  out || err = true ->
  fold_left after_read rs (InDrain out err)
  = if (negb out || saw_eof (map stdout_of rs))
       && (negb err || saw_eof (map stderr_of rs))
    then InWait
    else InDrain (out && negb (saw_eof (map stdout_of rs)))
           (err && negb (saw_eof (map stderr_of rs))).
Proof.
  revert out err. induction rs as [|r rs IH]; intros out err Hall Hoe.
  - cbn. destruct out, err; try discriminate; reflexivity.
  - cbn in Hall. apply andb_true_iff in Hall as [Hr Hall].
    destruct r as [| |o e| |]; try discriminate.
    cbn [fold_left after_read map stdout_of stderr_of saw_eof existsb].
    fold (saw_eof (map stdout_of rs)). fold (saw_eof (map stderr_of rs)).
    destruct (negb (read_task_after out o) && negb (read_task_after err e))
      eqn:Eb.
    + rewrite after_read_waiting.
      destruct out, err, o as [[|]|], e as [[|]|]; cbn in *;
        try discriminate; rewrite ?orb_true_r; reflexivity.
    + rewrite IH; [|exact Hall|].
      * destruct out, err, o as [[|]|], e as [[|]|]; cbn in *;
          try discriminate; reflexivity.
      * destruct out, err, o as [[|]|], e as [[|]|]; cbn in *;
          try discriminate; reflexivity.
Qed.

(** X11.  Draining the two pipes.  From the spawn on, whatever lines the
    read tasks return and in whatever order, the activity goes on to await
    the exit of the process exactly when each of the two pipes has
    returned an empty line (end of file); until then it keeps reading, from
    the pipes that have not.  Reading emits nothing and changes nothing of
    the group or of the child but the place its activity stands at. *)
Theorem drains_both_pipes (s : state) (id : nat) (rs : list resume) :
  run_at (objects s id) = InDrain true true ->
  forallb is_read_done rs = true ->
  let s' := exec (for_each rs (run_step id)) s in
  run_at (objects s' id)
  = (if saw_eof (map stdout_of rs) && saw_eof (map stderr_of rs)
     then InWait
     else InDrain (negb (saw_eof (map stdout_of rs)))
            (negb (saw_eof (map stderr_of rs))))
  /\ with_objects (objects s) (allocated s) s' = s
  /\ (forall j, set_run_at (run_at (objects s j)) (objects s' j)
                = objects s j).
Proof.
  intros Hpc Hall. cbv zeta.
  assert (G : forall rs s,
             forallb is_read_done rs = true ->
             let s' := exec (for_each rs (run_step id)) s in
             run_at (objects s' id)
             = fold_left after_read rs (run_at (objects s id))
             /\ with_objects (objects s) (allocated s) s' = s
             /\ (forall j, set_run_at (run_at (objects s j)) (objects s' j)
                           = objects s j)).
  { clear. induction rs as [|r rs IH]; intros s Hall; cbv zeta.
    - cbn. destruct s as [tl closed subs ev objs n w t tr]. cbn.
      repeat apply conj; try reflexivity.
      intros j. now destruct (objs j).
    - cbn in Hall. apply andb_true_iff in Hall as [Hr Hall].
      rewrite (for_each_cons_ok _ _ _ _ (run_step_returns id r s)).
      destruct (run_step_read id r s Hr) as (H1 & H2 & H3).
      destruct (IH (exec (run_step id r) s) Hall) as (I1 & I2 & I3).
      set (s1 := exec (run_step id r) s) in *.
      set (s2 := exec (for_each rs (run_step id)) s1) in *.
      repeat apply conj.
      + cbn [fold_left]. now rewrite I1, H1.
      + clearbody s1 s2. destruct s, s1, s2; cbn in *. congruence.
      + intros j. rewrite <- (H3 j). rewrite <- (I3 j).
        destruct (objects s2 j); reflexivity. }
  destruct (G rs s Hall) as (G1 & G2 & G3). repeat apply conj.
  - rewrite G1, Hpc, (drained rs true true Hall eq_refl). reflexivity.
  - exact G2.
  - exact G3.
Qed.

Lemma drains_both_pipes_witness :
  run_at (objects
            (exec (for_each [ReadDone (Some "line"%string) None;
                             ReadDone (Some EmptyString) (Some "e"%string);
                             ReadDone None (Some EmptyString)]
                     (run_step 0)) one_running) 0)
  = InWait.
Proof.
  exact (proj1 (drains_both_pipes one_running 0
                  [ReadDone (Some "line"%string) None;
                   ReadDone (Some EmptyString) (Some "e"%string);
                   ReadDone None (Some EmptyString)] eq_refl eq_refl)).
Defined.

(** ** Shutdown of a group with nothing left to stop *)

Lemma kill_phase_idle (s : state) :
  count_running s = 0%nat -> exec kill_phase s = s.
Proof.
  intros Hc. pose proof (count_running_pids s) as Hp. rewrite Hc in Hp.
  symmetry in Hp. apply length_zero_iff_nil in Hp.
  unfold kill_phase. cbn. rewrite kill_loop. cbn.
  fold (running_pids s). rewrite Hp, Hc. cbn.
  destruct s. cbn. now rewrite app_nil_r.
Qed.

(** X12.  [wait_all_stopped] on a group in which no registered child holds
    a process returns at once: it does not sleep, kills nothing, prints no
    notice and leaves the state as it is, whatever the clock reads.  When
    the children still running all stop during the first sleep, it returns
    after that one sleep, without a second [close] and without a kill. *)
Theorem wait_all_stopped_idle (fuel : nat) (ticks : nat -> tick)
  (s : state) :
  (count_running s = 0%nat ->
   wait_all_stopped (S fuel) ticks s = Some s)
  /\ (count_running s <> 0%nat ->
      count_running (exec (asyncio_sleep 100 (ticks 0%nat)) s) = 0%nat ->
      wait_all_stopped (S (S fuel)) ticks s
      = Some (exec (asyncio_sleep 100 (ticks 0%nat)) s)).
Proof.
  split.
  - intros Hc. unfold wait_all_stopped.
    assert (P : polling (S fuel) ticks 0 (now s) 0 s = Some s).
    { cbn [polling]. replace (now s - now s) with 0 by lia.
      rewrite Hc. reflexivity. }
    rewrite P. now rewrite kill_phase_idle.
  - intros Hc Hc1. unfold wait_all_stopped.
    set (s1 := exec (asyncio_sleep 100 (ticks 0%nat)) s) in *.
    assert (P : polling (S (S fuel)) ticks 0 (now s) 0 s = Some s1).
    { rewrite polling_round by (lia || assumption). cbv zeta.
      replace (now s - now s) with 0 by lia.
      change (0 >? 0 + 1000) with false. cbv iota. fold s1.
      cbn [polling]. rewrite Hc1.
      now destruct (now s1 - now s >? 15000). }
    rewrite P. now rewrite kill_phase_idle.
Qed.

Lemma wait_all_stopped_idle_witness :
  wait_all_stopped 2 exits_at_once exiting
  = Some (exec (asyncio_sleep 100 (exits_at_once 0%nat)) exiting).
Proof.
  apply (proj2 (wait_all_stopped_idle 0 exits_at_once exiting));
    vm_compute; [discriminate | reflexivity].
Defined.

(** ** The signals of a soft stop *)

Lemma find_message_hwnds_walk_in (pids : list Z) (ws : list (Z * Z))
  (hWnd : Z) :
  In hWnd (find_message_hwnds_walk pids ws) ->
  exists q, In q pids /\ In (hWnd, q) ws
            /\ In (PostMessageW hWnd WM_CLOSE) (simple_launch.message_walk q ws).
Proof.
  induction ws as [|[h q] ws IH]; cbn; [contradiction|].
  destruct (h =? 0) eqn:E0; [contradiction|].
  destruct (Z_in q pids) eqn:Ein.
  - intros [<-|Hin].
    + unfold Z_in in Ein. apply existsb_exists in Ein as (x & Hx & Hq).
      apply Z.eqb_eq in Hq. subst x. exists q.
      rewrite Z.eqb_refl. cbn. auto.
    + destruct (IH Hin) as (x & Hx & Hw & Hm). exists x.
      split; [exact Hx|]. split; [now right|].
      destruct (x =? q); [now right | exact Hm].
  - intros Hin. destruct (IH Hin) as (x & Hx & Hw & Hm). exists x.
    split; [exact Hx|]. split; [now right|].
    destruct (x =? q); [now right | exact Hm].
Qed.

Lemma find_main_hwnds_in (w : os_world) (pids : list Z) (main : list Z)
  (hWnd : Z) :
  _win32_find_main_hwnds w (pid_list pids) = Ok main ->
  In hWnd main ->
  exists q, hd_error pids = Some q /\ In (hWnd, q) (EnumWindows_calls w).
Proof.
  unfold _win32_find_main_hwnds. cbn.
  destruct pids as [|q pids]; [discriminate|].
  intros Hm Hin. exists q. split; [reflexivity|].
  assert (H : In hWnd (map fst (filter (fun wp => q =? snd wp)
                                  (EnumWindows_calls w)))).
  { destruct (negb (EnumWindows_result w)); injection Hm as <-;
      [exact Hin|]. apply filter_In in Hin. tauto. }
  apply in_map_iff in H as ([h q'] & Hh & Hf). cbn in Hh. subst h.
  apply filter_In in Hf as [Hf Hq]. cbn in Hq. apply Z.eqb_eq in Hq.
  now subst q'.
Qed.

(** X13.  A soft stop sends nothing but soft signals.  Every signal of
    [send_term], on any platform and at any attempt, is an interrupt to the
    process group of the child (off Windows), the close message to a window
    owned by a process of the child's job, or the console event 0 for the
    child or for a process of its job.  It never kills, and it never
    addresses a window or a process outside the job. *)
Theorem send_term_targets (w : os_world) (p : DrekarSubprocessImpl)
  (attempt : Z) (e : effect) :
  In e (snd (send_term w p attempt)) -> soft_signal w p e.
Proof.
  unfold send_term. destruct (sys_platform w) eqn:Hw.
  1: { destruct (attempt >? 3).
       - cbn. intros [<-|[]]. cbn. auto.
       - unfold win32_send_job_wm_close.
         destruct (job_process_ids w (_job_handle p)) as [pids|] eqn:Hjob;
           [|intros []].
         unfold win32_send_pid_wm_close, _win32_send_wm_close_hwnd_message.
         destruct (_win32_find_main_hwnds w (pid_list pids)) as [main|x]
           eqn:Hmain; [|intros []].
         cbn [snd]. intros Hin. apply in_app_or in Hin as [Hin|Hin].
         + apply in_map_iff in Hin as (h & <- & Hh). cbn.
           split; [exact Hw|]. split; [reflexivity|].
           destruct main as [|m main].
           * apply find_message_hwnds_walk_in in Hh as (q & Hq & Hwin & _).
             exists q. split; [now exists pids|]. now right.
           * destruct (find_main_hwnds_in w pids _ h Hmain Hh)
               as (q & Hq & Hwin).
             exists q. split; [|now left]. exists pids.
             split; [exact Hjob|]. destruct pids; inversion Hq. now left.
         + unfold _win32_send_ctrl_c_event in Hin. cbn in Hin.
           apply in_map_iff in Hin as (q & <- & Hq). cbn.
           split; [exact Hw|]. split; [reflexivity|]. right. now exists pids. }
  all: destruct (getpgid w (pid p)) as [g|] eqn:Hg; [|intros []];
    intros [<-|[]]; cbn; rewrite Hw; repeat split; congruence.
Qed.

Lemma send_term_targets_witness :
  soft_signal windows_world (sample_process 100) (PostMessageW 7 WM_CLOSE).
Proof.
  apply (send_term_targets windows_world (sample_process 100) 1).
  vm_compute. auto.
Defined.

Lemma posix_close_once (s : state) (id : nat) (sub : DrekarSubprocessImpl) :
  sys_platform (os s) <> win32 ->
  _process (objects s id) = Some sub ->
  let s1 := exec (close_guarded id) s in
  os s1 = os s
  /\ _process (objects s1 id) = Some sub
  /\ task_launch (objects s1 id) = task_launch (objects s id)
  /\ _keep_going (objects s1 id) = false
  /\ match getpgid (os s) (pid sub) with
     | Some pgid =>
         trace s1
         = trace s ++ [close_called (name (task_launch (objects s id)));
                       killpg pgid SIGINT]
         /\ _term_attempts (objects s1 id)
            = _term_attempts (objects s id) + 1
     | None =>
         trace s1
         = trace s ++ [close_called (name (task_launch (objects s id)))]
         /\ _term_attempts (objects s1 id) = _term_attempts (objects s id)
     end.
Proof.
  intros Hw Hp. destruct s as [tl closed subs ev objs n w t tr].
  cbn in Hw, Hp. cbv zeta.
  unfold close_guarded, close, do_send_term, send_term. cbn.
  rewrite Nat.eqb_refl. cbn. rewrite Hp. cbn.
  destruct (sys_platform w); [contradiction| |];
    (destruct (getpgid w (pid sub)) as [pgid|]; cbn;
     rewrite ?Nat.eqb_refl; cbn; rewrite <- ?app_assoc; cbn;
     repeat apply conj; reflexivity).
Qed.

(** X14.  Off Windows the escalation of the soft stop changes nothing of
    what is sent.  However often [close] is called on a child that holds a
    process, each call interrupts the same process group with the same
    signal and advances the attempt counter by one; when the process
    group of the child cannot be found, each call fails behind its guard,
    nothing is sent and the counter never advances. *)
Theorem posix_close_repeats (s : state) (id : nat)
  (sub : DrekarSubprocessImpl) (n : nat) :
  sys_platform (os s) <> win32 ->
  _process (objects s id) = Some sub ->
  let s' := exec (for_each (repeat id n) close_guarded) s in
  let nm := name (task_launch (objects s id)) in
  (forall pgid,
     getpgid (os s) (pid sub) = Some pgid ->
     trace s'
     = trace s ++ concat (repeat [close_called nm; killpg pgid SIGINT] n)
     /\ _term_attempts (objects s' id)
        = _term_attempts (objects s id) + Z.of_nat n)
  /\ (getpgid (os s) (pid sub) = None ->
      trace s' = trace s ++ repeat (close_called nm) n
      /\ _term_attempts (objects s' id) = _term_attempts (objects s id))
  /\ _process (objects s' id) = Some sub
  /\ (n <> 0%nat -> _keep_going (objects s' id) = false).
Proof.
  revert s. induction n as [|n IH]; intros s Hw Hp; cbv zeta.
  - cbn. rewrite !app_nil_r, Z.add_0_r. repeat apply conj; auto.
    intros H. now contradiction H.
  - cbn [repeat].
    rewrite (for_each_cons_ok _ _ _ _ (close_guarded_ok id s)).
    destruct (posix_close_once s id sub Hw Hp)
      as (Hos & Hp1 & Htask & Hkg & Hone).
    set (s1 := exec (close_guarded id) s) in *.
    assert (Hw1 : sys_platform (os s1) <> win32) by now rewrite Hos.
    destruct (IH s1 Hw1 Hp1) as (Hsome & Hnone & Hproc & Hflag).
    rewrite Hos, Htask in Hsome, Hnone. repeat apply conj.
    + intros pgid Hg. rewrite Hg in Hone. destruct Hone as [Htr Hat].
      destruct (Hsome pgid Hg) as [Htr' Hat'].
      rewrite Htr', Htr, Hat', Hat. cbn [concat repeat].
      rewrite <- !app_assoc. split; [reflexivity | lia].
    + intros Hg. rewrite Hg in Hone. destruct Hone as [Htr Hat].
      destruct (Hnone Hg) as [Htr' Hat'].
      rewrite Htr', Htr, Hat', Hat. cbn [repeat].
      rewrite <- !app_assoc. split; reflexivity.
    + exact Hproc.
    + intros _. destruct n as [|n]; [exact Hkg | now apply Hflag].
Qed.

Lemma posix_close_repeats_witness :
  _term_attempts
    (objects (exec (for_each (repeat 0%nat 3) close_guarded) one_running) 0)
  = _term_attempts (objects one_running 0) + Z.of_nat 3.
Proof.
  assert (Hw : sys_platform (os one_running) <> win32)
    by (vm_compute; discriminate).
  destruct (posix_close_repeats one_running 0 (sample_process 100) 3
              Hw eq_refl) as (Hsome & _).
  exact (proj2 (Hsome 100 eq_refl)).
Defined.

(** X15.  The older launcher against the newer one, on Windows at an
    attempt up to 3.  The older one posts the close message to every
    message-only window and every window EnumWindows reports of every
    process of the job, never raises, and uses console event 1; the newer
    one uses event 0, raises on an empty job, and every window it posts
    the close message to is one the older launcher posts it to as well. *)
Theorem newer_posts_to_fewer_windows (w : os_world)
  (p : DrekarSubprocessImpl) (attempt : Z) :
  sys_platform w = win32 -> attempt <= 3 ->
  fst (simple_launch.send_term w p attempt) = Ok tt
  /\ (forall hWnd msg,
        In (PostMessageW hWnd msg) (snd (send_term w p attempt)) ->
        In (PostMessageW hWnd msg)
          (snd (simple_launch.send_term w p attempt)))
  /\ (forall pids q hWnd,
        job_process_ids w (_job_handle p) = Some pids -> In q pids ->
        In (hWnd, q) (EnumWindows_calls w) ->
        In (PostMessageW hWnd WM_CLOSE)
          (snd (simple_launch.send_term w p attempt)))
  /\ (forall ctrl_event q,
        (In (GenerateConsoleCtrlEvent ctrl_event q)
           (snd (simple_launch.send_term w p attempt)) -> ctrl_event = 1)
        /\ (In (GenerateConsoleCtrlEvent ctrl_event q)
              (snd (send_term w p attempt)) -> ctrl_event = 0))
  /\ (job_process_ids w (_job_handle p) = Some [] ->
      send_term w p attempt = (Raise IndexError, [])
      /\ simple_launch.send_term w p attempt = (Ok tt, [])).
Proof.
  intros Hw Hle. unfold send_term, simple_launch.send_term. rewrite Hw.
  destruct (Z.gtb_spec attempt 3) as [|_]; [lia|].
  unfold win32_send_job_wm_close, simple_launch.win32_send_job_wm_close.
  repeat apply conj.
  - reflexivity.
  - intros hWnd msg.
    destruct (job_process_ids w (_job_handle p)) as [pids|] eqn:Hjob;
      [|intros []].
    unfold win32_send_pid_wm_close, _win32_send_wm_close_hwnd_message.
    destruct (_win32_find_main_hwnds w (pid_list pids)) as [main|x]
      eqn:Hmain; [|intros []].
    cbn [snd]. intros Hin. apply in_app_or in Hin as [Hin|Hin].
    + apply in_map_iff in Hin as (h & [= <- <-] & Hh).
      apply in_flat_map. unfold simple_launch.win32_send_pid_wm_close.
      destruct main as [|m main].
      * apply find_message_hwnds_walk_in in Hh as (q & Hq & _ & Hm).
        exists q. split; [exact Hq|]. apply in_or_app. now left.
      * destruct (find_main_hwnds_in w pids _ h Hmain Hh)
          as (q & Hq & Hwin).
        exists q. split; [destruct pids; inversion Hq; now left|].
        apply in_or_app. right. apply in_or_app. left.
        unfold simple_launch._win32_send_pid_wm_close_hwnd_main.
        apply in_map_iff. exists (h, q). split; [reflexivity|].
        apply filter_In. split; [exact Hwin|]. cbn. apply Z.eqb_refl.
    + unfold _win32_send_ctrl_c_event in Hin. cbn in Hin.
      apply in_map_iff in Hin as (q & [=] & _).
  - intros pids q hWnd Hjob Hq Hwin. rewrite Hjob. cbn [snd].
    apply in_flat_map. exists q. split; [exact Hq|].
    unfold simple_launch.win32_send_pid_wm_close.
    apply in_or_app. right. apply in_or_app. left.
    unfold simple_launch._win32_send_pid_wm_close_hwnd_main.
    apply in_map_iff. exists (hWnd, q). split; [reflexivity|].
    apply filter_In. split; [exact Hwin|]. cbn. apply Z.eqb_refl.
  - intros ctrl_event q. split; intros Hin.
    + destruct (job_process_ids w (_job_handle p)) as [pids|];
        [|destruct Hin].
      cbn [snd] in Hin. apply in_flat_map in Hin as (x & _ & Hin).
      unfold simple_launch.win32_send_pid_wm_close in Hin.
      apply in_app_or in Hin as [Hin|Hin].
      { unfold simple_launch._win32_send_pid_wm_close_hwnd_message in Hin.
        induction (message_only_windows w) as [|[h q'] ws IH]; cbn in Hin;
          [destruct Hin|].
        destruct (h =? 0); [destruct Hin|].
        destruct (x =? q'); [destruct Hin as [[=]|Hin]|]; auto. }
      apply in_app_or in Hin as [Hin|Hin].
      { unfold simple_launch._win32_send_pid_wm_close_hwnd_main in Hin.
        apply in_map_iff in Hin as (? & [=] & _). }
      destruct Hin as [[= <- _]|[]]. reflexivity.
    + destruct (job_process_ids w (_job_handle p)) as [pids|];
        [|destruct Hin].
      unfold win32_send_pid_wm_close, _win32_send_wm_close_hwnd_message
        in Hin.
      destruct (_win32_find_main_hwnds w (pid_list pids)) as [main|x];
        [|destruct Hin].
      cbn [snd] in Hin. apply in_app_or in Hin as [Hin|Hin].
      * apply in_map_iff in Hin as (? & [=] & _).
      * unfold _win32_send_ctrl_c_event in Hin.
        apply in_map_iff in Hin as (? & [= <- _] & _). reflexivity.
  - intros Hjob. rewrite Hjob. split; reflexivity.
Qed.

Lemma newer_posts_to_fewer_windows_witness :
  In (PostMessageW 7 WM_CLOSE)
    (snd (simple_launch.send_term windows_world (sample_process 100) 1)).
Proof.
  apply (proj1 (proj2
    (newer_posts_to_fewer_windows windows_world (sample_process 100) 1
       eq_refl ltac:(lia)))).
  vm_compute. auto.
Defined.

(** ** The loader: environment, program and arguments of a task *)

Lemma dict_update_lookup {V} (k : string) (other : dict V) :
  forall d,
    dict_get k (dict_update d other)
    = match dict_get k (rev other) with
      | Some v => Some v
      | None => dict_get k d
      end.
Proof.
  unfold dict_update.
  induction other as [|[k' v] other IH] using rev_ind; intros d.
  - reflexivity.
  - rewrite fold_left_app, rev_app_distr. cbn.
    destruct (String.eqb_spec k k') as [->|Hne].
    + apply dict_get_set_same.
    + rewrite dict_get_set_other by exact Hne. apply IH.
Qed.

(** X16.  Without an env-file, the environment of a loaded task is the
    launcher's environment updated with the task's [environment] mapping:
    a variable of the mapping has the mapping's value, every other
    variable the launcher's, and no other variable is defined. *)
Theorem environment_merge (h : host) (y : yaml_task) (cwd0 : string)
  (t : DrekarTask) :
  y_env_file y = None ->
  parse_task_launch_from_yaml h y cwd0 = Ok t ->
  forall k,
    dict_get k (environment t)
    = match dict_get k (rev (get_default (y_environment y) [])) with
      | Some v => Some v
      | None => dict_get k (os_environ h)
      end.
Proof.
  intros Hf. unfold parse_task_launch_from_yaml. rewrite Hf.
  destruct (y_name y); [|discriminate].
  destruct (y_program y) as [prog|]; [|discriminate]. cbv zeta.
  destruct (String.eqb (Path_name h prog) prog).
  - destruct (dict_get "PATH" _); [|discriminate].
    destruct (shutil_which h prog s0); [|discriminate].
    intros [= <-] k. cbn. apply dict_update_lookup.
  - intros [= <-] k. cbn. apply dict_update_lookup.
Qed.

Lemma environment_merge_witness :
  dict_get "HOME" (environment sample_loaded_plain) = Some "/srv"%string.
Proof.
  exact (environment_merge sample_host sample_yaml_plain "."
           sample_loaded_plain eq_refl eq_refl "HOME"%string).
Defined.

(** X17.  How the program of a task is resolved.  A program given with a
    directory part is taken as it is.  A bare program name is looked up
    along the PATH of the task's own environment, the one the child will
    get: with an env-file that defines no PATH the load fails on the
    missing key whatever PATH the launcher itself has, and a name that is
    not found fails the load.  The name and the program keys are
    required, and are checked in this order before anything else. *)
Theorem program_resolution (h : host) (y : yaml_task) (cwd0 : string)
  (name0 program0 : string) :
  y_name y = Some name0 -> y_program y = Some program0 ->
  (forall t, parse_task_launch_from_yaml h y cwd0 = Ok t ->
     name t = name0
     /\ if String.eqb (Path_name h program0) program0
        then exists path,
               dict_get "PATH" (environment t) = Some path
               /\ shutil_which h program0 path = Some (program t)
        else program t = program0)
  /\ (forall f text,
        y_env_file y = Some f -> file_text h f = Some text ->
        dict_get "PATH" (env_from_file text) = None ->
        Path_name h program0 = program0 ->
        parse_task_launch_from_yaml h y cwd0 = Raise (KeyError "PATH"))
  /\ (forall f,
        y_env_file y = Some f -> file_text h f = None ->
        parse_task_launch_from_yaml h y cwd0 = Raise FileNotFoundError)
  /\ (forall y', y_name y' = None ->
        parse_task_launch_from_yaml h y' cwd0 = Raise (KeyError "name"))
  /\ (forall y', y_name y' <> None -> y_program y' = None ->
        parse_task_launch_from_yaml h y' cwd0 = Raise (KeyError "program")).
Proof.
  intros Hn Hp. repeat apply conj.
  - intros t. unfold parse_task_launch_from_yaml. rewrite Hn, Hp. cbv zeta.
    destruct (match y_env_file y with
              | Some env_file => _
              | None => _
              end) as [env|e]; [|discriminate].
    destruct (String.eqb (Path_name h program0) program0).
    + destruct (dict_get "PATH" env) as [path|] eqn:Hpath; [|discriminate].
      destruct (shutil_which h program0 path) as [prog|] eqn:Hwhich;
        [|discriminate].
      intros [= <-]. cbn. split; [reflexivity|]. exists path. now split.
    + intros [= <-]. cbn. now split.
  - intros f text Hf Htext Hpath Hbare.
    unfold parse_task_launch_from_yaml. rewrite Hn, Hp, Hf, Htext. cbv zeta.
    rewrite Hbare, String.eqb_refl, Hpath. reflexivity.
  - intros f Hf Htext.
    unfold parse_task_launch_from_yaml. now rewrite Hn, Hp, Hf, Htext.
  - intros y' Hn'. unfold parse_task_launch_from_yaml. now rewrite Hn'.
  - intros y' Hn' Hp'. unfold parse_task_launch_from_yaml.
    destruct (y_name y'); [|contradiction]. now rewrite Hp'.
Qed.

Lemma program_resolution_witness :
  name sample_loaded = "srv"%string
  /\ exists path,
       dict_get "PATH" (environment sample_loaded) = Some path
       /\ shutil_which sample_host "server" path
          = Some (program sample_loaded).
Proof.
  exact (proj1 (program_resolution sample_host sample_yaml "."
                  "srv" "server" eq_refl eq_refl)
           sample_loaded eq_refl).
Defined.

Lemma split_whitespace_words (s : string) :
  forall word,
    has_space word = false ->
    Forall is_word (split_whitespace word s).
Proof.
  assert (Happ : forall w c, has_space w = false -> isspace c = false ->
                             has_space (w ++ String c EmptyString) = false).
  { induction w as [|a w IH]; intros c Hw Hc; cbn in *.
    - now rewrite Hc.
    - apply orb_false_iff in Hw as [Ha Hw]. rewrite Ha. cbn. now apply IH. }
  induction s as [|c s IH]; intros word Hw; cbn.
  - destruct word; cbn; constructor; [|constructor].
    split; [discriminate | exact Hw].
  - destruct (isspace c) eqn:Hc.
    + destruct word; cbn; [now apply IH|].
      constructor; [split; [discriminate | exact Hw] | now apply IH].
    + apply IH. now apply Happ.
Qed.

Lemma split_whitespace_one (s : string) :
  forall word,
    has_space s = false -> (word ++ s)%string <> EmptyString ->
    split_whitespace word s = [(word ++ s)%string].
Proof.
  induction s as [|c s IH]; intros word Hs Hne; cbn in *.
  - assert (E : (word ++ "")%string = word).
    { clear. induction word; cbn; congruence. }
    rewrite E in *. destruct word; [contradiction | reflexivity].
  - apply orb_false_iff in Hs as [Hc Hs]. rewrite Hc.
    assert (E : ((word ++ String c "") ++ s)%string
                = (word ++ String c s)%string).
    { clear. induction word; cbn; congruence. }
    rewrite IH, E; [reflexivity | exact Hs |].
    rewrite E. clear. destruct word; discriminate.
Qed.

(** X18.  The arguments of a loaded task.  When [args] is a string it is
    cut at white space: no argument is empty and none contains white
    space; a string without white space is one argument, and a blank
    string gives none.  A list is taken
    as it is, and an absent key gives no arguments. *)
Theorem loaded_args (h : host) (y : yaml_task) (cwd0 : string)
  (t : DrekarTask) :
  parse_task_launch_from_yaml h y cwd0 = Ok t ->
  (forall s, y_args y = Some (args_str s) ->
     Forall is_word (args t)
     /\ (has_space s = false -> s <> EmptyString -> args t = [s])
     /\ (strip s = EmptyString -> args t = []))
  /\ (forall l, y_args y = Some (args_list l) -> args t = l)
  /\ (y_args y = None -> args t = []).
Proof.
  intros Hparse.
  assert (Hargs :
    args t = match y_args y with
             | None => []
             | Some (args_str s) => split_whitespace EmptyString s
             | Some (args_scalar r) => [r]
             | Some (args_list l) => l
             end).
  { revert Hparse. unfold parse_task_launch_from_yaml.
    destruct (y_name y); [|discriminate].
    destruct (y_program y) as [prog|]; [|discriminate]. cbv zeta.
    destruct (match y_env_file y with
              | Some env_file => _
              | None => _
              end) as [env|e]; [|discriminate].
    destruct (String.eqb (Path_name h prog) prog).
    - destruct (dict_get "PATH" env); [|discriminate].
      destruct (shutil_which h prog s0); [|discriminate].
      now intros [= <-].
    - now intros [= <-]. }
  repeat apply conj.
  - intros s Hs. rewrite Hargs, Hs. repeat apply conj.
    + now apply split_whitespace_words.
    + intros Hsp Hne. now apply (split_whitespace_one s EmptyString).
    + intros Hblank. clear - Hblank.
      assert (G : forall s, lstrip s = EmptyString ->
                            split_whitespace EmptyString s = []).
      { clear. induction s as [|c s IH]; cbn; [reflexivity|].
        destruct (isspace c); [exact IH | discriminate]. }
      apply G. unfold strip in Hblank.
      destruct (lstrip s) as [|c s'] eqn:E; [reflexivity|].
      exfalso. revert Hblank.
      assert (Hc : isspace c = false).
      { clear - E. induction s as [|a s IH]; cbn in E; [discriminate|].
        destruct (isspace a) eqn:Ea; [now apply IH|]. congruence. }
      cbn. destruct (rstrip s'); [rewrite Hc|]; discriminate.
  - intros l Hl. now rewrite Hargs, Hl.
  - intros Hnone. now rewrite Hargs, Hnone.
Qed.

Lemma loaded_args_witness :
  Forall is_word (args sample_loaded).
Proof.
  exact (proj1 (proj1 (loaded_args sample_host sample_yaml "."
                         sample_loaded eq_refl)
                  "--port 80"%string eq_refl)).
Defined.

(** ** The loader: the launch document *)

Lemma parse_tasks_spec (h : host) (cwd0 : string) (ys : list yaml_task) :
  forall acc,
    (forall ts,
       parse_tasks h ys cwd0 acc = Ok ts <->
       exists new,
         ts = acc ++ new
         /\ Forall2 (fun y t => parse_task_launch_from_yaml h y cwd0 = Ok t)
              ys new)
    /\ (forall e,
          parse_tasks h ys cwd0 acc = Raise e <->
          exists pre y post,
            ys = pre ++ y :: post
            /\ Forall (fun y' => exists t,
                         parse_task_launch_from_yaml h y' cwd0 = Ok t) pre
            /\ parse_task_launch_from_yaml h y cwd0 = Raise e).
Proof.
  induction ys as [|y ys IH]; intros acc; cbn [parse_tasks].
  - split.
    + intros ts. split.
      * intros [= <-]. exists []. rewrite app_nil_r. split; constructor.
      * intros (new & -> & HF). inversion HF. now rewrite app_nil_r.
    + intros e. split; [discriminate|].
      intros (pre & y & post & E & _). now destruct pre.
  - destruct (parse_task_launch_from_yaml h y cwd0) as [t|e0] eqn:Ey.
    + destruct (IH (acc ++ [t])) as [IHok IHerr]. split.
      * intros ts. rewrite IHok. split.
        -- intros (new & -> & HF). exists (t :: new).
           rewrite <- app_assoc. split; [reflexivity|]. now constructor.
        -- intros (new & -> & HF). inversion HF as [|? t' ? new' Ht HF'].
           subst. assert (t' = t) by congruence. subst t'.
           exists new'. rewrite <- app_assoc. now split.
      * intros e. rewrite IHerr. split.
        -- intros (pre & y' & post & -> & HF & He).
           exists (y :: pre), y', post. split; [reflexivity|].
           split; [|exact He]. constructor; [now exists t | exact HF].
        -- intros (pre & y' & post & E & HF & He).
           destruct pre as [|y0 pre]; cbn in E; injection E as <- ->.
           ++ congruence.
           ++ exists pre, y', post. split; [reflexivity|].
              split; [now inversion HF | exact He].
    + split.
      * intros ts. split; [discriminate|].
        intros (new & _ & HF). inversion HF. congruence.
      * intros e. split.
        -- intros [= <-]. exists [], y, ys. now repeat split.
        -- intros (pre & y' & post & E & HF & He).
           destruct pre as [|y0 pre]; cbn in E; injection E as <- ->.
           ++ congruence.
           ++ inversion HF as [|? ? [t Ht] ?]. congruence.
Qed.

(** X19.  Loading a launch document is all or nothing.  It succeeds
    exactly when every task of the list loads, and then returns the
    document's name with the loaded tasks, one per entry and in the order
    of the document.  Otherwise it raises what the first task that fails
    to load raises, and the tasks after that one are not looked at.  A
    document without the [tasks] key raises on that key. *)
Theorem document_all_or_nothing (h : host) (d : yaml_document)
  (cwd0 : string) (ys : list yaml_task) :
  doc_tasks d = Some ys ->
  (forall nm ts,
     parse_task_launches_from_yaml_dict h d cwd0 = Ok (nm, ts) <->
     nm = doc_name d
     /\ Forall2 (fun y t => parse_task_launch_from_yaml h y cwd0 = Ok t)
          ys ts)
  /\ (forall e,
        parse_task_launches_from_yaml_dict h d cwd0 = Raise e <->
        exists pre y post,
          ys = pre ++ y :: post
          /\ Forall (fun y' => exists t,
                       parse_task_launch_from_yaml h y' cwd0 = Ok t) pre
          /\ parse_task_launch_from_yaml h y cwd0 = Raise e)
  /\ (forall d', doc_tasks d' = None ->
        parse_task_launches_from_yaml_dict h d' cwd0
        = Raise (KeyError "tasks")).
Proof.
  intros Hd. destruct (parse_tasks_spec h cwd0 ys []) as [Hok Herr].
  unfold parse_task_launches_from_yaml_dict. rewrite Hd.
  repeat apply conj.
  - intros nm ts. destruct (parse_tasks h ys cwd0 []) as [ts0|e0].
    + split.
      * intros [= <- <-]. split; [reflexivity|].
        destruct (proj1 (Hok ts0) eq_refl) as (new & -> & HF). exact HF.
      * intros [-> HF]. f_equal. f_equal.
        assert (E : Ok ts0 = Ok ts :> outcome (list DrekarTask));
          [|congruence].
        apply Hok. now exists ts.
    + split; [discriminate|]. intros [_ HF].
      assert (E : Raise e0 = Ok ts :> outcome (list DrekarTask));
        [|discriminate].
      apply Hok. now exists ts.
  - intros e. rewrite <- Herr.
    destruct (parse_tasks h ys cwd0 []) as [ts0|e0]; split;
      try discriminate; congruence.
  - intros d' Hd'. now rewrite Hd'.
Qed.

Lemma document_all_or_nothing_witness :
  parse_task_launches_from_yaml_dict sample_host sample_document "."
  = Ok (Some "demo"%string, [sample_loaded; sample_loaded_plain]).
Proof.
  apply (proj1 (document_all_or_nothing sample_host sample_document "."
                  [sample_yaml; sample_yaml_plain] eq_refl)).
  split; [reflexivity|]. repeat constructor.
Defined.

(** ** The loader: template variables *)

Lemma cut_none (sep : ascii) (s : string) :
  snd (cut sep s) = None <-> occurs sep s = false.
Proof.
  induction s as [|c s IH]; cbn; [tauto|].
  destruct (Ascii.eqb c sep); cbn; [split; discriminate|].
  destruct (cut sep s) as [a b]. exact IH.
Qed.

Lemma prefix_append (s t : string) : String.prefix s (s ++ t) = true.
Proof.
  induction s as [|a s IH]; cbn.
  - now destruct t.
  - destruct (ascii_dec a a); [exact IH | contradiction].
Qed.

Lemma template_vars_app (l1 l2 : list string) :
  forall vars,
    template_vars (l1 ++ l2) vars
    = match template_vars l1 vars with
      | Ok vars1 => template_vars l2 vars1
      | Raise e => Raise e
      end.
Proof.
  induction l1 as [|a l1 IH]; intros vars; cbn [app template_vars];
    [reflexivity|].
  destruct (String.prefix "--var-" a); [|apply IH].
  destruct (split_once equals_sign a) as [|x [|y [|z l]]];
    try reflexivity. apply IH.
Qed.

Lemma split_once_two (sep : ascii) (s : string) :
  (exists a b, split_once sep s = [a; b]) <-> occurs sep s = true.
Proof.
  unfold split_once. pose proof (cut_none sep s) as H.
  destruct (cut sep s) as [a [b|]]; cbn in H.
  - split; [|now exists a, b]. intros _.
    destruct (occurs sep s); [reflexivity|].
    destruct H as [_ H]. now specialize (H eq_refl).
  - split; [intros (x & y & [=])|]. intros Ho.
    rewrite (proj1 H eq_refl) in Ho. discriminate.
Qed.

(** X20.  The template variables taken from the command line.  Arguments
    that do not begin with [--var-] are ignored.  The collection succeeds
    exactly when every argument that begins with [--var-] contains an
    equals sign, and otherwise fails with an index error.  An argument
    [--var-k=v] defines [k] as [v], the value being everything after the
    first equals sign, and the last definition of a variable wins. *)
Theorem template_vars_collected (extra_process_args : list string)
  (vars : dict string) :
  template_vars (filter (String.prefix "--var-") extra_process_args) vars
  = template_vars extra_process_args vars
  /\ ((exists vars', template_vars extra_process_args vars = Ok vars') <->
      Forall (fun a => String.prefix "--var-" a = true ->
                       occurs equals_sign a = true) extra_process_args)
  /\ (forall e, template_vars extra_process_args vars = Raise e ->
                e = IndexError)
  /\ (forall k v vars',
        occurs equals_sign k = false ->
        template_vars
          (extra_process_args ++ [("--var-" ++ k ++ "=" ++ v)%string]) vars
        = Ok vars' ->
        dict_get k vars' = Some v)
  /\ (forall k a vars',
        template_vars (extra_process_args ++ [a]) vars = Ok vars' ->
        String.prefix "--var-" a = false ->
        dict_get k vars' = dict_get k
                             match template_vars extra_process_args vars with
                             | Ok vars1 => vars1
                             | Raise _ => vars
                             end).
Proof.
  refine (conj _ (conj _ (conj _ (conj _ _)))).
  - revert vars.
    induction extra_process_args as [|a l IH]; intros vars; [reflexivity|].
    cbn [filter template_vars].
    destruct (String.prefix "--var-" a) eqn:Ea; [|apply IH].
    cbn [template_vars]. rewrite Ea.
    destruct (split_once equals_sign a) as [|x [|y [|z l']]];
      try reflexivity. apply IH.
  - revert vars.
    induction extra_process_args as [|a l IH]; intros vars.
    + split; [constructor | now exists vars].
    + cbn [template_vars].
      destruct (String.prefix "--var-" a) eqn:Ea.
      * pose proof (split_once_two equals_sign a) as H2.
        destruct (split_once equals_sign a) as [|x [|y [|z l']]] eqn:Es.
        -- unfold split_once in Es.
           destruct (cut equals_sign a) as [? [?|]]; discriminate.
        -- split; [intros [? [=]]|]. intros HF. inversion HF as [|? ? Ha _].
           specialize (Ha Ea). apply H2 in Ha as (? & ? & [=]).
        -- rewrite IH. split.
           ++ intros HF. constructor; [|exact HF]. intros _.
              apply H2. now exists x, y.
           ++ intros HF. now inversion HF.
        -- unfold split_once in Es.
           destruct (cut equals_sign a) as [? [?|]]; discriminate.
      * rewrite IH. split.
        -- intros HF. constructor; [|exact HF]. congruence.
        -- intros HF. now inversion HF.
  - revert vars.
    induction extra_process_args as [|a l IH]; intros vars e;
      cbn [template_vars]; [discriminate|].
    destruct (String.prefix "--var-" a); [|apply IH].
    destruct (split_once equals_sign a) as [|x [|y [|z l']]];
      try (now intros [= <-]). apply IH.
  - intros k v vars' Hk. rewrite template_vars_app.
    destruct (template_vars extra_process_args vars) as [vars1|];
      [|discriminate].
    assert (Hcut : cut equals_sign ("--var-" ++ k ++ "=" ++ v)%string
                   = (("--var-" ++ k)%string, Some v)).
    { apply cut_first. split.
      - reflexivity.
      - cbn. exact Hk. }
    cbn [template_vars].
    assert (Hpre : String.prefix "--var-" ("--var-" ++ k ++ "=" ++ v)%string
                   = true) by apply prefix_append.
    rewrite Hpre. unfold split_once. rewrite Hcut.
    intros [= <-]. cbn [append drop_chars]. apply dict_get_set_same.
  - intros k a vars'. rewrite template_vars_app.
    destruct (template_vars extra_process_args vars) as [vars1|];
      [|discriminate].
    cbn [template_vars]. intros H Ha. rewrite Ha in H. congruence.
Qed.

(** ** The control-group file *)

Lemma lstrip_char_begins (c : ascii) (s : string) :
  begins_with c (lstrip_char c s) = false.
Proof.
  induction s as [|a s IH]; cbn; [reflexivity|].
  destruct (Ascii.eqb a c) eqn:E; [exact IH|]. cbn. exact E.
Qed.

Lemma rstrip_char_ends (c : ascii) (s : string) :
  ends_with c (rstrip_char c s) = false.
Proof.
  induction s as [|a s IH]; cbn; [reflexivity|].
  destruct (rstrip_char c s) as [|b r] eqn:E.
  - destruct (Ascii.eqb a c) eqn:Ea; cbn; [reflexivity | exact Ea].
  - exact IH.
Qed.

Lemma rstrip_char_begins (c : ascii) (s : string) :
  begins_with c s = false -> begins_with c (rstrip_char c s) = false.
Proof.
  destruct s as [|a s]; cbn; [reflexivity|]. intros Ha.
  destruct (rstrip_char c s); [rewrite Ha|]; cbn; [exact Ha | exact Ha].
Qed.

Lemma split_all_head (sep : ascii) (rest : string) :
  nth 0 (split_all sep rest) EmptyString = fst (cut sep rest).
Proof.
  induction rest as [|c r IH]; cbn [split_all cut]; [reflexivity|].
  destruct (Ascii.eqb c sep); [reflexivity|].
  destruct (split_all sep r) as [|f fs], (cut sep r) as [a b];
    cbn in *; now rewrite IH.
Qed.

Lemma split_all_third (rest : string) :
  nth 2 (split_all colon (String "0" (String colon (String colon rest))))
    EmptyString
  = fst (cut colon rest).
Proof.
  rewrite <- split_all_head. cbn [split_all].
  change (Ascii.eqb "0" colon) with false.
  change (Ascii.eqb colon colon) with true. cbv iota. reflexivity.
Qed.

(** X21.  The control group read from [/proc/<pid>/cgroup].  Only the
    first line that begins with [0::/] is looked at: the lines before it
    and after it do not matter.  The path is the text of that line between
    the second colon and the next one, stripped of white space and then of
    slashes at both ends, so the result neither begins nor ends with a
    slash; the root group, a file with no such line and a file that
    cannot be opened give no control group. *)
Theorem read_proc_cgroup_path :
  (forall before line after,
     (forall l, In l before -> String.prefix "0::/" l = false) ->
     String.prefix "0::/" line = true ->
     read_proc_cgroup_lines (before ++ line :: after)
     = read_proc_cgroup_lines [line])
  /\ (forall rest,
        read_proc_cgroup_lines [("0::/" ++ rest)%string]
        = let path1 := fst (cut colon (String slash rest)) in
          if String.eqb (strip path1) "/" then None
          else Some (strip_char slash (strip path1)))
  /\ (forall file path,
        read_proc_cgroup file = Some path ->
        begins_with slash path = false /\ ends_with slash path = false)
  /\ (forall lines,
        (forall l, In l lines -> String.prefix "0::/" l = false) ->
        read_proc_cgroup_lines lines = None)
  /\ read_proc_cgroup None = None.
Proof.
  assert (Hskip : forall before rest,
            (forall l, In l before -> String.prefix "0::/" l = false) ->
            read_proc_cgroup_lines (before ++ rest)
            = read_proc_cgroup_lines rest).
  { induction before as [|l before IH]; intros rest H; [reflexivity|].
    cbn [app read_proc_cgroup_lines]. rewrite (H l (or_introl eq_refl)).
    apply IH. intros l' Hl'. apply H. now right. }
  repeat apply conj.
  - intros before line after Hb Hl. rewrite (Hskip _ _ Hb).
    cbn [read_proc_cgroup_lines]. now rewrite Hl.
  - intros rest. cbn [read_proc_cgroup_lines].
    assert (Hp : String.prefix "0::/" ("0::/" ++ rest)%string = true)
      by apply prefix_append.
    rewrite Hp. cbv zeta.
    change ("0::/" ++ rest)%string
      with (String "0" (String colon (String colon (String slash rest)))).
    now rewrite split_all_third.
  - intros [text|] path; [|discriminate]. cbn [read_proc_cgroup].
    induction (readlines text) as [|line lines IH];
      cbn [read_proc_cgroup_lines]; [discriminate|].
    destruct (String.prefix "0::/" line); [|exact IH].
    destruct (String.eqb _ "/"); [discriminate|]. intros [= <-].
    unfold strip_char. split.
    + apply rstrip_char_begins, lstrip_char_begins.
    + apply rstrip_char_ends.
  - intros lines H. rewrite <- (app_nil_r lines), (Hskip _ _ H). reflexivity.
  - reflexivity.
Qed.
